(** * Static source-analysis layer of the pull-request reviewer

    A shallow embedding of [function.py], of the analysis methods of
    [code_context_provider.py] and of [PullRequestProcessor.analyse_diff],
    together with the properties of the specification that concern them.

    Python values are modelled as follows: [str] is [string], [int] is [Z],
    a [set] of strings is a [gset string], [list(set(...))] is [elements] of
    a [gset], a list mutated by index is a [list] with stdpp's insert, and a
    raised exception is the [Raise] constructor of [result]. *)

From Stdlib Require Import ZArith String Ascii List Bool Lia.
From stdpp Require Import base option list sorting gmap strings sets.

Local Open Scope string_scope.
Local Open Scope Z_scope.

(** ** Exceptions *)

Inductive exn :=
| FileNotFoundError | IndexError | AttributeError | TypeError | KeyError
| YAMLError
| OtherError (name : string).

Inductive result (A : Type) :=
| Ok (a : A)
| Raise (e : exn).
Arguments Ok {A} a.
Arguments Raise {A} e.

#[global] Instance result_ret : MRet result := fun A a => Ok a.
#[global] Instance result_bind : MBind result := fun A B k r =>
  match r with Ok a => k a | Raise e => Raise e end.

(** [try: body except Exception: return dflt] *)
Definition try_except {A} (body : result A) (dflt : A) : result A :=
  match body with Ok a => Ok a | Raise _ => Ok dflt end.

(** [try: body except FileNotFoundError: return dflt] *)
Definition try_except_not_found {A} (body : result A) (dflt : A) : result A :=
  match body with
  | Raise FileNotFoundError => Ok dflt
  | r => r
  end.

(** A loop that builds a list and stops at the first exception. *)
Fixpoint mapM_res {A B} (f : A → result B) (l : list A) : result (list B) :=
  match l with
  | [] => Ok []
  | a :: l' => b ← f a; bs ← mapM_res f l'; Ok (b :: bs)
  end.

(** ** Python string primitives used by the analysis code *)

Module Py.

Definition nl : ascii := ascii_of_nat 10.
Definition cr : ascii := ascii_of_nat 13.
Definition tab : ascii := ascii_of_nat 9.
Definition space : ascii := ascii_of_nat 32.

(** ["\n"] as a string, to write texts of several lines. *)
Definition NL : string := String nl "".

(** The line boundaries of [str.splitlines] that fit in one byte. *)
Definition is_linebreak (c : ascii) : bool :=
  let n := nat_of_ascii c in
  ((n =? 10) || (n =? 11) || (n =? 12) || (n =? 13) ||
   (n =? 28) || (n =? 29) || (n =? 30) || (n =? 133))%nat.

(** [s.splitlines()]: a boundary ends the current line, ["\r\n"] is one
    boundary, and no empty last line is produced. *)
Fixpoint splitlines (s : string) : list string :=
  match s with
  | "" => []
  | String c s' =>
      if is_linebreak c then
        match s' with
        | String d s'' =>
            if Ascii.eqb c cr && Ascii.eqb d nl then "" :: splitlines s''
            else "" :: splitlines s'
        | "" => [""]
        end
      else
        match splitlines s' with
        | [] => [String c ""]
        | l :: ls => String c l :: ls
        end
  end.

(** [s.split('\n')] *)
Fixpoint split_nl (s : string) : list string :=
  match s with
  | "" => [""]
  | String c s' =>
      if Ascii.eqb c nl then "" :: split_nl s'
      else match split_nl s' with
           | [] => [String c ""]
           | l :: ls => String c l :: ls
           end
  end.

(** ["\n".join(ls)] *)
Fixpoint join_nl (ls : list string) : string :=
  match ls with
  | [] => ""
  | l :: ls' =>
      match ls' with
      | [] => l
      | _ :: _ => l ++ String nl (join_nl ls')
      end
  end.

(** The string has no ["\n"]. *)
Fixpoint no_newline (s : string) : bool :=
  match s with
  | "" => true
  | String c s' => negb (Ascii.eqb c nl) && no_newline s'
  end.

(** Number of lines of a text whose lines are separated by ["\n"]. *)
Definition line_count (s : string) : nat := length (split_nl s).

(** [s.startswith(p)] *)
Fixpoint startswith (s p : string) : bool :=
  match p, s with
  | "", _ => true
  | String a p', String b s' => Ascii.eqb a b && startswith s' p'
  | String _ _, "" => false
  end.

(** [s[n:]] *)
Fixpoint drop_str (n : nat) (s : string) : string :=
  match n, s with
  | O, _ => s
  | S n', String _ s' => drop_str n' s'
  | S _, "" => ""
  end.

(** [p in s] for strings. *)
Fixpoint contains (p s : string) : bool :=
  startswith s p ||
  match s with
  | "" => false
  | String _ s' => contains p s'
  end.

(** *** [textwrap.dedent]

    The standard-library function, line by line: its three regular
    expressions work in multi-line mode and none of them matches across a
    ["\n"]. *)

Definition is_space_tab (c : ascii) : bool :=
  Ascii.eqb c space || Ascii.eqb c tab.

Fixpoint all_space_tab (s : string) : bool :=
  match s with
  | "" => true
  | String c s' => is_space_tab c && all_space_tab s'
  end.

(** [_whitespace_only_re.sub('', text)], on one line: a line of spaces and
    tabs becomes empty. *)
Definition blank_out (l : string) : string :=
  if all_space_tab l then "" else l.

Fixpoint leading_ws (l : string) : string :=
  match l with
  | "" => ""
  | String c l' => if is_space_tab c then String c (leading_ws l') else ""
  end.

(** [_leading_whitespace_re.findall(text)], on one line: the indentation
    of a line that has a character other than space and tab. *)
Definition indent_of (l : string) : option string :=
  if all_space_tab l then None else Some (leading_ws l).

(** The [for i, (x, y) in enumerate(zip(margin, indent))] loop: the margin
    is cut at the first position where the two differ, and kept when the
    loop ends without a difference. *)
Fixpoint cut_at_mismatch (margin indent : string) : string :=
  match margin, indent with
  | String x m', String y i' =>
      if Ascii.eqb x y then String x (cut_at_mismatch m' i') else ""
  | _, _ => margin
  end.

Definition margin_step (margin : option string) (indent : string)
  : option string :=
  match margin with
  | None => Some indent
  | Some m =>
      if startswith indent m then Some m
      else if startswith m indent then Some indent
      else Some (cut_at_mismatch m indent)
  end.

(** The margin [dedent] computes; [None] and [""] both mean "no margin". *)
Definition margin_of (text : string) : string :=
  let lines := map blank_out (split_nl text) in
  match fold_left margin_step (omap indent_of lines) None with
  | Some m => m
  | None => ""
  end.

(** [re.sub(r'(?m)^' + margin, '', text)], on one line. *)
Definition remove_margin (m l : string) : string :=
  if startswith l m then drop_str (String.length m) l else l.

Definition dedent (text : string) : string :=
  let lines := map blank_out (split_nl text) in
  let margin := margin_of text in
  match margin with
  | "" => join_nl lines
  | String _ _ => join_nl (map (remove_margin margin) lines)
  end.

(** De-indented text, as [dedent] returns it: no margin is left, and no
    line is made of spaces and tabs only. *)
Definition is_dedented (text : string) : bool :=
  forallb (fun l => implb (all_space_tab l) (String.eqb l ""))
          (split_nl text)
  && String.eqb (margin_of text) "".

(** Every line of the text has a character other than space and tab. *)
Definition no_blank_line (text : string) : bool :=
  forallb (fun l => negb (all_space_tab l)) (split_nl text).

(** Prefix every line of a text with [p]. *)
Definition indent_all (p text : string) : string :=
  join_nl (map (String.append p) (split_nl text)).

(** [textwrap.indent(text, p)]: only the lines that are not made of
    white space get the prefix. *)
Definition indent_nonblank (p text : string) : string :=
  join_nl (map (fun l => if all_space_tab l then l else p ++ l)
               (split_nl text)).

End Py.

(** ** Entities: [Line], [Docstring], [Function] *)

(** Modelled from the spec: the [Line] class ([line.py] is not among the
    sources). A Line is [(line_number, text)]; two Lines are equal, and hash
    alike, by [line_number] alone. It defines neither [__bool__] nor
    [__len__], so a Line is true in a condition. *)
Record Line := { line_num : Z; line_text : string }.

Definition Line_eq (a b : Line) : bool := line_num a =? line_num b.

(** Modelled from the spec: the [Docstring] class ([docstring.py] is not
    among the sources), [(start_line, end_line, content)]. *)
Record Docstring := {
  doc_start_line : Z; doc_end_line : Z; doc_content : string }.

Record Function := {
  func_name : string;
  func_code : string;
  class_name : option string;
  dependencies : option (list string);
  imports : option (list string);
  docstring : option Docstring;
  params : option (list string);
  start_line : option Z;
  end_line : option Z;
  added_lines : list Line;
  removed_lines : list Line }.

(** [Function.__init__]: the optional arguments default to [None], the two
    line lists start empty. *)
Definition Function_init (name code : string) (cls : option string)
    (deps imps : option (list string)) (doc : option Docstring)
    (ps : option (list string)) (s e : option Z) : Function :=
  {| func_name := name; func_code := code; class_name := cls;
     dependencies := deps; imports := imps; docstring := doc; params := ps;
     start_line := s; end_line := e; added_lines := []; removed_lines := [] |}.

Definition is_method (f : Function) : bool :=
  match class_name f with Some _ => true | None => false end.

(** [Function.__eq__] against another Function. *)
Definition Function_eq (f g : Function) : bool :=
  String.eqb (func_name f) (func_name g) &&
  String.eqb (func_code f) (func_code g).

(** [Function.addInformation]: each argument that is given (and true) is
    appended to its list. *)
Definition addInformation (added_line removed_line : option Line)
    (f : Function) : Function :=
  let f1 :=
    match added_line with
    | Some l =>
        {| func_name := func_name f; func_code := func_code f;
           class_name := class_name f; dependencies := dependencies f;
           imports := imports f; docstring := docstring f;
           params := params f; start_line := start_line f;
           end_line := end_line f;
           added_lines := added_lines f ++ [l];
           removed_lines := removed_lines f |}
    | None => f
    end in
  match removed_line with
  | Some l =>
      {| func_name := func_name f1; func_code := func_code f1;
         class_name := class_name f1; dependencies := dependencies f1;
         imports := imports f1; docstring := docstring f1;
         params := params f1; start_line := start_line f1;
         end_line := end_line f1;
         added_lines := added_lines f1;
         removed_lines := removed_lines f1 ++ [l] |}
  | None => f1
  end.

(** [set(l)] for a list of strings, [None] being not iterable. *)
Definition set_of_strings (l : option (list string)) : result (gset string) :=
  match l with
  | Some l => Ok (list_to_set l)
  | None => Raise TypeError
  end.

(** [Function.mergeFunctions]: the new code is computed first, then the
    union of the two dependency lists. *)
Definition mergeFunctions (self func : Function) : result Function :=
  let added_code := func_code func in
  let new_code := func_code self ++ String Py.nl (String Py.nl added_code) in
  let code' := Py.dedent new_code in
  dependencies_set ← set_of_strings (dependencies self);
  more ← set_of_strings (dependencies func);
  Ok {| func_name := func_name self; func_code := code';
        class_name := class_name self;
        dependencies := Some (elements (dependencies_set ∪ more));
        imports := imports self; docstring := docstring self;
        params := params self; start_line := start_line self;
        end_line := end_line self;
        added_lines := added_lines self;
        removed_lines := removed_lines self |}.

(** ** Diff attribution: [PullRequestProcessor.analyse_diff] *)

Module Diff.

(** [function.start_line <= line <= function.end_line]: a chained
    comparison, which compares with [end_line] only when the first
    comparison holds; comparing [None] with an [int] is a [TypeError]. *)
Definition in_span (f : Function) (line : Z) : result bool :=
  match start_line f with
  | None => Raise TypeError
  | Some s =>
      if s <=? line then
        match end_line f with
        | None => Raise TypeError
        | Some e => Ok (line <=? e)
        end
      else Ok false
  end.

(** The lines of [ls] numbered [line], each recorded in turn. *)
Definition record_added (ls : list Line) (line : Z) (f : Function)
  : Function :=
  fold_left (fun f l => if line_num l =? line
                        then addInformation (Some l) None f else f) ls f.

Definition record_removed (ls : list Line) (line : Z) (f : Function)
  : Function :=
  fold_left (fun f l => if line_num l =? line
                        then addInformation None (Some l) f else f) ls f.

(** The body run on the first function whose span has the line. *)
Definition record_line (added_lines removed_lines : list Line) (line : Z)
    (f : Function) : Function :=
  if bool_decide (line ∈ (line_num <$> added_lines))
  then record_added added_lines line f
  else if bool_decide (line ∈ (line_num <$> removed_lines))
  then record_removed removed_lines line f
  else f.

(** The state of the loops: the functions of the file, mutated in place,
    and [modified_functions], a set of references into that list (kept as
    positions; two Functions equal by [__eq__] are one element). *)
Record state := {
  functions : list Function;
  modified_functions : list nat }.

Definition set_add (fs : list Function) (i : nat) (s : list nat) : list nat :=
  match fs !! i with
  | None => s
  | Some f =>
      if existsb (fun j => match fs !! j with
                           | Some g => Function_eq g f
                           | None => false
                           end) s
      then s else s ++ [i]
  end.

(** [for function in functions_in_file: ... break], from position [i] on;
    [n] is the number of functions left to look at. *)
Fixpoint scan (added_lines removed_lines : list Line) (line : Z)
    (n i : nat) (st : state) : result state :=
  match n with
  | O => Ok st
  | S n' =>
      match functions st !! i with
      | None => Ok st
      | Some f =>
          b ← in_span f line;
          if b : bool then
            let fs' := <[i := record_line added_lines removed_lines line f]>
                         (functions st) in
            Ok {| functions := fs';
                  modified_functions :=
                    set_add fs' i (modified_functions st) |}
          else scan added_lines removed_lines line n' (S i) st
      end
  end.

(** [list(set(added_line_num + removed_line_num))] *)
Definition modified_lines (added_lines removed_lines : list Line) : list Z :=
  elements (list_to_set ((line_num <$> added_lines) ++
                         (line_num <$> removed_lines)) : gset Z).

Fixpoint for_lines (added_lines removed_lines : list Line)
    (lines : list Z) (st : state) : result state :=
  match lines with
  | [] => Ok st
  | line :: rest =>
      st' ← scan added_lines removed_lines line
               (length (functions st)) 0%nat st;
      for_lines added_lines removed_lines rest st'
  end.

(** [analyse_diff]: the outcome is the mutated list and the set stored in
    [modified_func_dict[path]]; an exception is logged and raised again. *)
Definition analyse_diff (added_lines removed_lines : list Line)
    (functions_in_file : list Function) : result state :=
  for_lines added_lines removed_lines
    (modified_lines added_lines removed_lines)
    {| functions := functions_in_file; modified_functions := [] |}.

(** A line number is recorded on a function when one of its two lists has
    a Line with that number. *)
Definition recorded (line : Z) (f : Function) : Prop :=
  line ∈ (line_num <$> added_lines f) ∨ line ∈ (line_num <$> removed_lines f).

(** The span of [f] has the line. *)
Definition spans (f : Function) (line : Z) : Prop :=
  ∃ s e, start_line f = Some s ∧ end_line f = Some e ∧ s ≤ line ≤ e.

(** Position [j] holds the first function of the list whose span has the
    line. *)
Definition first_spanning (fs : list Function) (line : Z) (j : nat) : Prop :=
  (∃ f, fs !! j = Some f ∧ spans f line) ∧
  ∀ i g, (i < j)%nat → fs !! i = Some g → ¬ spans g line.

(** A function as extraction leaves it: with its two line numbers and
    nothing recorded yet. *)
Definition fresh (f : Function) : Prop :=
  is_Some (start_line f) ∧ is_Some (end_line f) ∧
  added_lines f = [] ∧ removed_lines f = [].

(** Two states of the list of functions that differ in the recorded lines
    only. *)
Definition same_spans (fs fs' : list Function) : Prop :=
  length fs = length fs' ∧
  ∀ j f f', fs !! j = Some f → fs' !! j = Some f' →
            start_line f = start_line f' ∧ end_line f = end_line f'.

Definition has_span (f : Function) : Prop :=
  is_Some (start_line f) ∧ is_Some (end_line f).

End Diff.

(** ** Concrete syntax trees

    The tree-sitter nodes the extractor reads: kind, whether the node is
    named, the field name it has in its parent, start and end points
    (row, column), source text and children. *)

Module Tree.

#[local] Unset Elimination Schemes.
Inductive Node :=
| mkNode (type : string) (is_named : bool) (field : option string)
         (start_point end_point : nat * nat) (text : string)
         (children : list Node).
#[local] Set Elimination Schemes.

Definition type (n : Node) : string :=
  match n with mkNode t _ _ _ _ _ _ => t end.
Definition is_named (n : Node) : bool :=
  match n with mkNode _ b _ _ _ _ _ => b end.
Definition field (n : Node) : option string :=
  match n with mkNode _ _ f _ _ _ _ => f end.
Definition start_point (n : Node) : nat * nat :=
  match n with mkNode _ _ _ s _ _ _ => s end.
Definition end_point (n : Node) : nat * nat :=
  match n with mkNode _ _ _ _ e _ _ => e end.
Definition text (n : Node) : string :=
  match n with mkNode _ _ _ _ _ x _ => x end.
Definition children (n : Node) : list Node :=
  match n with mkNode _ _ _ _ _ _ cs => cs end.

Definition start_row (n : Node) : nat := fst (start_point n).
Definition end_row (n : Node) : nat := fst (end_point n).

(** [node.child_by_field_name(name)] *)
Definition child_by_field_name (n : Node) (name : string) : option Node :=
  find (fun c => match field c with
                 | Some f => String.eqb f name
                 | None => false
                 end) (children n).

(** [node.named_children] *)
Definition named_children (n : Node) : list Node :=
  filter (fun c => is_named c = true) (children n).

(** The node and all the nodes below it, in document order. *)
Fixpoint subtree (n : Node) : list Node :=
  match n with
  | mkNode _ _ _ _ _ _ cs => n :: flat_map subtree cs
  end.

Definition is_type (t : string) (n : Node) : bool := String.eqb (type n) t.

End Tree.

(** ** Extraction: [CodeContextProvider._extract_*] *)

Module Extract.
Import Tree.

(** [lines[i]] *)
Definition index_line (lines : list string) (i : nat) : result string :=
  match lines !! i with
  | Some l => Ok l
  | None => Raise IndexError
  end.

(** [_extract_code]: the lines from the node's first row to its last,
    joined again and de-indented. *)
Definition _extract_code (code : string) (node : Node) : result string :=
  let lines := Py.splitlines code in
  let start_line := start_row node in
  let end_line := end_row node in
  extracted_lines ←
    mapM_res (index_line lines) (seq start_line (end_line + 1 - start_line));
  let snippet := Py.join_nl extracted_lines in
  Ok (Py.dedent snippet).

(** The name a call node adds to the dependencies, if any. *)
Definition called_name (node : Node) : option string :=
  match child_by_field_name node "function" with
  | Some func_node =>
      if is_type "identifier" func_node then Some (text func_node)
      else if is_type "attribute" func_node then
        match child_by_field_name func_node "attribute" with
        | Some attribute_node => Some (text attribute_node)
        | None => None
        end
      else None
  | None => None
  end.

(** The inner [visit] of [_extract_dependencies]. *)
Fixpoint dep_visit (node : Node) (dependencies_names : gset string)
  : gset string :=
  match node with
  | mkNode _ _ _ _ _ _ cs =>
      let names :=
        if is_type "call" node then
          match called_name node with
          | Some name => dependencies_names ∪ {[ name ]}
          | None => dependencies_names
          end
        else dependencies_names in
      fold_left (fun acc child => dep_visit child acc) cs names
  end.

Definition _extract_dependencies (node : Node) : list string :=
  elements (dep_visit node ∅).

(** The names of all the calls of a subtree, nested definitions
    included: for each call node in document order, the identifier called,
    or the last attribute of an attribute-style call. *)
Definition call_names (node : Node) : list string :=
  omap called_name (filter (fun n => is_type "call" n = true) (subtree node)).

(** The nodes the import query captures: every import statement of the
    tree. *)
Definition import_nodes (root_node : Node) : list Node :=
  filter (fun n => is_type "import_statement" n = true ∨
                   is_type "import_from_statement" n = true)
         (subtree root_node).

Definition _extract_imports (code : string) (root_node : Node)
  : result (list string) :=
  mapM_res (_extract_code code) (import_nodes root_node).

Definition _extract_lines (node : Node) : Z * Z :=
  (Z.of_nat (start_row node) + 1, Z.of_nat (end_row node) + 1).

(** The two loops of [_extract_docstring]: the first expression statement
    of a block that starts with a string gives the docstring. *)
Fixpoint docstring_in_block (code : string) (body : list Node)
  : result (option Docstring) :=
  match body with
  | [] => Ok None
  | body_child :: rest =>
      if is_type "expression_statement" body_child then
        match children body_child with
        | [] => Raise IndexError
        | docstring_node :: _ =>
            if is_type "string" docstring_node then
              docstring_content ← _extract_code code docstring_node;
              let '(s, e) := _extract_lines docstring_node in
              Ok (Some {| doc_start_line := s; doc_end_line := e;
                          doc_content := docstring_content |})
            else docstring_in_block code rest
        end
      else docstring_in_block code rest
  end.

Fixpoint docstring_in_children (code : string) (cs : list Node)
  : result (option Docstring) :=
  match cs with
  | [] => Ok None
  | child :: rest =>
      if is_type "block" child then
        d ← docstring_in_block code (children child);
        match d with
        | Some _ => Ok d
        | None => docstring_in_children code rest
        end
      else docstring_in_children code rest
  end.

Definition _extract_docstring (code : string) (node : Node)
  : result (option Docstring) :=
  docstring_in_children code (children node).

Definition _extract_fixtures (node : Node) : list string :=
  match child_by_field_name node "parameters" with
  | Some parameters_node =>
      map text (filter (fun p => is_type "identifier" p = true)
                       (named_children parameters_node))
  | None => []
  end.

(** [node.child_by_field_name('name').text] *)
Definition name_text (node : Node) : result string :=
  match child_by_field_name node "name" with
  | Some n => Ok (text n)
  | None => Raise AttributeError
  end.

(** The Function built for a function-definition node (the six
    extractions are gathered, the first exception wins). *)
Definition make_function (code : string) (root_node node : Node)
    (current_class : option string) : result Function :=
  func_name ← name_text node;
  func_code ← _extract_code code node;
  let dependencies := _extract_dependencies node in
  imports ← _extract_imports code root_node;
  let '(start_line, end_line) := _extract_lines node in
  let params := _extract_fixtures node in
  docstring ← _extract_docstring code node;
  Ok (Function_init func_name func_code current_class (Some dependencies)
        (Some imports) docstring (Some params)
        (Some start_line) (Some end_line)).

(** The [visit] of [_extract_info]; [acc] is the list
    [codebase_dict[codebase_path]] the Functions are appended to. *)
Fixpoint visit (code : string) (root_node : Node) (node : Node)
    (current_class : option string) (acc : list Function) {struct node}
  : result (list Function) :=
  match node with
  | mkNode _ _ _ _ _ _ cs =>
      if is_type "function_definition" node then
        current_func ← make_function code root_node node current_class;
        Ok (acc ++ [current_func])%list
      else if is_type "class_definition" node then
        class_name ← name_text node;
        fold_left (fun r child =>
                     acc' ← r;
                     visit code root_node child (Some class_name) acc')
                  cs (Ok acc)
      else
        fold_left (fun r child =>
                     acc' ← r;
                     visit code root_node child current_class acc')
                  cs (Ok acc)
  end.

(** [for child in tree.root_node.children: await visit(child)] *)
Definition visit_all (code : string) (root_node : Node)
    (cs : list Node) (acc : list Function) : result (list Function) :=
  fold_left (fun r child => acc' ← r; visit code root_node child None acc')
            cs (Ok acc).

(** [_extract_info]: the entry of the file is created when missing, then
    filled. *)
Definition _extract_info (codebase_path : string)
    (codebase_dict : gmap string (list Function))
    (root_node : Node) (code : string)
  : result (gmap string (list Function)) :=
  let acc := default [] (codebase_dict !! codebase_path) in
  fs ← visit_all code root_node (children root_node) acc;
  Ok (<[codebase_path := fs]> codebase_dict).

(** The function definitions the traversal reaches: those that do not lie
    inside another function definition. *)
Fixpoint outer_definitions (node : Node) : list Node :=
  match node with
  | mkNode _ _ _ _ _ _ cs =>
      if is_type "function_definition" node then [node]
      else flat_map outer_definitions cs
  end.




(** [F] is the Function built for the definition node [n]. *)
Definition made_from (code : string) (root_node : Node) (n : Node)
    (F : Function) : Prop :=
  ∃ current_class, make_function code root_node n current_class = Ok F.




(** Every node ends on or after the row it starts on. *)
Definition points_ordered (root_node : Node) : bool :=
  forallb (fun n => (start_row n <=? end_row n)%nat) (subtree root_node).

End Extract.

(** ** Configuration documents

    What [yaml.safe_load] returns: scalars, lists, and dicts whose keys are
    scalars, in the order of the document. A float is kept as its 64 bits.
    (Python also takes [1], [True] and [1.0] for one key; keys are compared
    here as written.) *)

Module Yaml.

Inductive scalar :=
| SNone
| SBool (b : bool)
| SInt (z : Z)
| SFloat (bits : Z)
| SStr (s : string).

#[global] Instance scalar_eq_dec : EqDecision scalar.
Proof. solve_decision. Defined.

Definition scalar_code (x : scalar) : unit + bool + Z + Z + string :=
  match x with
  | SNone => inl (inl (inl (inl tt)))
  | SBool b => inl (inl (inl (inr b)))
  | SInt z => inl (inl (inr z))
  | SFloat z => inl (inr z)
  | SStr s => inr s
  end.

Definition scalar_decode (c : unit + bool + Z + Z + string) : scalar :=
  match c with
  | inl (inl (inl (inl _))) => SNone
  | inl (inl (inl (inr b))) => SBool b
  | inl (inl (inr z)) => SInt z
  | inl (inr z) => SFloat z
  | inr s => SStr s
  end.

#[global] Instance scalar_countable : Countable scalar.
Proof.
  apply (inj_countable' scalar_code scalar_decode). by intros [].
Defined.

#[local] Unset Elimination Schemes.
Inductive yaml :=
| YScalar (x : scalar)
| YList (items : list yaml)
| YDict (items : list (scalar * yaml)).
#[local] Set Elimination Schemes.

(** [d[key]] and [key in d] for a dict. *)
Definition dict_get (items : list (scalar * yaml)) (key : scalar)
  : option yaml :=
  snd <$> find (fun kv => bool_decide (fst kv = key)) items.

(** The truth value of a loaded document. *)
Definition truthy (d : yaml) : bool :=
  match d with
  | YScalar SNone => false
  | YScalar (SBool b) => b
  | YScalar (SInt z) => negb (z =? 0)
  | YScalar (SFloat bits) => negb (bits mod 2 ^ 63 =? 0)
  | YScalar (SStr s) => negb (String.eqb s "")
  | YList items => match items with [] => false | _ => true end
  | YDict items => match items with [] => false | _ => true end
  end.

(** The one-character strings of a string. *)
Fixpoint chars (s : string) : list scalar :=
  match s with
  | "" => []
  | String c s' => SStr (String c "") :: chars s'
  end.

(** An element of a set has to be hashable. *)
Definition hashable (d : yaml) : result scalar :=
  match d with
  | YScalar x => Ok x
  | _ => Raise TypeError
  end.

(** [set(nodes)]: the items of a list, the characters of a string, the
    keys of a dict; anything else is not iterable. *)
Definition set_of (nodes : yaml) : result (gset scalar) :=
  match nodes with
  | YList items => xs ← mapM_res hashable items; Ok (list_to_set xs)
  | YScalar (SStr s) => Ok (list_to_set (chars s))
  | YDict items => Ok (list_to_set (map fst items))
  | YScalar _ => Raise TypeError
  end.

(** The string items of a list. *)
Definition str_items (items : list yaml) : list string :=
  omap (fun item => match item with
                    | YScalar (SStr s) => Some s
                    | _ => None
                    end) items.

(** The [visit] of [get_called_pipelines]. *)
Fixpoint called_visit (node : yaml) (pipelines_called : gset string)
  : gset string :=
  match node with
  | YDict items =>
      fold_left
        (fun acc kv =>
           match kv with
           | (key, value) =>
               match value with
               | YList l =>
                   if bool_decide (key = SStr "pipelines")
                   then acc ∪ list_to_set (str_items l)
                   else called_visit value acc
               | _ => called_visit value acc
               end
           end) items pipelines_called
  | YList items =>
      fold_left (fun acc item => called_visit item acc) items pipelines_called
  | YScalar _ => pipelines_called
  end.

(** The [visit] of [get_defined_pipelines]. A value that is a dict is
    looked at, and entered, only when it has a [nodes] key. *)
Fixpoint defined_visit (node : yaml)
    (all_pipelines : gmap scalar (gset scalar))
  : result (gmap scalar (gset scalar)) :=
  match node with
  | YDict items =>
      fold_left
        (fun r kv =>
           acc ← r;
           match kv with
           | (key, value) =>
               match value with
               | YDict vitems =>
                   match dict_get vitems (SStr "nodes") with
                   | Some nodes =>
                       nodes_set ← set_of nodes;
                       defined_visit value (<[key := nodes_set]> acc)
                   | None => Ok acc
                   end
               | _ => defined_visit value acc
               end
           end) items (Ok all_pipelines)
  | YList items =>
      fold_left (fun r item => acc ← r; defined_visit item acc)
                items (Ok all_pipelines)
  | YScalar _ => Ok all_pipelines
  end.

(** [values[key]] for the value of a node entry. *)
Definition subscript (values : yaml) (key : string) : result yaml :=
  match values with
  | YDict items =>
      match dict_get items (SStr key) with
      | Some v => Ok v
      | None => Raise KeyError
      end
  | _ => Raise TypeError
  end.

Record node_info := { file : string; func : yaml; inputs : yaml }.

(** [data.items()] *)
Definition dict_items (data : yaml) : result (list (scalar * yaml)) :=
  match data with
  | YDict items => Ok items
  | _ => Raise AttributeError
  end.

(** The loop of [get_defined_nodes]. *)
Fixpoint nodes_loop (repo_file_path : string) (items : list (scalar * yaml))
    (all_nodes : gmap scalar node_info) : result (gmap scalar node_info) :=
  match items with
  | [] => Ok all_nodes
  | (node_name, values) :: rest =>
      func ← subscript values "func";
      inputs ← subscript values "inputs";
      nodes_loop repo_file_path rest
        (<[node_name := {| file := repo_file_path; func := func;
                           inputs := inputs |}]> all_nodes)
  end.

(** The mappings a full descent would reach: the document itself, the
    items of a list, the values of a dict. *)
Inductive inside : yaml → yaml → Prop :=
| inside_here d : inside d d
| inside_item items item d :
    item ∈ items → inside item d → inside (YList items) d
| inside_value items key value d :
    (key, value) ∈ items → inside value d → inside (YDict items) d.

(** The mappings the descent of [defined_visit] reaches: a value that is a
    dict is entered only when it has a [nodes] key. *)
Inductive reached : yaml → yaml → Prop :=
| reached_here d : reached d d
| reached_item items item d :
    item ∈ items → reached item d → reached (YList items) d
| reached_dict items key vitems d :
    (key, YDict vitems) ∈ items →
    is_Some (dict_get vitems (SStr "nodes")) →
    reached (YDict vitems) d → reached (YDict items) d
| reached_list items key l d :
    (key, YList l) ∈ items →
    reached (YList l) d → reached (YDict items) d.

(** [key] names a pipeline in the mapping [d]: its value is a mapping with
    a [nodes] key, whose value is [nodes]. *)
Definition pipeline_entry (d : yaml) (key : scalar) (nodes : yaml) : Prop :=
  ∃ items vitems,
    d = YDict items ∧ (key, YDict vitems) ∈ items ∧
    dict_get vitems (SStr "nodes") = Some nodes.

(** A pipeline named [key], with a [nodes] value that satisfies [Q], in a
    mapping that the descent of [defined_visit] reaches from [doc]. *)
Definition found_in (Q : yaml → Prop) (doc : yaml) (key : scalar) : Prop :=
  ∃ m nodes, reached doc m ∧ pipeline_entry m key nodes ∧ Q nodes.

(** The same for one entry [(k, v)] of a mapping: the entry itself when
    [v] is a mapping with a [nodes] key, and what is found inside [v]. *)
Definition entry_found (Q : yaml → Prop) (k : scalar) (v : yaml)
    (key : scalar) : Prop :=
  match v with
  | YDict vitems =>
      ∃ nodes, dict_get vitems (SStr "nodes") = Some nodes ∧
               ((k = key ∧ Q nodes) ∨ found_in Q v key)
  | YList _ => found_in Q v key
  | YScalar _ => False
  end.

(** What a part of the traversal adds to the map [acc] to give [r]: the
    keys that satisfy [E], with values that satisfy [E']. *)
Definition adds (E : scalar → Prop) (E' : scalar → gset scalar → Prop)
    (acc r : gmap scalar (gset scalar)) : Prop :=
  (∀ key, key ∈ dom r ↔ key ∈ dom acc ∨ E key) ∧
  (∀ key s, r !! key = Some s → acc !! key = Some s ∨ E' key s).

End Yaml.

(** ** The provider: files, parser and loader

    [open_read] is what [open(path).read()] gives, [parse] the root node of
    the parser's tree, [safe_load] is [yaml.safe_load], and [repo_path] the
    [pathlib]/[os.path] steps that drop the first segment of a path. *)

Module Provider.
Import Tree Extract Yaml.

Section provider.
Variable open_read : string → result string.
Variable parse : string → Node.
Variable safe_load : string → result yaml.
Variable repo_path : string → string.

(** [build_context], on a provider whose dictionary is [codebase_dict]
    ([{}] after [__init__]). *)
Definition build_context (codebase_path : string)
    (codebase_dict : gmap string (list Function))
  : result (gmap string (list Function)) :=
  try_except_not_found
    (code ← open_read codebase_path;
     let root_node := parse code in
     _extract_info codebase_path codebase_dict root_node code)
    codebase_dict.

(** [get_functions_in_file] of the pull-request processor: the entry of
    the file in a new provider's context, or nothing. *)
Definition get_functions_in_file (temp_path : string)
  : result (list Function) :=
  context ← build_context temp_path ∅;
  Ok (default [] (context !! temp_path)).

(** The [visit] of [get_dep_func]: the first definition named [dep], in
    document order; definitions with another name are searched too. *)
Fixpoint dep_func_visit (code dep : string) (node : Node)
  : result (option Function) :=
  match node with
  | mkNode _ _ _ _ _ _ cs =>
      let search_children :=
        fold_left (fun r child =>
                     found ← r;
                     match found with
                     | Some _ => Ok found
                     | None => dep_func_visit code dep child
                     end) cs (Ok None) in
      if is_type "function_definition" node then
        func_name ← name_text node;
        if String.eqb func_name dep then
          dep_code ← _extract_code code node;
          Ok (Some (Function_init func_name dep_code None None None None
                      None None None))
        else search_children
      else search_children
  end.

Definition get_dep_func (path dep : string) : result (option Function) :=
  let path := if Py.contains ".py" path then path else path ++ ".py" in
  code ← open_read path;
  dep_func_visit code dep (parse code).

(** The string parts the three loops of [get_file_docstring] go through. *)
Definition string_parts (root_node : Node) : list Node :=
  flat_map (fun child =>
    if is_type "expression_statement" child then
      flat_map (fun grandchild =>
        if is_type "string" grandchild then
          filter (fun string_part =>
                    is_type "string_content" string_part = true)
                 (children grandchild)
        else []) (children child)
    else []) (children root_node).

Definition get_file_docstring (codebase_path : string)
  : result (option Docstring) :=
  code ← open_read codebase_path;
  match string_parts (parse code) with
  | string_part :: _ =>
      file_docstring ← _extract_code code string_part;
      let '(s, e) := _extract_lines string_part in
      Ok (Some {| doc_start_line := s; doc_end_line := e;
                  doc_content := file_docstring |})
  | [] => Ok None
  end.

Definition get_called_pipelines (codebase_path : string)
  : result (gset string) :=
  try_except
    (code ← open_read codebase_path;
     data ← safe_load code;
     Ok (called_visit data ∅))
    ∅.

Definition get_defined_pipelines (codebase_path : string)
  : result (gmap scalar (gset scalar)) :=
  try_except
    (code ← open_read codebase_path;
     data ← safe_load code;
     defined_visit data ∅)
    ∅.

Definition get_defined_nodes (codebase_path : string)
  : result (gmap scalar node_info) :=
  try_except
    (code ← open_read codebase_path;
     data ← safe_load code;
     if truthy data then
       items ← dict_items data;
       nodes_loop (repo_path codebase_path) items ∅
     else Ok ∅)
    ∅.

End provider.
End Provider.

(** ** Sample inputs *)

Module Samples.

(** Two functions whose spans nest (lines 1 to 10 and 3 to 5) and one
    after them (lines 12 to 14), as extraction leaves them. *)
Definition sample_function (name : string) (s e : Z) : Function :=
  Function_init name ("def " ++ name ++ "(): pass") None (Some []) (Some [])
    None (Some []) (Some s) (Some e).

Definition sample_functions : list Function :=
  [sample_function "outer" 1 10; sample_function "inner" 3 5;
   sample_function "after" 12 14].

Definition sample_added : list Line :=
  [{| line_num := 4; line_text := "x = 1" |};
   {| line_num := 13; line_text := "y = 2" |}].

Definition sample_removed : list Line :=
  [{| line_num := 4; line_text := "x = 0" |};
   {| line_num := 11; line_text := "" |}].

(** The text [def f():\n    x = g()\n    return x] and the concrete
    syntax tree the Python grammar of tree-sitter gives for it. *)
Definition sample_code : string :=
  "def f():" ++ Py.NL ++ "    x = g()" ++ Py.NL ++ "    return x".

Definition leaf (type : string) (is_named : bool) (field : option string)
    (start_point end_point : nat * nat) (text : string) : Tree.Node :=
  Tree.mkNode type is_named field start_point end_point text [].

Definition sample_call : Tree.Node :=
  Tree.mkNode "call" true (Some "right") (1, 8)%nat (1, 11)%nat "g()"
    [leaf "identifier" true (Some "function") (1, 8)%nat (1, 9)%nat "g";
     Tree.mkNode "argument_list" true (Some "arguments")
       (1, 9)%nat (1, 11)%nat "()"
       [leaf "(" false None (1, 9)%nat (1, 10)%nat "(";
        leaf ")" false None (1, 10)%nat (1, 11)%nat ")"]].

Definition sample_def : Tree.Node :=
  Tree.mkNode "function_definition" true None (0, 0)%nat (2, 12)%nat
    sample_code
    [leaf "def" false None (0, 0)%nat (0, 3)%nat "def";
     leaf "identifier" true (Some "name") (0, 4)%nat (0, 5)%nat "f";
     Tree.mkNode "parameters" true (Some "parameters")
       (0, 5)%nat (0, 7)%nat "()"
       [leaf "(" false None (0, 5)%nat (0, 6)%nat "(";
        leaf ")" false None (0, 6)%nat (0, 7)%nat ")"];
     leaf ":" false None (0, 7)%nat (0, 8)%nat ":";
     Tree.mkNode "block" true (Some "body") (1, 4)%nat (2, 12)%nat
       ("x = g()" ++ Py.NL ++ "    return x")
       [Tree.mkNode "expression_statement" true None
          (1, 4)%nat (1, 11)%nat "x = g()"
          [Tree.mkNode "assignment" true None (1, 4)%nat (1, 11)%nat "x = g()"
             [leaf "identifier" true (Some "left") (1, 4)%nat (1, 5)%nat "x";
              leaf "=" false None (1, 6)%nat (1, 7)%nat "=";
              sample_call]];
        Tree.mkNode "return_statement" true None
          (2, 4)%nat (2, 12)%nat "return x"
          [leaf "return" false None (2, 4)%nat (2, 10)%nat "return";
           leaf "identifier" true None (2, 11)%nat (2, 12)%nat "x"]]].

Definition sample_root : Tree.Node :=
  Tree.mkNode "module" true None (0, 0)%nat (2, 12)%nat sample_code
    [sample_def].

(** A class with a method that has a definition nested in it, and a
    function after the class:
<<
class C:
    def m(self):
        def inner():
            return self.h()
        return inner()

def top():
    pass
>>
    The tree has the nodes the extraction looks at; the text is given for
    the identifiers. *)
Definition module_code : string :=
  "class C:" ++ Py.NL ++
  "    def m(self):" ++ Py.NL ++
  "        def inner():" ++ Py.NL ++
  "            return self.h()" ++ Py.NL ++
  "        return inner()" ++ Py.NL ++
  "" ++ Py.NL ++
  "def top():" ++ Py.NL ++
  "    pass".

Definition node (type : string) (field : option string)
    (start_point end_point : nat * nat) (children : list Tree.Node)
  : Tree.Node :=
  Tree.mkNode type true field start_point end_point "" children.

Definition ident (field : option string) (start_point end_point : nat * nat)
    (text : string) : Tree.Node :=
  leaf "identifier" true field start_point end_point text.

Definition attribute_call : Tree.Node :=
  node "call" None (3, 19)%nat (3, 27)%nat
    [node "attribute" (Some "function") (3, 19)%nat (3, 25)%nat
       [ident (Some "object") (3, 19)%nat (3, 23)%nat "self";
        ident (Some "attribute") (3, 24)%nat (3, 25)%nat "h"];
     node "argument_list" (Some "arguments") (3, 25)%nat (3, 27)%nat []].

Definition inner_def : Tree.Node :=
  node "function_definition" None (2, 8)%nat (3, 27)%nat
    [ident (Some "name") (2, 12)%nat (2, 17)%nat "inner";
     node "parameters" (Some "parameters") (2, 17)%nat (2, 19)%nat [];
     node "block" (Some "body") (3, 12)%nat (3, 27)%nat
       [node "return_statement" None (3, 12)%nat (3, 27)%nat
          [attribute_call]]].

Definition method_def : Tree.Node :=
  node "function_definition" None (1, 4)%nat (4, 22)%nat
    [ident (Some "name") (1, 8)%nat (1, 9)%nat "m";
     node "parameters" (Some "parameters") (1, 9)%nat (1, 15)%nat
       [ident None (1, 10)%nat (1, 14)%nat "self"];
     node "block" (Some "body") (2, 8)%nat (4, 22)%nat
       [inner_def;
        node "return_statement" None (4, 8)%nat (4, 22)%nat
          [node "call" None (4, 15)%nat (4, 22)%nat
             [ident (Some "function") (4, 15)%nat (4, 20)%nat "inner";
              node "argument_list" (Some "arguments")
                (4, 20)%nat (4, 22)%nat []]]]].

Definition top_def : Tree.Node :=
  node "function_definition" None (6, 0)%nat (7, 8)%nat
    [ident (Some "name") (6, 4)%nat (6, 7)%nat "top";
     node "parameters" (Some "parameters") (6, 7)%nat (6, 9)%nat [];
     node "block" (Some "body") (7, 4)%nat (7, 8)%nat
       [node "pass_statement" None (7, 4)%nat (7, 8)%nat []]].

Definition module_root : Tree.Node :=
  node "module" None (0, 0)%nat (7, 8)%nat
    [node "class_definition" None (0, 0)%nat (4, 22)%nat
       [ident (Some "name") (0, 6)%nat (0, 7)%nat "C";
        node "block" (Some "body") (1, 4)%nat (4, 22)%nat [method_def]];
     top_def].

(** The Functions of that module, and the one of the method. *)
Definition module_functions : list Function :=
  match Extract.visit_all module_code module_root
          (Tree.children module_root) [] with
  | Ok fs => fs
  | Raise _ => []
  end.

Definition method_function : Function :=
  default (sample_function "" 0 0) (module_functions !! 0%nat).

(** A configuration whose pipelines are kept under a [pipelines] key:
<<
pipelines:
  p1:
    nodes: [n1, n2]
>>
    and one whose pipelines are at the top, with a pipeline inside a
    pipeline and one inside a list:
<<
p1:
  nodes: [n1, n2]
  p2:
    nodes: [n3]
extra:
  - p3:
      nodes: [n4]
>> *)
Definition str (s : string) : Yaml.yaml := Yaml.YScalar (Yaml.SStr s).

Definition wrapped_doc : Yaml.yaml :=
  Yaml.YDict
    [(Yaml.SStr "pipelines",
      Yaml.YDict
        [(Yaml.SStr "p1",
          Yaml.YDict [(Yaml.SStr "nodes", Yaml.YList [str "n1"; str "n2"])])])].

Definition flat_doc : Yaml.yaml :=
  Yaml.YDict
    [(Yaml.SStr "p1",
      Yaml.YDict
        [(Yaml.SStr "nodes", Yaml.YList [str "n1"; str "n2"]);
         (Yaml.SStr "p2",
          Yaml.YDict [(Yaml.SStr "nodes", Yaml.YList [str "n3"])])]);
     (Yaml.SStr "extra",
      Yaml.YList
        [Yaml.YDict
           [(Yaml.SStr "p3",
             Yaml.YDict [(Yaml.SStr "nodes", Yaml.YList [str "n4"])])]])].

(** What the traversal of [get_defined_pipelines] gives for it. *)
Definition flat_result : gmap Yaml.scalar (gset Yaml.scalar) :=
  match Yaml.defined_visit flat_doc ∅ with
  | Ok r => r
  | Raise _ => ∅
  end.

(** Stand-ins for the file system, the parser and the loader: one file
    with a given content, every other file absent. *)
Definition one_file (path content : string) : string → result string :=
  fun p => if String.eqb p path then Ok content else Raise FileNotFoundError.

Definition no_file : string → result string :=
  fun _ => Raise FileNotFoundError.

Definition parse_sample : string → Tree.Node := fun _ => sample_root.

Definition load_as (doc : Yaml.yaml) : string → result Yaml.yaml :=
  fun _ => Ok doc.

Definition load_fails : string → result Yaml.yaml :=
  fun _ => Raise YAMLError.

(** A method body as it stands in its file, indented by four spaces, with
    a line of eight spaces in it. *)
Definition slice_with_blank : string :=
  "    def m(self):" ++ Py.NL ++
  "        x = 1" ++ Py.NL ++
  "        " ++ Py.NL ++
  "        return x".

(** The same method with an empty line instead. *)
Definition slice_with_empty : string :=
  "    def m(self):" ++ Py.NL ++
  "        x = 1" ++ Py.NL ++
  "" ++ Py.NL ++
  "        return x".

Definition slice_plain : string :=
  "    def m(self):" ++ Py.NL ++
  "        x = 1" ++ Py.NL ++
  "        return x".

(** Two Functions built by hand whose code still has a margin. *)
Definition indented_one : Function :=
  Function_init "a" "  a()" None (Some ["a"]) None None None None None.

Definition indented_two : Function :=
  Function_init "b" "  b()" None (Some ["b"]) None None None None None.

(** Two test cases of one function, as extraction gives them. *)
Definition test_one : Function :=
  Function_init "test_g_one"
    ("def test_g_one():" ++ Py.NL ++ "    assert g(1) == 1")
    None (Some ["g"]) (Some []) None (Some []) (Some 1) (Some 2).

Definition test_two : Function :=
  Function_init "test_g_two"
    ("def test_g_two():" ++ Py.NL ++ "    assert g(h(2)) == 2")
    None (Some ["h"; "g"]) (Some []) None (Some []) (Some 4) (Some 5).

End Samples.

(** ** Further code of the analysis layer and of its callers *)

(** *** Exact outcome of the diff attribution *)

Module Attribution.
Import Diff.

(** [f.start_line <= line <= f.end_line] for a function that has both. *)
Definition in_span_b (line : Z) (f : Function) : bool :=
  match start_line f, end_line f with
  | Some s, Some e => (s <=? line) && (line <=? e)
  | _, _ => false
  end.

(** Position of the first function of the list whose span has the line. *)
Definition first_index (fs : list Function) (line : Z) : option nat :=
  fst <$> list_find (fun f => in_span_b line f = true) fs.

(** The Lines of a list that carry a given number. *)
Definition lines_numbered (ls : list Line) (line : Z) : list Line :=
  filter (fun l => line_num l = line) ls.

(** What one changed line number appends to the added lines, and to the
    removed lines, of the function at position [j]. *)
Definition added_for (a r : list Line) (fs : list Function) (j : nat)
    (line : Z) : list Line :=
  if bool_decide (first_index fs line = Some j ∧ line ∈ (line_num <$> a))
  then lines_numbered a line else [].

Definition removed_for (a r : list Line) (fs : list Function) (j : nat)
    (line : Z) : list Line :=
  if bool_decide (first_index fs line = Some j ∧
                  (line ∉ (line_num <$> a)) ∧ line ∈ (line_num <$> r))
  then lines_numbered r line else [].

(** A function with more Lines at the end of its two lists. *)
Definition with_lines (A R : list Line) (f : Function) : Function :=
  {| func_name := func_name f; func_code := func_code f;
     class_name := class_name f; dependencies := dependencies f;
     imports := imports f; docstring := docstring f; params := params f;
     start_line := start_line f; end_line := end_line f;
     added_lines := added_lines f ++ A;
     removed_lines := removed_lines f ++ R |}.

(** The list of functions after the changed line numbers [lines] have been
    gone through, in that order. *)
Definition attributed (a r : list Line) (lines : list Z)
    (fs : list Function) : list Function :=
  imap (fun j f => with_lines (flat_map (added_for a r fs j) lines)
                              (flat_map (removed_for a r fs j) lines) f) fs.

(** The added Lines, and the removed Lines, that belong to the function
    at position [j], in the order of the diff: an added Line whose number
    has that function as its first spanning function, and such a removed
    Line whose number is not among the added ones. *)
Definition added_of (a : list Line) (fs : list Function) (j : nat)
  : list Line :=
  filter (fun l => first_index fs (line_num l) = Some j) a.

Definition removed_of (a r : list Line) (fs : list Function) (j : nat)
  : list Line :=
  filter (fun l => first_index fs (line_num l) = Some j ∧
                   (line_num l ∉ (line_num <$> a))) r.

(** Two states of the list of functions with the same names and code. *)
Definition same_identity (fs fs' : list Function) : Prop :=
  ∀ j f f', fs !! j = Some f → fs' !! j = Some f' →
            func_name f = func_name f' ∧ func_code f = func_code f'.

(** No two positions of the set hold Functions equal by [__eq__]. *)
Definition distinct_members (fs : list Function) (s : list nat) : Prop :=
  ∀ p q i j f g, (p < q)%nat → s !! p = Some i → s !! q = Some j →
    fs !! i = Some f → fs !! j = Some g → Function_eq f g = false.

(** A Function as [get_dep_func] and [get_fixtures] build it: name and
    code only. *)
Definition bare_function (name code : string) : Function :=
  Function_init name code None None None None None None None.

End Attribution.

(** *** [get_dep_func], declaratively *)

Module Lookup.
Import Tree Extract.

(** The first function definition named [dep] in a list of nodes; a
    definition without a name met before it is an [AttributeError]. *)
Fixpoint first_named (code dep : string) (nodes : list Node)
  : result (option Function) :=
  match nodes with
  | [] => Ok None
  | n :: rest =>
      if is_type "function_definition" n then
        func_name ← name_text n;
        if String.eqb func_name dep then
          dep_code ← _extract_code code n;
          Ok (Some (Function_init func_name dep_code None None None None
                      None None None))
        else first_named code dep rest
      else first_named code dep rest
  end.

(** A statement of a body that [_extract_docstring] passes over: not an
    expression statement, or one that has a first child which is not a
    string. *)
Definition passed_over (body_child : Node) : bool :=
  if is_type "expression_statement" body_child then
    match children body_child with
    | [] => false
    | first :: _ => negb (is_type "string" first)
    end
  else true.

(** No class definition in the subtree. *)
Definition no_class (n : Node) : bool :=
  forallb (fun m => negb (is_type "class_definition" m)) (subtree n).

(** The nested definition of the sample module, as [get_dep_func]
    returns it. *)
Definition inner_function : Function :=
  Attribution.bare_function "inner"
    ("def inner():" ++ Py.NL ++ "    return self.h()").

(** A function whose string statement is not the first of its body:
<<
def f():
    x = 1
    'late'
>> *)
Definition late_code : string :=
  "def f():" ++ Py.NL ++ "    x = 1" ++ Py.NL ++ "    'late'".

Definition late_string : Node :=
  Samples.node "string" None (2, 4)%nat (2, 10)%nat [].

Definition late_block : Node :=
  Samples.node "block" (Some "body") (1, 4)%nat (2, 10)%nat
    [Samples.node "expression_statement" None (1, 4)%nat (1, 9)%nat
       [Samples.node "assignment" None (1, 4)%nat (1, 9)%nat
          [Samples.ident (Some "left") (1, 4)%nat (1, 5)%nat "x";
           Samples.node "integer" (Some "right") (1, 8)%nat (1, 9)%nat []]];
     Samples.node "expression_statement" None (2, 4)%nat (2, 10)%nat
       [late_string]].

Definition late_def : Node :=
  Samples.node "function_definition" None (0, 0)%nat (2, 10)%nat
    [Samples.ident (Some "name") (0, 4)%nat (0, 5)%nat "f";
     Samples.node "parameters" (Some "parameters") (0, 5)%nat (0, 7)%nat [];
     late_block].

(** A module with an import at the top and one inside a function:
<<
import os

def cwd():
    import sys
    return os.getcwd()
>> *)
Definition imports_code : string :=
  "import os" ++ Py.NL ++ "" ++ Py.NL ++ "def cwd():" ++ Py.NL ++
  "    import sys" ++ Py.NL ++ "    return os.getcwd()".

Definition imports_root : Node :=
  Samples.node "module" None (0, 0)%nat (4, 22)%nat
    [Samples.node "import_statement" None (0, 0)%nat (0, 9)%nat
       [Samples.node "dotted_name" (Some "name") (0, 7)%nat (0, 9)%nat
          [Samples.ident None (0, 7)%nat (0, 9)%nat "os"]];
     Samples.node "function_definition" None (2, 0)%nat (4, 22)%nat
       [Samples.ident (Some "name") (2, 4)%nat (2, 7)%nat "cwd";
        Samples.node "parameters" (Some "parameters") (2, 7)%nat (2, 9)%nat
          [];
        Samples.node "block" (Some "body") (3, 4)%nat (4, 22)%nat
          [Samples.node "import_statement" None (3, 4)%nat (3, 14)%nat
             [Samples.node "dotted_name" (Some "name") (3, 11)%nat
                (3, 14)%nat
                [Samples.ident None (3, 11)%nat (3, 14)%nat "sys"]];
           Samples.node "return_statement" None (4, 4)%nat (4, 22)%nat
             [Samples.node "call" None (4, 11)%nat (4, 22)%nat
                [Samples.node "attribute" (Some "function") (4, 11)%nat
                   (4, 20)%nat
                   [Samples.ident (Some "object") (4, 11)%nat (4, 13)%nat
                      "os";
                    Samples.ident (Some "attribute") (4, 14)%nat
                      (4, 20)%nat "getcwd"];
                 Samples.node "argument_list" (Some "arguments")
                   (4, 20)%nat (4, 22)%nat []]]]]].

Definition imports_functions : list Function :=
  match visit_all imports_code imports_root (children imports_root) [] with
  | Ok fs => fs
  | Raise _ => []
  end.

Definition imports_function : Function :=
  default (Samples.sample_function "" 0 0) (imports_functions !! 0%nat).




(** A slice at the left margin with an empty line in it. *)
Definition slice_top_level : string :=
  "def f():" ++ Py.NL ++ "    x = 1" ++ Py.NL ++ "" ++ Py.NL ++
  "    return x".

(** The class of the sample module. *)
Definition class_def : Node :=
  Samples.node "class_definition" None (0, 0)%nat (4, 22)%nat
    [Samples.ident (Some "name") (0, 6)%nat (0, 7)%nat "C";
     Samples.node "block" (Some "body") (1, 4)%nat (4, 22)%nat
       [Samples.method_def]].

End Lookup.

(** *** [UnitTestReviewer]: test cases of a function *)

Module Tests.
Import Tree Extract Provider.

(** The body of the inner loop of [get_test_cases]: the test function goes
    under the name of a dependency that is part of its own name. *)
Definition add_test_case (func : Function)
    (tested_func_dict : gmap string (list Function)) (dependency : string)
  : gmap string (list Function) :=
  if Py.contains dependency (func_name func) then
    match tested_func_dict !! dependency with
    | None => <[dependency := [func]]> tested_func_dict
    | Some l => <[dependency := (l ++ [func])%list]> tested_func_dict
    end
  else tested_func_dict.

Fixpoint group_test_cases (tested_func_list : list Function)
    (tested_func_dict : gmap string (list Function))
  : result (gmap string (list Function)) :=
  match tested_func_list with
  | [] => Ok tested_func_dict
  | func :: rest =>
      match dependencies func with
      | None => Raise TypeError
      | Some deps =>
          group_test_cases rest
            (fold_left (add_test_case func) deps tested_func_dict)
      end
  end.

(** [get_test_cases]: the functions of the test file, grouped; an
    exception is logged and raised again. *)
Definition get_test_cases (open_read : string → result string)
    (parse : string → Node) (test_file : string)
  : result (gmap string (list Function)) :=
  test_context ← build_context open_read parse test_file ∅;
  let tested_func_list := default [] (test_context !! test_file) in
  group_test_cases tested_func_list ∅.

(** The test function is listed under [dependency]. *)
Definition tests (dependency : string) (func : Function) : bool :=
  match dependencies func with
  | Some deps =>
      bool_decide (dependency ∈ deps) &&
      Py.contains dependency (func_name func)
  | None => false
  end.

(** The loop of [review_tested_functions] that folds the test cases of one
    function into the first of them, and collects their names. *)
Fixpoint merge_rest (merged_func : Function) (rest : list Function)
    (test_cases : list string) : result (Function * list string) :=
  match rest with
  | [] => Ok (merged_func, test_cases)
  | tested_func :: rest' =>
      merged ← mergeFunctions merged_func tested_func;
      merge_rest merged rest' (test_cases ++ [func_name tested_func])%list
  end.

Definition merge_test_cases (test_cases_list : list Function)
  : result (option (Function * list string)) :=
  match test_cases_list with
  | [] => Ok None
  | merged_func :: rest =>
      r ← merge_rest merged_func rest [func_name merged_func];
      Ok (Some r)
  end.

(** Texts with one empty line between them. *)
Fixpoint join_blank (codes : list string) : string :=
  match codes with
  | [] => ""
  | c :: rest =>
      match rest with
      | [] => c
      | _ :: _ => c ++ String Py.nl (String Py.nl (join_blank rest))
      end
  end.

(** The dependencies of a Function, as a set. *)
Definition deps_set (f : Function) : gset string :=
  list_to_set (default [] (dependencies f)).

(** The list kept under a key after more functions have been put there. *)
Definition grown (o : option (list Function)) (fl : list Function)
  : option (list Function) :=
  match o, fl with
  | None, [] => None
  | _, _ => Some (default [] o ++ fl)%list
  end.

(** [Function.__eq__] against a string: the name is compared. *)
Definition Function_eq_str (f : Function) (other : string) : bool :=
  String.eqb other (func_name f).

(** The inner loop of [get_relevant_fixture]: the first fixture equal to
    the parameter, then [break]. *)
Fixpoint first_fixture (fixture_param : string) (all_fixtures : list Function)
  : list Function :=
  match all_fixtures with
  | [] => []
  | fixture :: rest =>
      if Function_eq_str fixture fixture_param then [fixture]
      else first_fixture fixture_param rest
  end.

(** [get_relevant_fixture]: a test function without a parameter list
    cannot be iterated, the exception is logged and [[]] returned. *)
Definition get_relevant_fixture (test_func : Function)
    (all_fixtures : list Function) : list Function :=
  match params test_func with
  | None => []
  | Some fixtures_params =>
      flat_map (fun fixture_param => first_fixture fixture_param all_fixtures)
               fixtures_params
  end.

(** Position [i] holds the first fixture named [p]. *)
Definition first_fixture_at (all_fixtures : list Function) (p : string)
    (i : nat) (fx : Function) : Prop :=
  all_fixtures !! i = Some fx ∧ func_name fx = p ∧
  ∀ j g, (j < i)%nat → all_fixtures !! j = Some g → func_name g ≠ p.

(** A test file with two tests of [add] and one test that calls a
    helper whose name is not part of its own:
<<
def test_add():
    assert add(1, 2) == 3

def test_add_zero():
    return add(0, 0)

def test_other():
    helper()
>> *)
Definition tests_code : string :=
  "def test_add():" ++ Py.NL ++ "    assert add(1, 2) == 3" ++ Py.NL ++
  "" ++ Py.NL ++
  "def test_add_zero():" ++ Py.NL ++ "    return add(0, 0)" ++ Py.NL ++
  "" ++ Py.NL ++
  "def test_other():" ++ Py.NL ++ "    helper()".

Definition call_of (name : string) (row col len : nat) : Node :=
  Samples.node "call" None (row, col)%nat (row, col + len)%nat
    [Samples.ident (Some "function") (row, col)%nat
       (row, col + String.length name)%nat name;
     Samples.node "argument_list" (Some "arguments")
       (row, col + String.length name)%nat (row, col + len)%nat []].

Definition tests_root : Node :=
  Samples.node "module" None (0, 0)%nat (7, 12)%nat
    [Samples.node "function_definition" None (0, 0)%nat (1, 25)%nat
       [Samples.ident (Some "name") (0, 4)%nat (0, 12)%nat "test_add";
        Samples.node "parameters" (Some "parameters") (0, 12)%nat
          (0, 14)%nat [];
        Samples.node "block" (Some "body") (1, 4)%nat (1, 25)%nat
          [Samples.node "assert_statement" None (1, 4)%nat (1, 25)%nat
             [Samples.node "comparison_operator" None (1, 11)%nat
                (1, 25)%nat
                [call_of "add" 1 11 9;
                 Samples.node "integer" None (1, 24)%nat (1, 25)%nat []]]]];
     Samples.node "function_definition" None (3, 0)%nat (4, 20)%nat
       [Samples.ident (Some "name") (3, 4)%nat (3, 17)%nat "test_add_zero";
        Samples.node "parameters" (Some "parameters") (3, 17)%nat
          (3, 19)%nat [];
        Samples.node "block" (Some "body") (4, 4)%nat (4, 20)%nat
          [Samples.node "return_statement" None (4, 4)%nat (4, 20)%nat
             [call_of "add" 4 11 9]]];
     Samples.node "function_definition" None (6, 0)%nat (7, 12)%nat
       [Samples.ident (Some "name") (6, 4)%nat (6, 14)%nat "test_other";
        Samples.node "parameters" (Some "parameters") (6, 14)%nat
          (6, 16)%nat [];
        Samples.node "block" (Some "body") (7, 4)%nat (7, 12)%nat
          [Samples.node "expression_statement" None (7, 4)%nat (7, 12)%nat
             [call_of "helper" 7 4 8]]]].

Definition tests_functions : list Function :=
  match visit_all tests_code tests_root (children tests_root) [] with
  | Ok fs => fs
  | Raise _ => []
  end.

(** A test function with two parameters, and three fixtures. *)
Definition param_test : Function :=
  Function_init "test_f" "def test_f(db, tmp): pass" None (Some [])
    (Some []) None (Some ["db"; "tmp"]) (Some 1) (Some 1).

Definition sample_fixtures : list Function :=
  [Attribution.bare_function "cfg" "def cfg(): pass";
   Attribution.bare_function "db" "def db(): return 1";
   Attribution.bare_function "db" "def db(): return 2"].

(** The loop body of [get_modified_functions] for one file: its functions
    are extracted, then the diff is attributed to them. *)
Definition attribute_file (open_read : string → result string)
    (parse : string → Node) (temp_path : string)
    (added_lines removed_lines : list Line) : result Diff.state :=
  functions_in_file ← get_functions_in_file open_read parse temp_path;
  Diff.analyse_diff added_lines removed_lines functions_in_file.

End Tests.

(** *** Configuration files *)

Module Config.
Import Yaml.

Section config.
Variable open_read : string → result string.
Variable safe_load : string → result yaml.

(** [parse_yaml_file]: a missing file and a text that is not YAML give
    [{}], and so does a document that is empty or false; any other
    exception of the loader or of the file system goes on. *)
Definition parse_yaml_file (codebase_path : string) : result yaml :=
  match open_read codebase_path with
  | Raise FileNotFoundError => Ok (YDict [])
  | Raise e => Raise e
  | Ok code =>
      match safe_load code with
      | Ok data => Ok (if truthy data then data else YDict [])
      | Raise YAMLError => Ok (YDict [])
      | Raise e => Raise e
      end
  end.

(** [yml_dict.get(key, default)]; only a dict has [get]. *)
Definition get_default (yml_dict : yaml) (key : string) (dflt : yaml)
  : result yaml :=
  match yml_dict with
  | YDict items => Ok (default dflt (dict_get items (SStr key)))
  | _ => Raise AttributeError
  end.

(** [x if isinstance(x, bool) else False] *)
Definition as_flag (x : yaml) : bool :=
  match x with
  | YScalar (SBool b) => b
  | _ => false
  end.

(** [process_config_file], from the configuration file already fetched to
    [local_config_file]: language, test folder, the two flags, doc
    folder. An exception is logged and raised again. *)
Definition process_config_file (local_config_file : string)
  : result (yaml * yaml * bool * bool * yaml) :=
  yml_dict ← parse_yaml_file local_config_file;
  language ← get_default yml_dict "language" (YScalar (SStr ""));
  test_folder ← get_default yml_dict "test_folder" (YScalar (SStr ""));
  indexing ← get_default yml_dict "indexing" (YScalar (SBool false));
  deadcode ← get_default yml_dict "deadcode" (YScalar (SBool false));
  doc_folder ← get_default yml_dict "doc_folder" (YScalar (SStr ""));
  Ok (language, test_folder, as_flag indexing, as_flag deadcode, doc_folder).

End config.

(** The mappings the descent of [called_visit] reaches: the items of a
    list, and the values of a dict other than a list kept under the key
    [pipelines]. *)
Inductive called_reached : yaml → yaml → Prop :=
| called_here d : called_reached d d
| called_item items item d :
    item ∈ items → called_reached item d → called_reached (YList items) d
| called_value items key value d :
    (key, value) ∈ items →
    (∀ l, value = YList l → key ≠ SStr "pipelines") →
    called_reached value d → called_reached (YDict items) d.

(** [x] is a string item of a list kept under the key [pipelines] in the
    mapping [d]. *)
Definition pipeline_call (d : yaml) (x : string) : Prop :=
  ∃ items l, d = YDict items ∧ (SStr "pipelines", YList l) ∈ items ∧
             YScalar (SStr x) ∈ l.

(** A node entry that [get_defined_nodes] can read: a mapping with the
    keys [func] and [inputs]. *)
Definition node_entry_ok (values : yaml) : bool :=
  match values with
  | YDict items =>
      match dict_get items (SStr "func"), dict_get items (SStr "inputs") with
      | Some _, Some _ => true
      | _, _ => false
      end
  | _ => false
  end.

(** What one entry [(k, v)] of a mapping gives to the called pipelines. *)
Definition entry_called (k : scalar) (v : yaml) (x : string) : Prop :=
  match v with
  | YList l =>
      if bool_decide (k = SStr "pipelines") then YScalar (SStr x) ∈ l
      else ∃ m, called_reached v m ∧ pipeline_call m x
  | _ => ∃ m, called_reached v m ∧ pipeline_call m x
  end.

(** [set(nodes)] raises for this value of a [nodes] key. *)
Definition not_a_set (nodes : yaml) : Prop := ∃ e, set_of nodes = Raise e.

(** Sample documents: calls of pipelines, node entries, a pipeline whose
    [nodes] is a number, and a configuration. *)
Definition calls_doc : yaml :=
  YDict
    [(SStr "run",
      YDict [(SStr "pipelines",
              YList [Samples.str "p1"; YScalar (SInt 3); Samples.str "p2"])]);
     (SStr "pipelines", Samples.str "p9")].

Definition nodes_doc : yaml :=
  YDict
    [(SStr "n1",
      YDict [(SStr "func", Samples.str "f");
             (SStr "inputs", YList [Samples.str "a"])]);
     (SStr "n2",
      YDict [(SStr "func", Samples.str "g");
             (SStr "inputs", YList [])])].

Definition bad_nodes_doc : yaml :=
  YDict
    [(SStr "n1",
      YDict [(SStr "func", Samples.str "f");
             (SStr "inputs", YList [Samples.str "a"])]);
     (SStr "n2", YDict [(SStr "func", Samples.str "g")])].

Definition bad_pipeline_doc : yaml :=
  YDict
    [(SStr "p1", YDict [(SStr "nodes", YList [Samples.str "n1"])]);
     (SStr "p2", YDict [(SStr "nodes", YScalar (SInt 5))])].

Definition config_items : list (scalar * yaml) :=
  [(SStr "language", Samples.str "python");
   (SStr "indexing", YScalar (SBool true));
   (SStr "deadcode", Samples.str "true")].

End Config.

(** * Facts about exceptions *)

Module ResultFacts.

Lemma bind_Ok {A B} (r : result A) (k : A → result B) y :
  r ≫= k = Ok y → ∃ x, r = Ok x ∧ k x = Ok y.
Proof. destruct r; cbn; [eauto|done]. Qed.

Lemma mapM_res_Ok {A B} (f : A → result B) l ys :
  mapM_res f l = Ok ys → Forall2 (λ x y, f x = Ok y) l ys.
Proof.
  revert ys. induction l as [|a l IH]; intros ys; cbn.
  - intros [= <-]. constructor.
  - intros (b & Hb & (bs & Hbs & [= <-])%bind_Ok)%bind_Ok.
    constructor; auto.
Qed.

(** A loop whose state is an exception stays there. *)
Lemma fold_bind_Raise {A C} (g : C → A → result A) cs e :
  fold_left (λ r c, r ≫= g c) cs (Raise e) = Raise e.
Proof. induction cs; cbn; auto. Qed.

Lemma try_except_Ok {A} (body : result A) dflt :
  ∃ v, try_except body dflt = Ok v.
Proof. destruct body; cbn; eauto. Qed.

End ResultFacts.

(** * Facts about the string primitives *)

Module PyFacts.
Import Py.

Lemma split_nl_String c s :
  split_nl (String c s) =
  if Ascii.eqb c nl then "" :: split_nl s
  else match split_nl s with
       | [] => [String c ""]
       | l :: ls => String c l :: ls
       end.
Proof. reflexivity. Qed.

Lemma app_str_cons c a b : String c a ++ b = String c (a ++ b).
Proof. reflexivity. Qed.

Lemma app_str_nil_l b : "" ++ b = b.
Proof. reflexivity. Qed.

Lemma split_nl_cons s : ∃ l ls, split_nl s = l :: ls.
Proof.
  destruct s as [|c s]; cbn; [by eauto|].
  destruct (Ascii.eqb c nl); [by eauto|].
  destruct (split_nl s); eauto.
Qed.

Lemma split_nl_no_newline s : Forall (λ l, no_newline l = true) (split_nl s).
Proof.
  induction s as [|c s IH]; cbn; [by repeat constructor|].
  destruct (Ascii.eqb c nl) eqn:Hc.
  - by constructor.
  - destruct (split_nl s) as [|l ls]; [by repeat constructor; cbn; rewrite Hc|].
    inversion IH; subst. constructor; [|done]. cbn. by rewrite Hc.
Qed.

Lemma join_nl_cons l l' ls :
  join_nl (l :: l' :: ls) = l ++ String nl (join_nl (l' :: ls)).
Proof. reflexivity. Qed.

(** Splitting at the newlines and joining again gives the text back. *)
Lemma join_split s : join_nl (split_nl s) = s.
Proof.
  induction s as [|c s IH]; [done|]. cbn [split_nl].
  destruct (Ascii.eqb_spec c nl) as [->|Hc].
  - destruct (split_nl_cons s) as (l & ls & Hs). rewrite Hs in *.
    rewrite join_nl_cons, IH. done.
  - destruct (split_nl_cons s) as (l & ls & Hs). rewrite Hs in *.
    destruct ls as [|l' ls].
    + cbn in *. by rewrite IH.
    + rewrite <- IH. by rewrite !join_nl_cons.
Qed.

Lemma split_nl_line l : no_newline l = true → split_nl l = [l].
Proof.
  induction l as [|c l IH]; cbn; [done|].
  destruct (Ascii.eqb c nl); cbn; [done|]. intros H. by rewrite IH.
Qed.

Lemma split_nl_app_nl l s :
  no_newline l = true → split_nl (l ++ String nl s) = l :: split_nl s.
Proof.
  induction l as [|c l IH]; cbn [no_newline].
  - by rewrite app_str_nil_l, split_nl_String, Ascii.eqb_refl.
  - rewrite app_str_cons, split_nl_String.
    destruct (Ascii.eqb c nl); cbn; [done|]. intros H. by rewrite IH.
Qed.

(** Joining lines that have no newline and splitting again gives the lines
    back. *)
Lemma split_join ls :
  ls ≠ [] → Forall (λ l, no_newline l = true) ls →
  split_nl (join_nl ls) = ls.
Proof.
  induction ls as [|l ls IH]; [done|]. intros _ Hall.
  inversion Hall as [|? ? Hl Hls]; subst.
  destruct ls as [|l' ls].
  - cbn. by apply split_nl_line.
  - rewrite join_nl_cons, split_nl_app_nl by done. f_equal. by apply IH.
Qed.

Lemma split_nl_app a b :
  split_nl (a ++ String nl b) = (split_nl a ++ split_nl b)%list.
Proof.
  induction a as [|c a IH].
  - by rewrite app_str_nil_l, split_nl_String, Ascii.eqb_refl.
  - rewrite app_str_cons, !split_nl_String, IH.
    destruct (Ascii.eqb c nl); [done|].
    destruct (split_nl_cons a) as (l & ls & ->). done.
Qed.

Lemma is_linebreak_nl c : is_linebreak c = false → Ascii.eqb c nl = false.
Proof.
  intros H. destruct (Ascii.eqb_spec c nl) as [->|]; [|done].
  by vm_compute in H.
Qed.

(** No line of [splitlines] has a newline. *)
Lemma splitlines_no_newline s :
  Forall (λ l, no_newline l = true) (splitlines s).
Proof.
  assert (∀ n s, (String.length s < n)%nat →
            Forall (λ l, no_newline l = true) (splitlines s)) as H.
  { clear. induction n as [|n IH]; intros s Hn; [lia|].
    destruct s as [|c s]; cbn; [constructor|].
    cbn in Hn. destruct (is_linebreak c) eqn:Hc.
    - destruct s as [|d s]; [by repeat constructor|].
      cbn in Hn.
      destruct (Ascii.eqb c cr && Ascii.eqb d nl);
        (constructor; [done|]); apply IH; cbn; lia.
    - apply is_linebreak_nl in Hc.
      assert (Forall (λ l, no_newline l = true) (splitlines s)) as Hs
        by (apply IH; lia).
      destruct (splitlines s) as [|l ls].
      + repeat constructor. cbn. by rewrite Hc.
      + inversion Hs; subst. constructor; [|done]. cbn. by rewrite Hc. }
  apply (H (S (String.length s))). lia.
Qed.

Lemma length_app_str a b :
  String.length (a ++ b) = (String.length a + String.length b)%nat.
Proof.
  induction a as [|c a IH]; [done|]. rewrite app_str_cons. cbn. by rewrite IH.
Qed.

Lemma app_str_nil a : a ++ "" = a.
Proof. induction a as [|c a IH]; [done|]. by rewrite app_str_cons, IH. Qed.

Lemma app_str_assoc a b c : (a ++ b) ++ c = a ++ (b ++ c).
Proof. induction a as [|x a IH]; [done|]. by rewrite !app_str_cons, IH. Qed.

(** *** Prefixes *)

Lemma startswith_nil s : startswith s "" = true.
Proof. by destruct s. Qed.

Lemma startswith_refl s : startswith s s = true.
Proof. induction s; cbn; [done|]. by rewrite Ascii.eqb_refl. Qed.

Lemma startswith_cons_inv c s d p :
  startswith (String c s) (String d p) = true ↔ d = c ∧ startswith s p = true.
Proof.
  cbn. rewrite andb_true_iff. destruct (Ascii.eqb_spec d c); naive_solver.
Qed.

Lemma startswith_trans s p q :
  startswith s p = true → startswith p q = true → startswith s q = true.
Proof.
  revert s p. induction q as [|c q IH]; intros s p Hsp Hpq.
  - apply startswith_nil.
  - destruct p as [|d p]; [done|]. destruct s as [|e s]; [done|].
    apply startswith_cons_inv in Hsp as [-> Hsp].
    apply startswith_cons_inv in Hpq as [-> Hpq].
    apply startswith_cons_inv. split; [done|]. by eapply IH.
Qed.

Lemma startswith_app p s : startswith (p ++ s) p = true.
Proof.
  induction p as [|c p IH]; [by destruct s|].
  rewrite app_str_cons. cbn. by rewrite Ascii.eqb_refl.
Qed.

Lemma startswith_split s p :
  startswith s p = true → p ++ drop_str (String.length p) s = s.
Proof.
  revert s. induction p as [|c p IH]; intros s H; [done|].
  destruct s as [|d s]; [done|].
  apply startswith_cons_inv in H as [-> H].
  rewrite app_str_cons. cbn. by rewrite IH.
Qed.

Lemma startswith_length s p :
  startswith s p = true → (String.length p ≤ String.length s)%nat.
Proof.
  intros H. rewrite <- (startswith_split s p H), length_app_str. lia.
Qed.

Lemma startswith_antisym s p :
  startswith s p = true → startswith p s = true → s = p.
Proof.
  revert p. induction s as [|c s IH]; intros [|d p] H1 H2; try done.
  apply startswith_cons_inv in H1 as [-> H1].
  apply startswith_cons_inv in H2 as [_ H2]. f_equal. by apply IH.
Qed.

Lemma startswith_app_inv p a b :
  startswith (p ++ a) (p ++ b) = true → startswith a b = true.
Proof.
  induction p as [|c p IH]; [done|]. rewrite !app_str_cons. cbn.
  rewrite Ascii.eqb_refl. done.
Qed.

Lemma startswith_app_mono p a b :
  startswith a b = true → startswith (p ++ a) (p ++ b) = true.
Proof.
  intros H. induction p as [|c p IH]; [done|]. rewrite !app_str_cons. cbn.
  by rewrite Ascii.eqb_refl.
Qed.

Lemma drop_str_app p s : drop_str (String.length p) (p ++ s) = s.
Proof. induction p as [|c p IH]; [done|]. by rewrite app_str_cons. Qed.

Lemma no_newline_drop n s : no_newline s = true → no_newline (drop_str n s) = true.
Proof.
  revert s. induction n as [|n IH]; intros s H; [done|].
  destruct s as [|c s]; [done|]. cbn in *.
  apply andb_true_iff in H as [_ H]. by apply IH.
Qed.

Lemma no_newline_app a b :
  no_newline (a ++ b) = no_newline a && no_newline b.
Proof.
  induction a as [|c a IH]; [done|]. rewrite app_str_cons. cbn.
  rewrite IH. by rewrite andb_assoc.
Qed.

(** *** The margin of [dedent] *)

Lemma cut_prefix_left m i : startswith m (cut_at_mismatch m i) = true.
Proof.
  revert i. induction m as [|x m IH]; intros i; [done|].
  destruct i as [|y i]; cbn [cut_at_mismatch]; [apply startswith_refl|].
  destruct (Ascii.eqb_spec x y) as [->|]; [|done].
  apply startswith_cons_inv. auto.
Qed.

Lemma cut_prefix_right m i :
  startswith m i = false → startswith i (cut_at_mismatch m i) = true.
Proof.
  revert i. induction m as [|x m IH]; intros i H.
  - by destruct i.
  - destruct i as [|y i]; [done|]. cbn [cut_at_mismatch].
    destruct (Ascii.eqb_spec x y) as [->|]; [|done].
    apply startswith_cons_inv. split; [done|]. apply IH.
    cbn in H. by rewrite Ascii.eqb_refl in H.
Qed.

Lemma cut_lower m i p :
  startswith m p = true → startswith i p = true →
  startswith (cut_at_mismatch m i) p = true.
Proof.
  revert m i. induction p as [|c p IH]; intros m i Hm Hi.
  - apply startswith_nil.
  - destruct m as [|x m]; [done|]. destruct i as [|y i]; [done|].
    apply startswith_cons_inv in Hm as [-> Hm].
    apply startswith_cons_inv in Hi as [-> Hi].
    cbn [cut_at_mismatch]. rewrite Ascii.eqb_refl.
    apply startswith_cons_inv. auto.
Qed.

Lemma margin_step_upper m i :
  ∃ m', margin_step (Some m) i = Some m' ∧
        startswith m m' = true ∧ startswith i m' = true.
Proof.
  unfold margin_step. destruct (startswith i m) eqn:H1.
  - exists m. by rewrite startswith_refl.
  - destruct (startswith m i) eqn:H2.
    + exists i. by rewrite startswith_refl.
    + exists (cut_at_mismatch m i).
      by rewrite cut_prefix_left, cut_prefix_right.
Qed.

Lemma margin_step_lower m i m' p :
  margin_step (Some m) i = Some m' →
  startswith m p = true → startswith i p = true → startswith m' p = true.
Proof.
  unfold margin_step. intros H Hm Hi.
  destruct (startswith i m); [by simplify_eq|].
  destruct (startswith m i); simplify_eq; [done|]. by apply cut_lower.
Qed.

(** The margin is a prefix of every indentation ... *)
Lemma margin_fold_upper I m :
  ∃ m', fold_left margin_step I (Some m) = Some m' ∧
        startswith m m' = true ∧ ∀ i, i ∈ I → startswith i m' = true.
Proof.
  revert m. induction I as [|i I IH]; intros m; cbn [fold_left].
  - exists m. rewrite startswith_refl. split_and!; try done.
    intros i Hi. by apply elem_of_nil in Hi.
  - destruct (margin_step_upper m i) as (m1 & -> & Hm1 & Hi1).
    destruct (IH m1) as (m' & Hm' & Hm1' & HI).
    exists m'. split_and!; [done|by eapply startswith_trans|].
    intros j [->|Hj]%elem_of_cons; [by eapply startswith_trans|auto].
Qed.

(** ... and the longest one. *)
Lemma margin_fold_lower I m m' p :
  fold_left margin_step I (Some m) = Some m' →
  startswith m p = true → (∀ i, i ∈ I → startswith i p = true) →
  startswith m' p = true.
Proof.
  revert m. induction I as [|i I IH]; intros m; cbn [fold_left].
  - intros. by simplify_eq.
  - destruct (margin_step_upper m i) as (m1 & Hm1 & _ & _). rewrite Hm1.
    intros Hfold Hm HI. eapply IH; [done| |].
    + eapply margin_step_lower; [done..|]. apply HI. by left.
    + intros j Hj. apply HI. by right.
Qed.

Lemma margin_fold_empty I :
  fold_left margin_step I (Some "") = Some "".
Proof.
  destruct (margin_fold_upper I "") as (m' & -> & H & _).
  by destruct m'.
Qed.

(** *** Lines of spaces and tabs *)

Lemma all_space_tab_app a b :
  all_space_tab (a ++ b) = all_space_tab a && all_space_tab b.
Proof.
  induction a as [|c a IH]; [done|]. rewrite app_str_cons. cbn.
  rewrite IH. by rewrite andb_assoc.
Qed.

Lemma leading_ws_all l : all_space_tab (leading_ws l) = true.
Proof.
  induction l as [|c l IH]; [done|]. cbn.
  destruct (is_space_tab c) eqn:Hc; [|done]. cbn. by rewrite Hc.
Qed.

Lemma leading_ws_prefix l : startswith l (leading_ws l) = true.
Proof.
  induction l as [|c l IH]; [done|]. cbn [leading_ws].
  destruct (is_space_tab c); [|done]. apply startswith_cons_inv. auto.
Qed.

Lemma all_space_tab_prefix s p :
  startswith s p = true → all_space_tab s = true → all_space_tab p = true.
Proof.
  intros H. rewrite <- (startswith_split s p H), all_space_tab_app.
  by intros [? _]%andb_true_iff.
Qed.

Lemma leading_ws_drop m l :
  startswith (leading_ws l) m = true →
  leading_ws (drop_str (String.length m) l) =
  drop_str (String.length m) (leading_ws l).
Proof.
  revert l. induction m as [|c m IH]; intros l H; [done|].
  destruct l as [|d l]; [done|]. cbn [leading_ws] in *.
  destruct (is_space_tab d); [|done].
  apply startswith_cons_inv in H as [-> H]. cbn. by apply IH.
Qed.

Lemma indent_of_blank_out l : indent_of (blank_out l) = indent_of l.
Proof.
  unfold indent_of, blank_out. by destruct (all_space_tab l) eqn:H; [|rewrite H].
Qed.

Lemma indents_blank_out (L : list string) :
  omap indent_of (map blank_out L) = omap indent_of L.
Proof.
  induction L as [|l L IH]; [done|]. cbn.
  by rewrite indent_of_blank_out, IH.
Qed.

Lemma elem_of_indents i (L : list string) :
  i ∈ omap indent_of L ↔
  ∃ l, l ∈ L ∧ all_space_tab l = false ∧ i = leading_ws l.
Proof.
  rewrite list_elem_of_omap. unfold indent_of. split.
  - intros (l & Hl & H). exists l. destruct (all_space_tab l); naive_solver.
  - intros (l & Hl & H & ->). exists l. by rewrite H.
Qed.

(** The margin [dedent] computes is a prefix of every line that is not
    blank. *)
Lemma margin_of_prefix text l :
  l ∈ split_nl text → all_space_tab l = false →
  startswith (leading_ws l) (margin_of text) = true.
Proof.
  intros Hl Hnb. unfold margin_of. rewrite indents_blank_out.
  destruct (omap indent_of (split_nl text)) as [|i0 I] eqn:HI.
  { apply startswith_nil. }
  cbn [fold_left margin_step].
  destruct (margin_fold_upper I i0) as (m & -> & H0 & Hall).
  assert (leading_ws l ∈ i0 :: I) as Hin.
  { rewrite <- HI. apply elem_of_indents. eauto. }
  apply elem_of_cons in Hin as [->|Hin]; auto.
Qed.

(** *** [dedent], line by line *)

Lemma remove_margin_nil l : remove_margin "" l = l.
Proof. unfold remove_margin. by rewrite startswith_nil. Qed.

Lemma dedent_eq text :
  dedent text =
  join_nl (map (λ l, remove_margin (margin_of text) (blank_out l))
               (split_nl text)).
Proof.
  unfold dedent. cbn zeta. destruct (margin_of text) as [|c m].
  - f_equal. apply map_ext. intros l. by rewrite remove_margin_nil.
  - by rewrite map_map.
Qed.

Lemma dedent_line_blank m l :
  all_space_tab l = true → remove_margin m (blank_out l) = "".
Proof.
  intros H. unfold blank_out, remove_margin. rewrite H.
  destruct (startswith "" m); [|done]. by destruct m.
Qed.

Lemma dedent_line_nonblank text l :
  l ∈ split_nl text → all_space_tab l = false →
  remove_margin (margin_of text) (blank_out l) =
    drop_str (String.length (margin_of text)) l ∧
  margin_of text ++ drop_str (String.length (margin_of text)) l = l.
Proof.
  intros Hl Hnb. unfold blank_out, remove_margin. rewrite Hnb.
  assert (startswith l (margin_of text) = true) as Hp.
  { eapply startswith_trans; [apply leading_ws_prefix|].
    by apply margin_of_prefix. }
  rewrite Hp. split; [done|]. by apply startswith_split.
Qed.

Lemma dedent_line_no_newline m l :
  no_newline l = true → no_newline (remove_margin m (blank_out l)) = true.
Proof.
  intros H. unfold remove_margin, blank_out.
  destruct (all_space_tab l).
  - destruct (startswith "" m); [|done]. by destruct (String.length m).
  - destruct (startswith l m); [|done]. by apply no_newline_drop.
Qed.

(** [dedent] works on each line and keeps the lines apart. *)
Lemma split_dedent text :
  split_nl (dedent text) =
  map (λ l, remove_margin (margin_of text) (blank_out l)) (split_nl text).
Proof.
  rewrite dedent_eq. apply split_join.
  - destruct (split_nl_cons text) as (l & ls & ->). done.
  - apply Forall_map. eapply Forall_impl; [apply split_nl_no_newline|].
    intros l Hl. cbn. by apply dedent_line_no_newline.
Qed.

Lemma dedent_line_count text : line_count (dedent text) = line_count text.
Proof. unfold line_count. by rewrite split_dedent, length_map. Qed.

(** De-indenting and putting the margin back before every line: a line
    that is not blank comes back as it was, a line of spaces and tabs (or
    an empty one) comes back as the margin alone. *)
Lemma indent_dedent text :
  indent_all (margin_of text) (dedent text) =
  join_nl (map (λ l, if all_space_tab l then margin_of text else l)
               (split_nl text)).
Proof.
  unfold indent_all. rewrite split_dedent, map_map. f_equal.
  apply map_ext_in. intros l Hl%list_elem_of_In.
  destruct (all_space_tab l) eqn:Hb.
  - by rewrite dedent_line_blank, app_str_nil.
  - destruct (dedent_line_nonblank text l Hl Hb) as [-> ->]. done.
Qed.

(** *** De-indented text *)

Lemma startswith_app_self m m' : startswith m (m ++ m') = true → m' = "".
Proof.
  intros H. rewrite <- (app_str_nil m) in H at 1.
  apply startswith_app_inv in H. by destruct m'.
Qed.

Lemma margin_of_fold text :
  margin_of text =
  match fold_left margin_step (omap indent_of (split_nl text)) None with
  | Some m => m
  | None => ""
  end.
Proof. unfold margin_of. by rewrite indents_blank_out. Qed.

Lemma indent_of_dedent_line text l :
  l ∈ split_nl text →
  indent_of (remove_margin (margin_of text) (blank_out l)) =
  drop_str (String.length (margin_of text)) <$> indent_of l.
Proof.
  intros Hl. destruct (all_space_tab l) eqn:Hb.
  - rewrite dedent_line_blank by done. unfold indent_of. by rewrite Hb.
  - destruct (dedent_line_nonblank text l Hl Hb) as [-> Hsplit].
    pose proof (margin_of_prefix text l Hl Hb) as Hp.
    unfold indent_of. rewrite Hb.
    assert (all_space_tab (drop_str (String.length (margin_of text)) l)
            = false) as ->.
    { rewrite <- Hsplit, all_space_tab_app in Hb.
      rewrite (all_space_tab_prefix _ _ Hp (leading_ws_all l)) in Hb.
      done. }
    cbn. by rewrite leading_ws_drop.
Qed.

Lemma indents_dedent text (L : list string) :
  (∀ l, l ∈ L → l ∈ split_nl text) →
  omap indent_of
    (map (λ l, remove_margin (margin_of text) (blank_out l)) L) =
  map (drop_str (String.length (margin_of text))) (omap indent_of L).
Proof.
  induction L as [|l L IH]; intros HL; [done|].
  cbn [map omap list_omap].
  rewrite indent_of_dedent_line by (apply HL; by left).
  change (omap indent_of ?x) with (omap indent_of x) in IH.
  destruct (indent_of l); cbn; [f_equal|]; apply IH; intros; apply HL; by right.
Qed.

(** No margin is left after [dedent]. *)
Lemma margin_of_dedent text : margin_of (dedent text) = "".
Proof.
  rewrite (margin_of_fold (dedent text)), split_dedent.
  rewrite indents_dedent by done.
  pose proof (margin_of_fold text) as Hm.
  destruct (omap indent_of (split_nl text)) as [|i0 I] eqn:HI; [done|].
  cbn [map fold_left margin_step] in *.
  destruct (margin_fold_upper I i0) as (m & Hfold & Hm0 & HmI).
  rewrite Hfold in Hm. rewrite Hm.
  destruct (margin_fold_upper (map (drop_str (String.length m)) I)
              (drop_str (String.length m) i0)) as (m' & -> & Hm0' & HmI').
  apply (startswith_app_self m).
  eapply margin_fold_lower; [exact Hfold| |].
  - rewrite <- (startswith_split i0 m Hm0). by apply startswith_app_mono.
  - intros i Hi. rewrite <- (startswith_split i m (HmI i Hi)).
    apply startswith_app_mono, HmI'.
    apply list_elem_of_In, in_map, list_elem_of_In, Hi.
Qed.

Lemma dedent_no_blank text l :
  l ∈ split_nl (dedent text) → all_space_tab l = true → l = "".
Proof.
  rewrite split_dedent. intros Hl%list_elem_of_In.
  apply in_map_iff in Hl as (l0 & <- & Hl0%list_elem_of_In).
  destruct (all_space_tab l0) eqn:Hb; [by rewrite dedent_line_blank|].
  destruct (dedent_line_nonblank text l0 Hl0 Hb) as [-> Hsplit].
  intros Hd. pose proof (margin_of_prefix text l0 Hl0 Hb) as Hp.
  rewrite <- Hsplit, all_space_tab_app, Hd in Hb.
  rewrite (all_space_tab_prefix _ _ Hp (leading_ws_all l0)) in Hb. done.
Qed.

Lemma is_dedented_iff t :
  is_dedented t = true ↔
  (∀ l, l ∈ split_nl t → all_space_tab l = true → l = "") ∧
  margin_of t = "".
Proof.
  unfold is_dedented.
  rewrite andb_true_iff, forallb_forall, String.eqb_eq.
  split; intros [H1 H2]; (split; [|done]).
  - intros l Hl%list_elem_of_In Hb. specialize (H1 l Hl).
    rewrite Hb in H1. by apply String.eqb_eq.
  - intros l Hl%list_elem_of_In. destruct (all_space_tab l) eqn:Hb; [|done].
    cbn. apply String.eqb_eq. auto.
Qed.

(** What [dedent] returns is de-indented ... *)
Lemma dedent_is_dedented s : is_dedented (dedent s) = true.
Proof.
  apply is_dedented_iff. split.
  - apply dedent_no_blank.
  - apply margin_of_dedent.
Qed.

(** ... and [dedent] leaves de-indented text as it is. *)
Lemma dedented_fix t : is_dedented t = true → dedent t = t.
Proof.
  intros [Hb Hm]%is_dedented_iff. rewrite dedent_eq, Hm.
  rewrite <- (join_split t) at 2. f_equal.
  rewrite <- (map_id (split_nl t)) at 2.
  apply map_ext_in. intros l Hl%list_elem_of_In.
  rewrite remove_margin_nil. unfold blank_out.
  destruct (all_space_tab l) eqn:Hl'; [|done]. symmetry. auto.
Qed.

Lemma margin_of_nil_iff t :
  margin_of t = "" ↔
  fold_left margin_step (omap indent_of (split_nl t)) None = None ∨
  fold_left margin_step (omap indent_of (split_nl t)) None = Some "".
Proof.
  rewrite margin_of_fold.
  destruct (fold_left margin_step _ None); naive_solver.
Qed.

(** Two de-indented texts with an empty line between them are a
    de-indented text. *)
Lemma dedented_join a b :
  is_dedented a = true → is_dedented b = true →
  is_dedented (a ++ String nl (String nl b)) = true.
Proof.
  intros [Ha Hma]%is_dedented_iff [Hb Hmb]%is_dedented_iff.
  apply is_dedented_iff.
  assert (split_nl (a ++ String nl (String nl b)) =
          (split_nl a ++ "" :: split_nl b)%list) as Hsplit.
  { by rewrite split_nl_app, split_nl_String, Ascii.eqb_refl. }
  rewrite Hsplit. split.
  - intros l [Hl|Hl]%elem_of_app; [by auto|].
    apply elem_of_cons in Hl as [->|Hl]; auto.
  - apply margin_of_nil_iff. rewrite Hsplit, omap_app.
    change (omap indent_of ("" :: split_nl b))
      with (omap indent_of (split_nl b)).
    rewrite fold_left_app.
    apply margin_of_nil_iff in Hma as [->| ->].
    + by apply margin_of_nil_iff.
    + right. apply margin_fold_empty.
Qed.

End PyFacts.

(** * Properties *)

(** ** Diff attribution *)

Module DiffFacts.
Import Diff.

Lemma record_added_cons l ls line f :
  record_added (l :: ls) line f =
  record_added ls line
    (if line_num l =? line then addInformation (Some l) None f else f).
Proof. reflexivity. Qed.

Lemma record_removed_cons l ls line f :
  record_removed (l :: ls) line f =
  record_removed ls line
    (if line_num l =? line then addInformation None (Some l) f else f).
Proof. reflexivity. Qed.

(** Recording added lines touches [added_lines] only. *)
Lemma record_added_spec ls line f :
  start_line (record_added ls line f) = start_line f ∧
  end_line (record_added ls line f) = end_line f ∧
  removed_lines (record_added ls line f) = removed_lines f ∧
  ∀ x, x ∈ (line_num <$> added_lines (record_added ls line f)) ↔
       x ∈ (line_num <$> added_lines f) ∨
       (x = line ∧ line ∈ (line_num <$> ls)).
Proof.
  revert f. induction ls as [|l ls IH]; intros f.
  - cbn. split_and!; try done. intros x. set_solver.
  - rewrite record_added_cons.
    destruct (IH (if line_num l =? line
                  then addInformation (Some l) None f else f))
      as (Hs & He & Hr & Ha).
    rewrite Hs, He, Hr. clear Hs He Hr.
    destruct (Z.eqb_spec (line_num l) line) as [Heq|Hne]; cbn.
    + split_and!; try done. intros x. rewrite Ha. cbn.
      rewrite fmap_app. cbn. set_solver.
    + split_and!; try done. intros x. rewrite Ha. set_solver.
Qed.

Lemma record_removed_spec ls line f :
  start_line (record_removed ls line f) = start_line f ∧
  end_line (record_removed ls line f) = end_line f ∧
  added_lines (record_removed ls line f) = added_lines f ∧
  ∀ x, x ∈ (line_num <$> removed_lines (record_removed ls line f)) ↔
       x ∈ (line_num <$> removed_lines f) ∨
       (x = line ∧ line ∈ (line_num <$> ls)).
Proof.
  revert f. induction ls as [|l ls IH]; intros f.
  - cbn. split_and!; try done. intros x. set_solver.
  - rewrite record_removed_cons.
    destruct (IH (if line_num l =? line
                  then addInformation None (Some l) f else f))
      as (Hs & He & Hr & Ha).
    rewrite Hs, He, Hr. clear Hs He Hr.
    destruct (Z.eqb_spec (line_num l) line) as [Heq|Hne]; cbn.
    + split_and!; try done. intros x. rewrite Ha. cbn.
      rewrite fmap_app. cbn. set_solver.
    + split_and!; try done. intros x. rewrite Ha. set_solver.
Qed.

(** What the body of the inner loop does to the function it picks: the
    added branch comes first, the removed branch only when the line is not
    an added one. *)
Lemma record_line_spec a r line f :
  let f' := record_line a r line f in
  start_line f' = start_line f ∧ end_line f' = end_line f ∧
  (∀ x, x ∈ (line_num <$> added_lines f') ↔
        x ∈ (line_num <$> added_lines f) ∨
        (x = line ∧ line ∈ (line_num <$> a))) ∧
  (∀ x, x ∈ (line_num <$> removed_lines f') ↔
        x ∈ (line_num <$> removed_lines f) ∨
        (x = line ∧ line ∉ (line_num <$> a) ∧ line ∈ (line_num <$> r))).
Proof.
  intros f'. subst f'. unfold record_line.
  destruct (bool_decide_reflect (line ∈ (line_num <$> a))) as [Ha|Ha]; cbv iota.
  - destruct (record_added_spec a line f) as (Hs & He & Hr & Hx).
    rewrite Hs, He, Hr.
    split_and!; try done; intros x; rewrite ?Hx; naive_solver.
  - destruct (bool_decide_reflect (line ∈ (line_num <$> r))) as [Hr|Hr]; cbv iota.
    + destruct (record_removed_spec r line f) as (Hs & He & Hr' & Hx).
      rewrite Hs, He, Hr'.
      split_and!; try done; intros x; rewrite ?Hx; naive_solver.
    + split_and!; try done; intros x; naive_solver.
Qed.

Lemma in_span_spec f line :
  has_span f →
  ∃ b, in_span f line = Ok b ∧ (b = true ↔ spans f line).
Proof.
  intros [[s Hs] [e He]]. unfold in_span, spans. rewrite Hs, He.
  destruct (Z.leb_spec s line) as [H1|H1].
  - exists (line <=? e). split; [done|]. rewrite Z.leb_le.
    split; [intros; exists s, e; split_and!; auto; lia|].
    intros (s' & e' & ? & ? & ?). simplify_eq. lia.
  - exists false. split; [done|]. split; [done|].
    intros (s' & e' & ? & ? & ?). simplify_eq. lia.
Qed.

Lemma spans_same f g line :
  start_line f = start_line g → end_line f = end_line g →
  spans f line ↔ spans g line.
Proof. unfold spans. intros -> ->. done. Qed.

Lemma first_spanning_same fs fs' line j :
  same_spans fs fs' → first_spanning fs line j ↔ first_spanning fs' line j.
Proof.
  assert (∀ fs fs', same_spans fs fs' →
            first_spanning fs line j → first_spanning fs' line j) as Hone.
  { clear. intros fs fs' [Hlen Hsp] [(f & Hf & Hs) Hlt]. split.
    - destruct (lookup_lt_is_Some_2 fs' j) as [f' Hf'].
      { rewrite <- Hlen. eapply lookup_lt_Some; eauto. }
      exists f'. split; [done|].
      destruct (Hsp _ _ _ Hf Hf'). by eapply spans_same.
    - intros i g' Hi Hg' Hs'.
      destruct (lookup_lt_is_Some_2 fs i) as [g Hg].
      { rewrite Hlen. eapply lookup_lt_Some; eauto. }
      destruct (Hsp _ _ _ Hg Hg'). eapply Hlt; eauto.
      by eapply spans_same. }
  intros H. split; apply Hone; [done|].
  destruct H as [Hlen Hsp]. split; [done|].
  intros k f f' Hf Hf'. destruct (Hsp _ _ _ Hf' Hf). done.
Qed.

(** One run of the inner loop: either it stops at the first function from
    position [i] on whose span has the line, and records the line there,
    or no function is left and nothing changes. *)
Lemma scan_spec a r line n i st :
  (∀ j f, functions st !! j = Some f → has_span f) →
  ∃ st', scan a r line n i st = Ok st' ∧
    ((∃ j f, (i ≤ j < i + n)%nat ∧ functions st !! j = Some f ∧
             spans f line ∧
             (∀ k g, (i ≤ k < j)%nat → functions st !! k = Some g →
                     ¬ spans g line) ∧
             functions st' = <[j := record_line a r line f]> (functions st))
     ∨ ((∀ k g, (i ≤ k < i + n)%nat → functions st !! k = Some g →
                ¬ spans g line) ∧
        functions st' = functions st)).
Proof.
  intros Hsp. revert i. induction n as [|n IH]; intros i; cbn.
  - exists st. split; [done|]. right. split; [|done]. intros; lia.
  - destruct (functions st !! i) as [f|] eqn:Hf.
    + destruct (in_span_spec f line (Hsp _ _ Hf)) as (b & -> & Hb). cbn.
      destruct b.
      * eexists. split; [done|]. left. exists i, f. cbn.
        split_and!; try done; try lia; try (by apply Hb); intros; lia.
      * destruct (IH (S i)) as (st' & -> & Hcases).
        exists st'. split; [done|].
        assert (¬ spans f line) as Hnot by (rewrite <- Hb; done).
        destruct Hcases as [(j & g & Hj & Hg & Hs & Hlt & Hst')|[Hno Hst']].
        -- left. exists j, g. split_and!; try done; try lia.
           intros k h Hk Hh. destruct (decide (k = i)) as [->|].
           ++ by simplify_eq.
           ++ eapply Hlt; [|done]. lia.
        -- right. split; [|done]. intros k h Hk Hh.
           destruct (decide (k = i)) as [->|].
           ++ by simplify_eq.
           ++ eapply Hno; [|done]. lia.
    + exists st. split; [done|]. right. split; [|done].
      intros k g Hk Hg. apply lookup_ge_None in Hf.
      apply lookup_lt_Some in Hg. lia.
Qed.

Lemma first_spanning_unique fs line j k :
  first_spanning fs line j → first_spanning fs line k → j = k.
Proof.
  intros [(f & Hf & Hs) Hj] [(g & Hg & Hs') Hk].
  destruct (lt_eq_lt_dec j k) as [[Hlt|Heq]|Hlt]; [|done|].
  - destruct (Hk _ _ Hlt Hf Hs).
  - destruct (Hj _ _ Hlt Hg Hs').
Qed.

(** The inner loop over the whole list, for one changed line. *)
Lemma scan_all a r line st :
  (∀ j f, functions st !! j = Some f → has_span f) →
  ∃ st', scan a r line (length (functions st)) 0 st = Ok st' ∧
    same_spans (functions st) (functions st') ∧
    ∀ j f, functions st !! j = Some f →
      ∃ f', functions st' !! j = Some f' ∧
        (∀ x, x ∈ (line_num <$> added_lines f') ↔
              x ∈ (line_num <$> added_lines f) ∨
              (x = line ∧ line ∈ (line_num <$> a) ∧
               first_spanning (functions st) line j)) ∧
        (∀ x, x ∈ (line_num <$> removed_lines f') ↔
              x ∈ (line_num <$> removed_lines f) ∨
              (x = line ∧ line ∉ (line_num <$> a) ∧
               line ∈ (line_num <$> r) ∧
               first_spanning (functions st) line j)).
Proof.
  intros Hsp.
  destruct (scan_spec a r line (length (functions st)) 0 st Hsp)
    as (st' & Hscan & Hcases).
  exists st'. split; [done|].
  destruct Hcases as [(j & f & Hj & Hf & Hs & Hlt & Hst')|[Hno Hst']].
  - assert (first_spanning (functions st) line j) as Hfirst.
    { split; [by exists f|]. intros k g Hk. apply Hlt. lia. }
    destruct (record_line_spec a r line f) as (Hs1 & He1 & Ha1 & Hr1).
    rewrite Hst'. split.
    + split; [by rewrite length_insert|].
      intros k g g' Hg Hg'. destruct (decide (j = k)) as [->|Hne].
      * rewrite list_lookup_insert_eq in Hg' by lia. by simplify_eq.
      * rewrite list_lookup_insert_ne in Hg' by done. by simplify_eq.
    + intros k g Hg. destruct (decide (j = k)) as [->|Hne].
      * rewrite list_lookup_insert_eq by lia. simplify_eq.
        eexists. split; [done|]. split; intros x.
        -- rewrite Ha1. naive_solver.
        -- rewrite Hr1. naive_solver.
      * rewrite list_lookup_insert_ne by done.
        exists g. split; [done|].
        split; intros x; split; [by left| |by left|];
          (intros [?|(_ & H)]; [done|]);
          destruct Hne; eapply first_spanning_unique; naive_solver.
  - rewrite Hst'. split.
    + split; [done|]. intros k g g' Hg Hg'. by simplify_eq.
    + intros k g Hg. exists g. split; [done|].
      assert (¬ first_spanning (functions st) line k) as Hnone.
      { intros [(h & Hh & Hs) _]. eapply Hno; [|done..].
        apply lookup_lt_Some in Hh. lia. }
      split; intros x; naive_solver.
Qed.

(** The outer loop. Every function keeps its span; a line number of the
    loop that is among the added ones is in the added lines of the first
    function that spans it, one that is among the removed ones only is in
    the removed lines of that function, and nothing else is recorded. *)
Lemma for_lines_spec a r lines st0 :
  (∀ j f, functions st0 !! j = Some f → has_span f) →
  ∃ st, for_lines a r lines st0 = Ok st ∧
    same_spans (functions st0) (functions st) ∧
    ∀ j f0, functions st0 !! j = Some f0 →
      ∃ f, functions st !! j = Some f ∧
        (∀ x, x ∈ (line_num <$> added_lines f) ↔
              x ∈ (line_num <$> added_lines f0) ∨
              (x ∈ lines ∧ x ∈ (line_num <$> a) ∧
               first_spanning (functions st0) x j)) ∧
        (∀ x, x ∈ (line_num <$> removed_lines f) ↔
              x ∈ (line_num <$> removed_lines f0) ∨
              (x ∈ lines ∧ x ∉ (line_num <$> a) ∧
               x ∈ (line_num <$> r) ∧
               first_spanning (functions st0) x j)).
Proof.
  revert st0. induction lines as [|line lines IH]; intros st0 Hsp; cbn.
  - exists st0. split; [done|]. split.
    + split; [done|]. intros j f f' ? ?. by simplify_eq.
    + intros j f0 Hf0. exists f0. split; [done|].
      split; intros x; rewrite elem_of_nil; naive_solver.
  - destruct (scan_all a r line st0 Hsp) as (st1 & -> & Hsame1 & Hrec1).
    cbn.
    assert (∀ j f, functions st1 !! j = Some f → has_span f) as Hsp1.
    { intros j f Hf. destruct Hsame1 as [Hlen Hsame1].
      destruct (lookup_lt_is_Some_2 (functions st0) j) as [f0 Hf0].
      { rewrite Hlen. eapply lookup_lt_Some; eauto. }
      destruct (Hsame1 _ _ _ Hf0 Hf) as [Hs He].
      destruct (Hsp _ _ Hf0). unfold has_span. by rewrite <- Hs, <- He. }
    destruct (IH st1 Hsp1) as (st & Hfor & Hsame & Hrec).
    exists st. split; [done|]. split.
    + destruct Hsame1 as [Hl1 Hs1], Hsame as [Hl2 Hs2].
      split; [congruence|]. intros j f f' Hf Hf'.
      destruct (lookup_lt_is_Some_2 (functions st1) j) as [f1 Hf1].
      { rewrite <- Hl1. eapply lookup_lt_Some; eauto. }
      destruct (Hs1 _ _ _ Hf Hf1), (Hs2 _ _ _ Hf1 Hf'). split; congruence.
    + intros j f0 Hf0.
      destruct (Hrec1 _ _ Hf0) as (f1 & Hf1 & Ha1 & Hr1).
      destruct (Hrec _ _ Hf1) as (f & Hf & Ha & Hr).
      exists f. split; [done|].
      pose proof (λ x, first_spanning_same _ _ x j Hsame1) as Hfs.
      split; intros x.
      * rewrite Ha, Ha1, elem_of_cons, <- Hfs. naive_solver.
      * rewrite Hr, Hr1, elem_of_cons, <- Hfs. naive_solver.
Qed.

Lemma elem_of_modified_lines a r x :
  x ∈ modified_lines a r ↔ x ∈ ((line_num <$> a) ++ (line_num <$> r))%list.
Proof. unfold modified_lines. by rewrite elem_of_elements, elem_of_list_to_set. Qed.

Lemma fresh_has_span fs :
  Forall fresh fs → ∀ j f, fs !! j = Some f → has_span f.
Proof.
  intros Hall j f Hf. rewrite Forall_lookup in Hall.
  destruct (Hall _ _ Hf) as (? & ? & _). by split.
Qed.

(** [analyse_diff] on functions fresh from extraction: it ends without an
    exception, and says where every line number is recorded. *)
Lemma analyse_diff_spec a r fs :
  Forall fresh fs →
  ∃ st, analyse_diff a r fs = Ok st ∧
    length (functions st) = length fs ∧
    ∀ j f, functions st !! j = Some f →
      (∀ x, x ∈ (line_num <$> added_lines f) ↔
            (x ∈ (line_num <$> a) ∧ first_spanning fs x j)) ∧
      (∀ x, x ∈ (line_num <$> removed_lines f) ↔
            (x ∉ (line_num <$> a) ∧ x ∈ (line_num <$> r) ∧
             first_spanning fs x j)).
Proof.
  intros Hfresh. unfold analyse_diff.
  destruct (for_lines_spec a r (modified_lines a r)
              {| functions := fs; modified_functions := [] |}
              (fresh_has_span fs Hfresh))
    as (st & Hst & [Hlen Hsame] & Hrec).
  cbn in Hlen, Hsame, Hrec.
  exists st. split; [done|]. split; [done|].
  intros j f Hf.
  destruct (lookup_lt_is_Some_2 fs j) as [f0 Hf0].
  { rewrite Hlen. eapply lookup_lt_Some; eauto. }
  destruct (Hrec _ _ Hf0) as (f' & Hf' & Ha & Hr). simplify_eq.
  rewrite Forall_lookup in Hfresh.
  destruct (Hfresh _ _ Hf0) as (_ & _ & Ha0 & Hr0).
  rewrite Ha0 in Ha. rewrite Hr0 in Hr.
  split; intros x.
  - rewrite Ha, elem_of_modified_lines, elem_of_app.
    cbn. rewrite elem_of_nil. naive_solver.
  - rewrite Hr, elem_of_modified_lines, elem_of_app.
    cbn. rewrite elem_of_nil. naive_solver.
Qed.

(** C1. Diff attribution: on functions fresh from extraction,
    [analyse_diff] ends normally and, for every changed line number [L]
    (a number of an added or of a removed line), [L] is recorded on the
    function at position [j], among its added or its removed lines, exactly
    when [j] is the first position of the list whose span
    [start_line <= L <= end_line] has [L]. So [L] is on the first such
    function, on no later one, and on none when no span has it. *)
Theorem analyse_diff_first_match a r fs :
  Forall fresh fs →
  ∃ st, analyse_diff a r fs = Ok st ∧
    length (functions st) = length fs ∧
    ∀ L, L ∈ ((line_num <$> a) ++ (line_num <$> r))%list →
      ∀ j f, functions st !! j = Some f →
        (recorded L f ↔ first_spanning fs L j).
Proof.
  intros Hfresh.
  destruct (analyse_diff_spec a r fs Hfresh) as (st & Hst & Hlen & Hrec).
  exists st. split; [done|]. split; [done|].
  intros L HL j f Hf. destruct (Hrec _ _ Hf) as [Ha Hr].
  unfold recorded. rewrite Ha, Hr. apply elem_of_app in HL.
  destruct (decide (L ∈ (line_num <$> a))); naive_solver.
Qed.

(** C10. A line number that is both among the added and among the removed
    lines goes through the added branch only: after [analyse_diff] no
    function has it among its removed lines, and the first function whose
    span has it has it among its added lines. *)
Theorem analyse_diff_added_wins a r fs :
  Forall fresh fs →
  ∃ st, analyse_diff a r fs = Ok st ∧
    ∀ L, L ∈ (line_num <$> a) → L ∈ (line_num <$> r) →
      ∀ j f, functions st !! j = Some f →
        L ∉ (line_num <$> removed_lines f) ∧
        (first_spanning fs L j → L ∈ (line_num <$> added_lines f)).
Proof.
  intros Hfresh.
  destruct (analyse_diff_spec a r fs Hfresh) as (st & Hst & Hlen & Hrec).
  exists st. split; [done|].
  intros L HLa HLr j f Hf. destruct (Hrec _ _ Hf) as [Ha Hr].
  rewrite Ha, Hr. naive_solver.
Qed.

Lemma analyse_diff_first_match_witness :
  ∃ st, analyse_diff Samples.sample_added Samples.sample_removed
          Samples.sample_functions = Ok st ∧
    length (functions st) = length Samples.sample_functions ∧
    ∀ L, L ∈ ((line_num <$> Samples.sample_added) ++
              (line_num <$> Samples.sample_removed))%list →
      ∀ j f, functions st !! j = Some f →
        (recorded L f ↔ first_spanning Samples.sample_functions L j).
Proof.
  apply (analyse_diff_first_match Samples.sample_added Samples.sample_removed
           Samples.sample_functions).
  unfold Samples.sample_functions.
  repeat constructor; cbn; by eexists.
Defined.

Lemma analyse_diff_added_wins_witness :
  ∃ st, analyse_diff Samples.sample_added Samples.sample_removed
          Samples.sample_functions = Ok st ∧
    ∀ L, L ∈ (line_num <$> Samples.sample_added) →
         L ∈ (line_num <$> Samples.sample_removed) →
      ∀ j f, functions st !! j = Some f →
        L ∉ (line_num <$> removed_lines f) ∧
        (first_spanning Samples.sample_functions L j →
         L ∈ (line_num <$> added_lines f)).
Proof.
  apply (analyse_diff_added_wins Samples.sample_added Samples.sample_removed
           Samples.sample_functions).
  unfold Samples.sample_functions.
  repeat constructor; cbn; by eexists.
Defined.

(** The sample run: line 4 is on [outer] (first of the two nested spans)
    as an added line only, line 13 on [after], and line 11, in no span, on
    no function. *)
Example analyse_diff_sample :
  (λ st, (λ f, (line_num <$> added_lines f, line_num <$> removed_lines f))
           <$> functions st)
    <$> (match analyse_diff Samples.sample_added Samples.sample_removed
                 Samples.sample_functions with
         | Ok st => Some st
         | Raise _ => None
         end)
  = Some [([4], []); ([], []); ([13], [])].
Proof. vm_compute. reflexivity. Qed.

End DiffFacts.

(** ** Code text: de-indenting and merging *)

Module TextFacts.
Import Py PyFacts Lookup.

(** The claim of C6 read literally fails on a slice with a line of spaces:
    [dedent] empties that line, and neither prefixing every line nor
    prefixing the lines that are not blank brings its spaces back. *)
Lemma dedent_round_trip_blank_line :
  indent_all (margin_of Samples.slice_with_blank)
             (dedent Samples.slice_with_blank)
    ≠ Samples.slice_with_blank ∧
  indent_nonblank (margin_of Samples.slice_with_blank)
                  (dedent Samples.slice_with_blank)
    ≠ Samples.slice_with_blank.
Proof. split; vm_compute; discriminate. Qed.

(** An empty line inside an indented slice comes back as the margin. *)
Lemma dedent_round_trip_empty_line :
  indent_all (margin_of Samples.slice_with_empty)
             (dedent Samples.slice_with_empty)
    ≠ Samples.slice_with_empty.
Proof. vm_compute. discriminate. Qed.

Lemma all_space_tab_no_newline s :
  all_space_tab s = true → no_newline s = true.
Proof.
  induction s as [|c s IH]; [done|]. cbn.
  intros [Hc Hs]%andb_true_iff. rewrite IH by done.
  unfold is_space_tab in Hc.
  apply orb_true_iff in Hc as [->%Ascii.eqb_eq| ->%Ascii.eqb_eq]; done.
Qed.

Lemma map_fixed {A} (g : A → A) (L : list A) :
  map g L = L → ∀ x, x ∈ L → g x = x.
Proof.
  induction L as [|y L IH]; cbn; intros Heq x Hx.
  - by apply elem_of_nil in Hx.
  - injection Heq as Hy HL.
    apply elem_of_cons in Hx as [->|Hx]; [done|by apply IH].
Qed.

(** The margin is made of spaces and tabs. *)
Lemma margin_of_space_tab text : all_space_tab (margin_of text) = true.
Proof.
  unfold margin_of. rewrite indents_blank_out.
  destruct (omap indent_of (split_nl text)) as [|i0 I] eqn:HI; [done|].
  cbn [fold_left margin_step].
  destruct (margin_fold_upper I i0) as (m & -> & H0 & _).
  apply (all_space_tab_prefix i0 m H0).
  assert (i0 ∈ omap indent_of (split_nl text)) as Hin
    by (rewrite HI; by left).
  apply elem_of_indents in Hin as (l & _ & _ & ->). apply leading_ws_all.
Qed.

(** C6, amended. For a source slice, de-indenting it by its common
    leading white space and then prefixing every line with that margin
    gives the slice back, line for line, exactly when every line of the
    slice that is empty or made of spaces and tabs only is equal to the
    margin. So it does for a slice without such lines, and for a slice at
    the left margin whose blank lines are empty. *)
Theorem dedent_round_trip text :
  indent_all (margin_of text) (dedent text) = text ↔
  ∀ l, l ∈ split_nl text → all_space_tab l = true → l = margin_of text.
Proof.
  rewrite indent_dedent.
  set (g := λ l : string, if all_space_tab l then margin_of text else l).
  split.
  - intros Hjoin l Hl Hb.
    assert (map g (split_nl text) = split_nl text) as Hmap.
    { rewrite <- Hjoin at 2. symmetry. apply split_join.
      - destruct (split_nl_cons text) as (l0 & ls & ->). done.
      - apply Forall_forall. intros x Hx.
        apply list_elem_of_In, in_map_iff in Hx as (y & <- & Hy).
        unfold g. destruct (all_space_tab y).
        + apply all_space_tab_no_newline, margin_of_space_tab.
        + pose proof (split_nl_no_newline text) as Hall.
          rewrite Forall_forall in Hall. by apply Hall, list_elem_of_In. }
    pose proof (map_fixed g _ Hmap l Hl) as Hg. unfold g in Hg.
    by rewrite Hb in Hg.
  - intros Hall. rewrite <- (join_split text) at 2. f_equal.
    rewrite <- (map_id (split_nl text)) at 2.
    apply map_ext_in. intros l Hl%list_elem_of_In. unfold g.
    destruct (all_space_tab l) eqn:Hb; [|done]. symmetry. by apply Hall.
Qed.

Lemma dedent_round_trip_witness :
  indent_all (margin_of slice_top_level) (dedent slice_top_level)
  = slice_top_level.
Proof.
  apply (proj2 (dedent_round_trip slice_top_level)).
  intros l Hl Hb. vm_compute in Hl.
  repeat (apply elem_of_cons in Hl as [->|Hl]);
    try discriminate Hb; try reflexivity.
  by apply elem_of_nil in Hl.
Defined.

(** A slice in which no line is blank comes back. *)
Lemma dedent_round_trip_no_blank text :
  no_blank_line text = true →
  indent_all (margin_of text) (dedent text) = text.
Proof.
  intros Hnb. rewrite indent_dedent.
  rewrite <- (join_split text) at 2. f_equal.
  rewrite <- (map_id (split_nl text)) at 2.
  apply map_ext_in. intros l Hl.
  unfold no_blank_line in Hnb. rewrite forallb_forall in Hnb.
  specialize (Hnb l Hl). by destruct (all_space_tab l).
Qed.

(** C5. For two Functions with dependency lists and de-indented code (the
    code of every Function is: what [_extract_code] and [mergeFunctions]
    store is returned by [dedent]), [A.mergeFunctions(B)] leaves [A] with
    dependencies that are, as a set, the union of the two lists, and with
    the code of [A], one empty line, and the code of [B]. *)
Theorem mergeFunctions_union A B dA dB :
  dependencies A = Some dA → dependencies B = Some dB →
  is_dedented (func_code A) = true → is_dedented (func_code B) = true →
  ∃ A', mergeFunctions A B = Ok A' ∧
    (∃ d, dependencies A' = Some d ∧
          (list_to_set d : gset string) = list_to_set dA ∪ list_to_set dB) ∧
    func_code A' = func_code A ++ String nl (String nl (func_code B)).
Proof.
  intros HdA HdB HA HB. unfold mergeFunctions. rewrite HdA, HdB. cbn.
  eexists. split; [done|]. cbn. split.
  - eexists. split; [done|]. apply list_to_set_elements_L.
  - apply dedented_fix. by apply dedented_join.
Qed.

Lemma mergeFunctions_union_witness :
  ∃ A', mergeFunctions Samples.test_one Samples.test_two = Ok A' ∧
    (∃ d, dependencies A' = Some d ∧
          (list_to_set d : gset string) =
          list_to_set ["g"] ∪ list_to_set ["h"; "g"]) ∧
    func_code A' =
      func_code Samples.test_one ++
      String nl (String nl (func_code Samples.test_two)).
Proof.
  apply (mergeFunctions_union Samples.test_one Samples.test_two
           ["g"] ["h"; "g"]); reflexivity.
Defined.

(** Why C5 asks for de-indented code: [mergeFunctions] de-indents the
    joined text, so a margin the two codes share is taken off both. *)
Example mergeFunctions_strips_margin :
  func_code <$>
    (match mergeFunctions Samples.indented_one Samples.indented_two with
     | Ok A' => Some A'
     | Raise _ => None
     end) = Some ("a()" ++ NL ++ NL ++ "b()").
Proof. vm_compute. reflexivity. Qed.

(** The code a Function gets from [mergeFunctions] is de-indented again,
    so the hypothesis of C5 holds for a Function merged several times. *)
Lemma mergeFunctions_dedented A B A' :
  mergeFunctions A B = Ok A' → is_dedented (func_code A') = true.
Proof.
  unfold mergeFunctions.
  destruct (dependencies A), (dependencies B); cbn; intros; simplify_eq.
  cbn. apply dedent_is_dedented.
Qed.

End TextFacts.

(** ** Extraction *)

Module ExtractFacts.
Import Tree Extract Py PyFacts ResultFacts.

(** Induction on a tree, with the property for all the children. *)
Lemma Node_ind' (P : Node → Prop) :
  (∀ t b f s e x cs, Forall P cs → P (mkNode t b f s e x cs)) →
  ∀ n, P n.
Proof.
  intros H. fix IH 1. intros [t b f s e x cs]. apply H.
  induction cs as [|c cs IHcs]; constructor; [apply IH|apply IHcs].
Qed.

Lemma subtree_eq n : subtree n = n :: flat_map subtree (children n).
Proof. by destruct n. Qed.

Lemma dep_visit_eq n acc :
  dep_visit n acc =
  fold_left (λ acc child, dep_visit child acc) (children n)
    (if is_type "call" n then
       match called_name n with
       | Some name => acc ∪ {[ name ]}
       | None => acc
       end
     else acc).
Proof. by destruct n. Qed.

Lemma call_names_eq n :
  call_names n =
  ((if is_type "call" n then option_list (called_name n) else []) ++
   flat_map call_names (children n))%list.
Proof.
  unfold call_names at 1. rewrite subtree_eq.
  assert (omap called_name
            (filter (λ n, is_type "call" n = true)
                    (flat_map subtree (children n))) =
          flat_map call_names (children n)) as Hcs.
  { induction (children n) as [|c cs IH]; [done|]. cbn [flat_map].
    by rewrite filter_app, omap_app, IH. }
  rewrite filter_cons. destruct (decide (is_type "call" n = true)) as [Hc|Hc].
  - rewrite Hc. cbn. rewrite Hcs. by destruct (called_name n).
  - apply not_true_is_false in Hc. rewrite Hc. by rewrite Hcs.
Qed.

(** The sub-traversal adds to the set the names of all the calls of the
    subtree. *)
Lemma dep_visit_spec n :
  ∀ acc, dep_visit n acc = acc ∪ list_to_set (call_names n).
Proof.
  induction n as [t b f s e x cs IH] using Node_ind'. intros acc.
  rewrite dep_visit_eq, call_names_eq.
  set (n := mkNode t b f s e x cs). cbn [children].
  assert (∀ acc, fold_left (λ acc child, dep_visit child acc) cs acc =
                 acc ∪ list_to_set (flat_map call_names cs)) as Hfold.
  { clear acc. induction IH as [|c cs Hc _ IHcs]; intros acc; cbn.
    - set_solver.
    - rewrite IHcs, Hc, list_to_set_app_L. set_solver. }
  rewrite Hfold, list_to_set_app_L.
  destruct (is_type "call" n); [|set_solver].
  destruct (called_name n); cbn; set_solver.
Qed.

Lemma elem_of_call_names n x :
  x ∈ call_names n ↔
  ∃ c, c ∈ subtree n ∧ is_type "call" c = true ∧ called_name c = Some x.
Proof.
  unfold call_names. rewrite list_elem_of_omap.
  split; intros (c & Hc & Hx); exists c.
  - apply list_elem_of_filter in Hc. naive_solver.
  - split; [|naive_solver]. apply list_elem_of_filter. naive_solver.
Qed.

(** The sample trees, run through the extraction. *)
Example sample_extraction :
  visit_all Samples.sample_code Samples.sample_root
    (children Samples.sample_root) [] =
  Ok [Function_init "f" Samples.sample_code None (Some ["g"]) (Some [])
        None (Some []) (Some 1) (Some 3)].
Proof. vm_compute. reflexivity. Qed.

Example module_extraction :
  ∃ fs, visit_all Samples.module_code Samples.module_root
          (children Samples.module_root) [] = Ok fs ∧
    map (λ F, (func_name F, class_name F, start_line F, end_line F,
               dependencies F, params F)) fs =
    [("m", Some "C", Some 2, Some 5,
      Some (elements ({["h"; "inner"]} : gset string)), Some ["self"]);
     ("top", None, Some 7, Some 8, Some [], Some [])].
Proof. eexists. split; vm_compute; reflexivity. Qed.

(** *** The traversal *)

Lemma visit_eq code root n cls acc :
  visit code root n cls acc =
  if is_type "function_definition" n then
    current_func ← make_function code root n cls;
    Ok (acc ++ [current_func])%list
  else if is_type "class_definition" n then
    class_name ← name_text n;
    fold_left (λ r child, acc' ← r;
                 visit code root child (Some class_name) acc')
              (children n) (Ok acc)
  else
    fold_left (λ r child, acc' ← r; visit code root child cls acc')
              (children n) (Ok acc).
Proof. by destruct n. Qed.

Lemma outer_definitions_eq n :
  outer_definitions n =
  if is_type "function_definition" n then [n]
  else flat_map outer_definitions (children n).
Proof. by destruct n. Qed.

Lemma visit_children_spec code root cls cs :
  Forall (λ c, ∀ cls acc fs, visit code root c cls acc = Ok fs →
            ∃ new, fs = (acc ++ new)%list ∧
                   Forall2 (made_from code root) (outer_definitions c) new)
         cs →
  ∀ acc fs,
    fold_left (λ r child, acc' ← r; visit code root child cls acc')
              cs (Ok acc) = Ok fs →
    ∃ new, fs = (acc ++ new)%list ∧
           Forall2 (made_from code root) (flat_map outer_definitions cs) new.
Proof.
  induction 1 as [|c cs Hc _ IH]; intros acc fs; cbn [fold_left flat_map].
  - intros [= <-]. exists []. by rewrite app_nil_r.
  - cbn. destruct (visit code root c cls acc) as [acc1|e] eqn:Hv.
    + intros Hfold. destruct (Hc _ _ _ Hv) as (new1 & -> & H1).
      destruct (IH _ _ Hfold) as (new2 & -> & H2).
      exists (new1 ++ new2)%list. rewrite app_assoc. split; [done|].
      by apply Forall2_app.
    + assert (fold_left
                (λ r child, acc' ← r; visit code root child cls acc')
                cs (Raise e) = Raise e) as ->; [|done].
      apply (fold_bind_Raise (λ child acc', visit code root child cls acc')).
Qed.

(** The traversal appends one Function for each definition it reaches, in
    document order, and those are the definitions that do not lie inside
    another definition. *)
Lemma visit_spec code root n :
  ∀ cls acc fs, visit code root n cls acc = Ok fs →
    ∃ new, fs = (acc ++ new)%list ∧
           Forall2 (made_from code root) (outer_definitions n) new.
Proof.
  induction n as [t b f s e x cs IH] using Node_ind'. intros cls acc fs.
  rewrite visit_eq, outer_definitions_eq.
  set (n := mkNode t b f s e x cs). cbn [children].
  destruct (is_type "function_definition" n).
  - intros (F & HF & [= <-])%bind_Ok. exists [F]. split; [done|].
    repeat constructor. by exists cls.
  - destruct (is_type "class_definition" n).
    + intros (cn & _ & Hfold)%bind_Ok.
      by apply (visit_children_spec code root (Some cn) cs IH).
    + by apply (visit_children_spec code root cls cs IH).
Qed.

Lemma visit_all_spec code root cs acc fs :
  visit_all code root cs acc = Ok fs →
  ∃ new, fs = (acc ++ new)%list ∧
         Forall2 (made_from code root) (flat_map outer_definitions cs) new.
Proof.
  apply visit_children_spec. apply Forall_forall. intros c _.
  apply visit_spec.
Qed.

(** *** One Function *)

Lemma make_function_spec code root n cls F :
  make_function code root n cls = Ok F →
  name_text n = Ok (func_name F) ∧
  _extract_code code n = Ok (func_code F) ∧
  class_name F = cls ∧
  dependencies F = Some (_extract_dependencies n) ∧
  start_line F = Some (Z.of_nat (start_row n) + 1) ∧
  end_line F = Some (Z.of_nat (end_row n) + 1) ∧
  added_lines F = [] ∧ removed_lines F = [].
Proof.
  unfold make_function.
  intros (name & Hname & (c & Hc & (imps & _ & H)%bind_Ok)%bind_Ok)%bind_Ok.
  cbn in H. apply bind_Ok in H as (doc & _ & [= <-]). cbn. done.
Qed.

(** The code of an extracted Function is de-indented text. *)
Lemma extract_code_dedented code n c :
  _extract_code code n = Ok c → is_dedented c = true.
Proof.
  unfold _extract_code. intros (ls & _ & [= <-])%bind_Ok.
  apply dedent_is_dedented.
Qed.

Lemma make_function_dedented code root n cls F :
  make_function code root n cls = Ok F → is_dedented (func_code F) = true.
Proof.
  intros H. apply make_function_spec in H as (_ & Hc & _).
  by eapply extract_code_dedented.
Qed.

Lemma extract_code_line_count code n c :
  _extract_code code n = Ok c →
  (start_row n ≤ end_row n)%nat →
  line_count c = S (end_row n - start_row n).
Proof.
  unfold _extract_code. intros (ls & Hls & [= <-])%bind_Ok Hrows.
  apply mapM_res_Ok in Hls.
  rewrite dedent_line_count. unfold line_count.
  pose proof (Forall2_length _ _ _ Hls) as Hlen. rewrite length_seq in Hlen.
  rewrite split_join.
  - lia.
  - intros ->. cbn in Hlen. lia.
  - apply Forall_forall. intros l Hl.
    apply list_elem_of_lookup in Hl as [i Hi].
    destruct (Forall2_lookup_r _ _ _ _ _ Hls Hi) as (k & _ & Hk).
    unfold index_line in Hk.
    destruct (splitlines code !! k) as [l'|] eqn:Hl'; [|done].
    simplify_eq. pose proof (splitlines_no_newline code) as Hall.
    rewrite Forall_lookup in Hall. eauto.
Qed.

Lemma outer_definitions_subtree n d :
  d ∈ outer_definitions n → d ∈ subtree n.
Proof.
  revert d. induction n as [t b f s e x cs IH] using Node_ind'. intros d.
  rewrite outer_definitions_eq, subtree_eq.
  set (n := mkNode t b f s e x cs). cbn [children].
  destruct (is_type "function_definition" n).
  - intros ->%list_elem_of_singleton. by left.
  - intros Hd. right. apply list_elem_of_In, in_flat_map.
    apply list_elem_of_In, in_flat_map in Hd as (c & Hc & Hd).
    exists c. split; [done|]. apply list_elem_of_In.
    rewrite Forall_forall in IH.
    apply IH; by apply list_elem_of_In.
Qed.

Lemma extract_info_fresh codebase_path root code d fs :
  _extract_info codebase_path ∅ root code = Ok d →
  d !! codebase_path = Some fs →
  visit_all code root (children root) [] = Ok fs.
Proof.
  unfold _extract_info. rewrite lookup_empty. cbn.
  intros (fs' & Hv & [= <-])%bind_Ok. rewrite lookup_insert_eq.
  by intros [= <-].
Qed.

(** C4. Dependency extraction. A name is among the dependencies
    [_extract_dependencies] returns for a node exactly when the subtree of
    the node, nested function definitions included, has a call node that
    gives it; a call of a bare identifier gives that identifier, an
    attribute-style call gives the attribute after the last dot and not
    the receiver. For the text [def f():\n    x = g()\n    return x] the
    extraction yields one Function, [f], with dependencies [g]. *)
Theorem extract_dependencies_calls :
  (∀ node x,
     x ∈ _extract_dependencies node ↔
     ∃ c, c ∈ subtree node ∧ is_type "call" c = true ∧
          called_name c = Some x) ∧
  (∀ c func_node,
     child_by_field_name c "function" = Some func_node →
     is_type "identifier" func_node = true →
     called_name c = Some (text func_node)) ∧
  (∀ c func_node attribute_node,
     child_by_field_name c "function" = Some func_node →
     is_type "identifier" func_node = false →
     is_type "attribute" func_node = true →
     child_by_field_name func_node "attribute" = Some attribute_node →
     called_name c = Some (text attribute_node)) ∧
  (∃ F, visit_all Samples.sample_code Samples.sample_root
          (children Samples.sample_root) [] = Ok [F] ∧
        func_name F = "f" ∧
        (list_to_set <$> dependencies F) = Some ({[ "g" ]} : gset string)).
Proof.
  split_and!.
  - intros node x. unfold _extract_dependencies.
    rewrite elem_of_elements, dep_visit_spec, <- elem_of_call_names.
    set_solver.
  - intros c fn Hfn Hid. unfold called_name. by rewrite Hfn, Hid.
  - intros c fn a Hfn Hid Hat Ha. unfold called_name.
    by rewrite Hfn, Hid, Hat, Ha.
  - eexists. split; [apply sample_extraction|]. split; [done|].
    vm_compute. reflexivity.
Qed.

(** The call [self.h()] inside the nested definition [inner] is a
    dependency of the method [m] around it, under the name [h]. *)
Lemma extract_dependencies_calls_witness :
  "h" ∈ _extract_dependencies Samples.method_def.
Proof.
  apply (proj1 extract_dependencies_calls Samples.method_def "h").
  exists Samples.attribute_call. split_and!; [|reflexivity..].
  apply list_elem_of_lookup. exists 10%nat. reflexivity.
Defined.

(** C7. Every Function that the extraction produces from a parsed file
    (a tree whose nodes end on or after the row they start on) has
    [start_line <= end_line], and its code has
    [end_line - start_line + 1] lines. *)
Theorem extracted_span_and_lines codebase_path root code d fs F :
  points_ordered root = true →
  _extract_info codebase_path ∅ root code = Ok d →
  d !! codebase_path = Some fs →
  F ∈ fs →
  ∃ s e, start_line F = Some s ∧ end_line F = Some e ∧ s ≤ e ∧
         Z.of_nat (line_count (func_code F)) = e - s + 1.
Proof.
  intros Hord Hinfo Hd HF.
  pose proof (extract_info_fresh _ _ _ _ _ Hinfo Hd) as Hv.
  apply visit_all_spec in Hv as (new & -> & Hall). cbn in HF.
  apply list_elem_of_lookup in HF as [i Hi].
  destruct (Forall2_lookup_r _ _ _ _ _ Hall Hi) as (n & Hn & [cls Hmk]).
  apply make_function_spec in Hmk
    as (_ & Hcode & _ & _ & Hs & He & _).
  assert (start_row n ≤ end_row n)%nat as Hrows.
  { unfold points_ordered in Hord. rewrite forallb_forall in Hord.
    apply Nat.leb_le, Hord, list_elem_of_In.
    rewrite subtree_eq. right.
    apply list_elem_of_lookup_2 in Hn.
    apply list_elem_of_In, in_flat_map in Hn as (c & Hc & Hn).
    apply list_elem_of_In, in_flat_map. exists c. split; [done|].
    by apply list_elem_of_In, outer_definitions_subtree, list_elem_of_In. }
  exists (Z.of_nat (start_row n) + 1), (Z.of_nat (end_row n) + 1).
  split_and!; [done|done|lia|].
  rewrite (extract_code_line_count _ _ _ Hcode Hrows). lia.
Qed.

Lemma extracted_span_and_lines_witness :
  ∃ s e, start_line Samples.method_function = Some s ∧
         end_line Samples.method_function = Some e ∧ s ≤ e ∧
         Z.of_nat (line_count (func_code Samples.method_function))
         = e - s + 1.
Proof.
  apply (extracted_span_and_lines "m.py" Samples.module_root
           Samples.module_code
           (<["m.py" := Samples.module_functions]> ∅)
           Samples.module_functions Samples.method_function).
  - reflexivity.
  - vm_compute. reflexivity.
  - vm_compute. reflexivity.
  - vm_compute. apply list_elem_of_here.
Defined.

(** *** Rows of the definitions *)











End ExtractFacts.

(** ** Configuration documents *)

Module YamlFacts.
Import Yaml ResultFacts.

(** Induction on a document, with the property for the items of a list
    and for the values of a dict. *)
Lemma yaml_ind' (P : yaml → Prop) :
  (∀ x, P (YScalar x)) →
  (∀ items, Forall P items → P (YList items)) →
  (∀ items, Forall (λ kv, P kv.2) items → P (YDict items)) →
  ∀ d, P d.
Proof.
  intros Hs Hl Hd. fix IH 1. intros [x|items|items].
  - apply Hs.
  - apply Hl. induction items as [|i items IHi]; constructor;
      [apply IH|apply IHi].
  - apply Hd. induction items as [|[k v] items IHi]; constructor;
      [apply IH|apply IHi].
Qed.

Lemma adds_refl acc : adds (λ _, False) (λ _ _, False) acc acc.
Proof. split; naive_solver. Qed.

Lemma adds_trans E1 E1' E2 E2' acc r1 r :
  adds E1 E1' acc r1 → adds E2 E2' r1 r →
  adds (λ k, E1 k ∨ E2 k) (λ k s, E1' k s ∨ E2' k s) acc r.
Proof.
  intros [Hd1 Hv1] [Hd2 Hv2]. split.
  - intros key. rewrite Hd2, Hd1. naive_solver.
  - intros key s Hs. destruct (Hv2 _ _ Hs) as [H|H]; [|by auto].
    destruct (Hv1 _ _ H); auto.
Qed.

Lemma adds_equiv E E' F F' acc r :
  adds E E' acc r →
  (∀ k, E k ↔ F k) → (∀ k s, E' k s → F' k s) → adds F F' acc r.
Proof.
  intros [Hd Hv] HE HE'. split.
  - intros key. rewrite Hd, HE. done.
  - intros key s Hs. destruct (Hv _ _ Hs); auto.
Qed.

Lemma adds_insert key s (acc : gmap scalar (gset scalar)) :
  adds (λ k, k = key) (λ k s', k = key ∧ s' = s) acc (<[key := s]> acc).
Proof.
  split.
  - intros k. rewrite dom_insert_L. set_solver.
  - intros k s'. destruct (decide (key = k)) as [->|Hne].
    + rewrite lookup_insert_eq. naive_solver.
    + rewrite lookup_insert_ne by done. auto.
Qed.

(** *** What the descent reaches *)

Lemma reached_list_inv items m :
  reached (YList items) m →
  m = YList items ∨ ∃ item, item ∈ items ∧ reached item m.
Proof. inversion 1; subst; eauto. Qed.

Lemma reached_dict_inv items m :
  reached (YDict items) m →
  m = YDict items ∨
  (∃ key vitems, (key, YDict vitems) ∈ items ∧
     is_Some (dict_get vitems (SStr "nodes")) ∧ reached (YDict vitems) m) ∨
  (∃ key l, (key, YList l) ∈ items ∧ reached (YList l) m).
Proof. inversion 1; subst; eauto 10. Qed.

Lemma found_in_scalar Q x key : ¬ found_in Q (YScalar x) key.
Proof.
  intros (m & nodes & Hr & (items & vitems & -> & _) & _). inversion Hr.
Qed.

Lemma found_in_list Q items key :
  found_in Q (YList items) key ↔
  ∃ item, item ∈ items ∧ found_in Q item key.
Proof.
  split.
  - intros (m & nodes & Hr & He & HQ).
    apply reached_list_inv in Hr as [->|(item & Hi & Hr)].
    + by destruct He as (? & ? & ? & _).
    + exists item. split; [done|]. by exists m, nodes.
  - intros (item & Hi & m & nodes & Hr & He & HQ).
    exists m, nodes. split; [|done]. by eapply reached_item.
Qed.

Lemma found_in_dict Q items key :
  found_in Q (YDict items) key ↔
  ∃ k v, (k, v) ∈ items ∧ entry_found Q k v key.
Proof.
  split.
  - intros (m & nodes & Hr & He & HQ).
    apply reached_dict_inv in Hr
      as [->|[(k & vitems & Hk & Hn & Hr)|(k & l & Hk & Hr)]].
    + destruct He as (items' & vitems & [= <-] & Hk & Hn).
      exists key, (YDict vitems). split; [done|]. cbn. eauto.
    + exists k, (YDict vitems). split; [done|]. cbn.
      destruct Hn as [n Hn]. exists n. split; [done|]. right.
      by exists m, nodes.
    + exists k, (YList l). split; [done|]. cbn. by exists m, nodes.
  - intros (k & v & Hk & Hv). destruct v as [x|l|vitems]; cbn in Hv.
    + done.
    + destruct Hv as (m & nodes & Hr & He & HQ).
      exists m, nodes. split; [|done]. by eapply reached_list.
    + destruct Hv as (n & Hn & [[-> HQ]|(m & nodes & Hr & He & HQ)]).
      * exists (YDict items), n. split; [constructor|]. split; [|done].
        by exists items, vitems.
      * exists m, nodes. split; [|done]. by eapply reached_dict.
Qed.

(** *** The traversal of [get_defined_pipelines] *)

Lemma defined_visit_list items acc :
  defined_visit (YList items) acc =
  fold_left (λ r item, acc ← r; defined_visit item acc) items (Ok acc).
Proof. reflexivity. Qed.

Lemma defined_visit_dict items acc :
  defined_visit (YDict items) acc =
  fold_left
    (λ r kv, acc ← r;
       match kv with
       | (key, value) =>
           match value with
           | YDict vitems =>
               match dict_get vitems (SStr "nodes") with
               | Some nodes =>
                   nodes_set ← set_of nodes;
                   defined_visit value (<[key := nodes_set]> acc)
               | None => Ok acc
               end
           | _ => defined_visit value acc
           end
       end) items (Ok acc).
Proof. reflexivity. Qed.

(** A loop of steps that each add something adds all of it. *)
Lemma fold_adds {C} (g : C → gmap scalar (gset scalar) →
                         result (gmap scalar (gset scalar)))
    (E : C → scalar → Prop) (E' : C → scalar → gset scalar → Prop) items :
  Forall (λ c, ∀ acc r, g c acc = Ok r → adds (E c) (E' c) acc r) items →
  ∀ acc r, fold_left (λ r c, r ≫= g c) items (Ok acc) = Ok r →
    adds (λ k, ∃ c, c ∈ items ∧ E c k)
         (λ k s, ∃ c, c ∈ items ∧ E' c k s) acc r.
Proof.
  induction 1 as [|c items Hc _ IH]; intros acc r; cbn [fold_left].
  - intros [= <-]. eapply adds_equiv; [apply adds_refl|..].
    + intros k. split; [done|]. by intros (? & ?%elem_of_nil & _).
    + done.
  - cbn. destruct (g c acc) as [r1|e] eqn:Hg.
    + intros Hfold.
      eapply adds_equiv;
        [exact (adds_trans _ _ _ _ _ _ _ (Hc _ _ Hg) (IH _ _ Hfold))|..].
      * intros k. split.
        -- intros [H|(i & Hi & H)]; [exists c|exists i];
             (split; [|done]); [by left|by right].
        -- intros (i & [->|Hi]%elem_of_cons & H); eauto.
      * intros k s [H|(i & Hi & H)]; [exists c|exists i];
          (split; [|done]); [by left|by right].
    + by rewrite fold_bind_Raise.
Qed.

(** One entry of a mapping. *)
Lemma entry_adds key value :
  (∀ acc r, defined_visit value acc = Ok r →
     adds (found_in (λ _, True) value)
          (λ k s, found_in (λ nodes, set_of nodes = Ok s) value k) acc r) →
  ∀ acc r,
    match value with
    | YDict vitems =>
        match dict_get vitems (SStr "nodes") with
        | Some nodes =>
            nodes_set ← set_of nodes;
            defined_visit value (<[key := nodes_set]> acc)
        | None => Ok acc
        end
    | _ => defined_visit value acc
    end = Ok r →
    adds (entry_found (λ _, True) key value)
         (λ k s, entry_found (λ nodes, set_of nodes = Ok s) key value k)
         acc r.
Proof.
  intros Hval acc r Hstep. destruct value as [x|l|vitems].
  - cbn in Hstep. simplify_eq. apply adds_refl.
  - exact (Hval _ _ Hstep).
  - cbn [entry_found].
    destruct (dict_get vitems (SStr "nodes")) as [nodes|] eqn:Hn.
    + apply bind_Ok in Hstep as (ns & Hns & Hstep).
      eapply adds_equiv;
        [exact (adds_trans _ _ _ _ _ _ _ (adds_insert key ns acc)
                  (Hval _ _ Hstep))|..].
      * intros k. cbn [entry_found]; rewrite ?Hn. split; [|naive_solver].
        intros [->|H]; exists nodes; eauto.
      * intros k s. cbn [entry_found]; rewrite ?Hn.
        intros [[-> ->]|H]; exists nodes; eauto.
    + simplify_eq. eapply adds_equiv; [apply adds_refl|..].
      * intros k. cbn [entry_found]; rewrite ?Hn.
        split; [done|]. by intros (? & ? & _).
      * done.
Qed.

(** A traversal that ends without an exception has added to the map the
    pipelines found, and nothing else. *)
Lemma defined_visit_adds doc :
  ∀ acc r, defined_visit doc acc = Ok r →
    adds (found_in (λ _, True) doc)
         (λ k s, found_in (λ nodes, set_of nodes = Ok s) doc k) acc r.
Proof.
  induction doc as [x|items IH|items IH] using yaml_ind'; intros acc r.
  - cbn. intros [= <-]. eapply adds_equiv; [apply adds_refl|..].
    + intros k. split; [done|]. apply found_in_scalar.
    + done.
  - rewrite defined_visit_list. intros Hfold.
    eapply adds_equiv; [|intros k; symmetry; apply found_in_list
                        |intros k s H; apply found_in_list, H].
    by apply (fold_adds (λ item acc, defined_visit item acc)
                (found_in (λ _, True))
                (λ item k s, found_in (λ nodes, set_of nodes = Ok s) item k)).
  - rewrite defined_visit_dict. intros Hfold.
    eapply adds_equiv;
      [apply (fold_adds
                (λ kv acc,
                   match kv with
                   | (key, value) =>
                       match value with
                       | YDict vitems =>
                           match dict_get vitems (SStr "nodes") with
                           | Some nodes =>
                               nodes_set ← set_of nodes;
                               defined_visit value (<[key := nodes_set]> acc)
                           | None => Ok acc
                           end
                       | _ => defined_visit value acc
                       end
                   end)
                (λ kv, entry_found (λ _, True) kv.1 kv.2)
                (λ kv k s,
                   entry_found (λ nodes, set_of nodes = Ok s) kv.1 kv.2 k)
                items); [|exact Hfold]|..].
    + eapply Forall_impl; [exact IH|]. intros [key value] Hval acc' r'.
      by apply entry_adds.
    + intros k. rewrite found_in_dict. split.
      * intros ([k' v] & Hi & H). eauto.
      * intros (k' & v & Hi & H). by exists (k', v).
    + intros k s ([k' v] & Hi & H). apply found_in_dict. eauto.
Qed.

End YamlFacts.

(** ** The provider *)

Module ProviderFacts.
Import Tree Extract Yaml Provider ResultFacts YamlFacts.

(** C2. The descent of [get_defined_pipelines] is not full. For the
    document [{pipelines: {p1: {nodes: [n1, n2]}}}] the pipeline [p1] is
    an entry of a mapping inside the document, with nodes that make the
    set [{n1, n2}], and the result is the empty map: the value of
    [pipelines] is a mapping without a [nodes] key, which the traversal
    neither records nor enters, the call that goes into a mapping value
    being placed under the test for that key. *)
Lemma defined_pipelines_not_full_descent :
  get_defined_pipelines (Samples.one_file "pipelines.yml" "")
    (Samples.load_as Samples.wrapped_doc) "pipelines.yml" = Ok ∅ ∧
  ∃ m nodes,
    inside Samples.wrapped_doc m ∧ pipeline_entry m (SStr "p1") nodes ∧
    set_of nodes = Ok {[ SStr "n1"; SStr "n2" ]}.
Proof.
  split; [vm_compute; reflexivity|].
  eexists _, _. split_and!.
  - eapply inside_value; [apply list_elem_of_here|]. apply inside_here.
  - eexists _, _. split_and!; [reflexivity|apply list_elem_of_here|].
    reflexivity.
  - vm_compute. reflexivity.
Qed.

(** What the traversal does reach: the items of lists and the mapping
    values that have a [nodes] key. When it raises nothing, the keys of
    the result are the keys of the entries, in the mappings so reached,
    whose value is a mapping with a [nodes] key, and the value stored
    under a key is [set(nodes)] of such an entry. *)
Theorem defined_pipelines_descent open_read safe_load path text doc r :
  open_read path = Ok text → safe_load text = Ok doc →
  defined_visit doc ∅ = Ok r →
  get_defined_pipelines open_read safe_load path = Ok r ∧
  (∀ key, key ∈ dom r ↔
          ∃ m nodes, reached doc m ∧ pipeline_entry m key nodes) ∧
  (∀ key s, r !! key = Some s →
            ∃ m nodes, reached doc m ∧ pipeline_entry m key nodes ∧
                       set_of nodes = Ok s).
Proof.
  intros Hopen Hload Hvisit. split.
  - unfold get_defined_pipelines. rewrite Hopen. cbn. rewrite Hload. cbn.
    by rewrite Hvisit.
  - destruct (defined_visit_adds doc ∅ r Hvisit) as [Hdom Hval]. split.
    + intros key. rewrite Hdom, dom_empty_L. unfold found_in. split.
      * intros [?%elem_of_empty|(m & nodes & ? & ? & _)]; [done|eauto].
      * intros (m & nodes & ? & ?). right. by exists m, nodes.
    + intros key s Hs. destruct (Hval _ _ Hs) as [H|H]; [|done].
      by rewrite lookup_empty in H.
Qed.

Lemma defined_pipelines_descent_witness :
  get_defined_pipelines (Samples.one_file "pipelines.yml" "")
    (Samples.load_as Samples.flat_doc) "pipelines.yml"
    = Ok Samples.flat_result ∧
  (∀ key, key ∈ dom Samples.flat_result ↔
          ∃ m nodes, reached Samples.flat_doc m ∧
                     pipeline_entry m key nodes) ∧
  (∀ key s, Samples.flat_result !! key = Some s →
            ∃ m nodes, reached Samples.flat_doc m ∧
                       pipeline_entry m key nodes ∧ set_of nodes = Ok s).
Proof.
  apply (defined_pipelines_descent (Samples.one_file "pipelines.yml" "")
           (Samples.load_as Samples.flat_doc) "pipelines.yml" ""
           Samples.flat_doc Samples.flat_result).
  - reflexivity.
  - reflexivity.
  - vm_compute. reflexivity.
Defined.

(** The result for the second sample: the pipeline inside a pipeline and
    the one inside a list are found. *)
Example flat_result_value :
  Samples.flat_result =
  {[ SStr "p1" := {[ SStr "n1"; SStr "n2" ]};
     SStr "p2" := {[ SStr "n3" ]};
     SStr "p3" := {[ SStr "n4" ]} ]}.
Proof. vm_compute. reflexivity. Qed.

(** C8. A configuration text that the loader cannot parse gives the empty
    set from [get_called_pipelines] and the empty map from
    [get_defined_pipelines] and [get_defined_nodes]; and whatever the file
    system and the loader do, each of the three returns a value: no
    exception reaches the caller. *)
Theorem unparseable_config_is_empty open_read safe_load repo_path path
    text e :
  open_read path = Ok text → safe_load text = Raise e →
  (get_called_pipelines open_read safe_load path = Ok ∅ ∧
   get_defined_pipelines open_read safe_load path = Ok ∅ ∧
   get_defined_nodes open_read safe_load repo_path path = Ok ∅) ∧
  (∀ open_read' safe_load' repo_path' path',
     (∃ v, get_called_pipelines open_read' safe_load' path' = Ok v) ∧
     (∃ v, get_defined_pipelines open_read' safe_load' path' = Ok v) ∧
     (∃ v, get_defined_nodes open_read' safe_load' repo_path' path' = Ok v)).
Proof.
  intros Hopen Hload. split.
  - unfold get_called_pipelines, get_defined_pipelines, get_defined_nodes.
    rewrite Hopen. cbn. rewrite Hload. done.
  - intros. split_and!; apply try_except_Ok.
Qed.

Lemma unparseable_config_is_empty_witness :
  (get_called_pipelines (Samples.one_file "pipelines.yml" "a: [b")
     Samples.load_fails "pipelines.yml" = Ok ∅ ∧
   get_defined_pipelines (Samples.one_file "pipelines.yml" "a: [b")
     Samples.load_fails "pipelines.yml" = Ok ∅ ∧
   get_defined_nodes (Samples.one_file "pipelines.yml" "a: [b")
     Samples.load_fails (λ p, p) "pipelines.yml" = Ok ∅) ∧
  (∀ open_read' safe_load' repo_path' path',
     (∃ v, get_called_pipelines open_read' safe_load' path' = Ok v) ∧
     (∃ v, get_defined_pipelines open_read' safe_load' path' = Ok v) ∧
     (∃ v, get_defined_nodes open_read' safe_load' repo_path' path' = Ok v)).
Proof.
  apply (unparseable_config_is_empty
           (Samples.one_file "pipelines.yml" "a: [b") Samples.load_fails
           (λ p, p) "pipelines.yml" "a: [b" YAMLError); reflexivity.
Defined.

(** An absent file, in general: [build_context] returns the dictionary of
    the provider, the other two raise. *)
Lemma absent_file open_read parse path dep codebase_dict :
  open_read path = Raise FileNotFoundError →
  open_read (if Py.contains ".py" path then path else path ++ ".py")
    = Raise FileNotFoundError →
  build_context open_read parse path codebase_dict = Ok codebase_dict ∧
  get_file_docstring open_read parse path = Raise FileNotFoundError ∧
  get_dep_func open_read parse path dep = Raise FileNotFoundError.
Proof.
  intros H1 H2.
  unfold build_context, get_file_docstring, get_dep_func.
  rewrite H1, H2. done.
Qed.

(** C3. With no file at the path, [build_context] returns the empty
    dictionary of a new provider; [get_file_docstring] and [get_dep_func]
    do not return the absent option: each raises [FileNotFoundError]. *)
Theorem absent_file_outcomes :
  build_context Samples.no_file Samples.parse_sample "missing.py" ∅ = Ok ∅ ∧
  get_file_docstring Samples.no_file Samples.parse_sample "missing.py"
    = Raise FileNotFoundError ∧
  get_dep_func Samples.no_file Samples.parse_sample "missing" "f"
    = Raise FileNotFoundError.
Proof. split_and!; reflexivity. Qed.

End ProviderFacts.

(** ** Diff attribution, exactly *)

Module AttributionFacts.
Import Diff Attribution DiffFacts ResultFacts.

Lemma with_lines_nil f : with_lines [] [] f = f.
Proof. destruct f. unfold with_lines. cbn. by rewrite !app_nil_r. Qed.

Lemma with_lines_with_lines A R A' R' f :
  with_lines A' R' (with_lines A R f) =
  with_lines (A ++ A') (R ++ R') f.
Proof. unfold with_lines. cbn. by rewrite !app_assoc. Qed.

Lemma record_added_exact ls line f :
  record_added ls line f = with_lines (lines_numbered ls line) [] f.
Proof.
  revert f. induction ls as [|l ls IH]; intros f.
  - cbn. by rewrite with_lines_nil.
  - rewrite record_added_cons, IH. unfold lines_numbered.
    rewrite filter_cons.
    destruct (Z.eqb_spec (line_num l) line) as [Heq|Hne].
    + rewrite decide_True by done.
      unfold addInformation, with_lines; cbn.
      by rewrite ?app_nil_r, <- ?app_assoc.
    + by rewrite decide_False by done.
Qed.

Lemma record_removed_exact ls line f :
  record_removed ls line f = with_lines [] (lines_numbered ls line) f.
Proof.
  revert f. induction ls as [|l ls IH]; intros f.
  - cbn. by rewrite with_lines_nil.
  - rewrite record_removed_cons, IH. unfold lines_numbered.
    rewrite filter_cons.
    destruct (Z.eqb_spec (line_num l) line) as [Heq|Hne].
    + rewrite decide_True by done.
      unfold addInformation, with_lines; cbn.
      by rewrite ?app_nil_r, <- ?app_assoc.
    + by rewrite decide_False by done.
Qed.

(** What the body of the inner loop appends. *)
Lemma record_line_exact a r line f :
  record_line a r line f =
  with_lines
    (if bool_decide (line ∈ (line_num <$> a))
     then lines_numbered a line else [])
    (if bool_decide (line ∉ (line_num <$> a) ∧ line ∈ (line_num <$> r))
     then lines_numbered r line else []) f.
Proof.
  unfold record_line.
  destruct (bool_decide_reflect (line ∈ (line_num <$> a))) as [Ha|Ha].
  - rewrite bool_decide_eq_false_2 by naive_solver.
    apply record_added_exact.
  - destruct (bool_decide_reflect (line ∈ (line_num <$> r))) as [Hr|Hr].
    + rewrite bool_decide_eq_true_2 by done. apply record_removed_exact.
    + rewrite bool_decide_eq_false_2 by naive_solver.
      by rewrite with_lines_nil.
Qed.

Lemma in_span_b_spans f line : in_span_b line f = true ↔ spans f line.
Proof.
  unfold in_span_b, spans. split.
  - destruct (start_line f) as [s|], (end_line f) as [e|]; try done.
    intros [?%Z.leb_le ?%Z.leb_le]%andb_true_iff. by exists s, e.
  - intros (s & e & -> & -> & ? & ?).
    apply andb_true_iff. split; by apply Z.leb_le.
Qed.

Lemma first_index_spec fs line j :
  first_index fs line = Some j ↔ first_spanning fs line j.
Proof.
  unfold first_index, first_spanning. split.
  - intros Hfind. apply fmap_Some in Hfind as ([k f] & Hfind & ->).
    apply list_find_Some in Hfind as (Hf & Hs & Hlt). cbn. split.
    + exists f. split; [done|]. by apply in_span_b_spans.
    + intros i g Hi Hg Hsp. apply (Hlt i g Hg Hi). by apply in_span_b_spans.
  - intros [(f & Hf & Hs) Hlt]. apply fmap_Some. exists (j, f).
    split; [|done]. apply list_find_Some. split_and!; [done| |].
    + by apply in_span_b_spans.
    + intros i g Hg Hi Hsp. apply (Hlt i g Hi Hg). by apply in_span_b_spans.
Qed.

Lemma first_index_same fs fs' line :
  same_spans fs fs' → first_index fs line = first_index fs' line.
Proof.
  intros Hsame. apply option_eq. intros j.
  rewrite !first_index_spec. by apply first_spanning_same.
Qed.

(** One run of the inner loop, with the set of modified functions. *)
Lemma scan_full a r line n i st :
  (∀ j f, functions st !! j = Some f → has_span f) →
  ∃ st', scan a r line n i st = Ok st' ∧
    ((∃ j f, (i ≤ j < i + n)%nat ∧ functions st !! j = Some f ∧
             spans f line ∧
             (∀ k g, (i ≤ k < j)%nat → functions st !! k = Some g →
                     ¬ spans g line) ∧
             st' = {| functions :=
                        <[j := record_line a r line f]> (functions st);
                      modified_functions :=
                        set_add (<[j := record_line a r line f]>
                                   (functions st)) j
                                (modified_functions st) |})
     ∨ ((∀ k g, (i ≤ k < i + n)%nat → functions st !! k = Some g →
                ¬ spans g line) ∧ st' = st)).
Proof.
  intros Hsp. revert i. induction n as [|n IH]; intros i; cbn.
  - exists st. split; [done|]. right. split; [|done]. intros; lia.
  - destruct (functions st !! i) as [f|] eqn:Hf.
    + destruct (in_span_spec f line (Hsp _ _ Hf)) as (b & -> & Hb). cbn.
      destruct b.
      * eexists. split; [done|]. left. exists i, f.
        split_and!; try done; try lia; try (by apply Hb); intros; lia.
      * destruct (IH (S i)) as (st' & -> & Hcases).
        exists st'. split; [done|].
        assert (¬ spans f line) as Hnot by (rewrite <- Hb; done).
        destruct Hcases as [(j & g & Hj & Hg & Hs & Hlt & Hst')|[Hno Hst']].
        -- left. exists j, g. split_and!; try done; try lia.
           intros k h Hk Hh. destruct (decide (k = i)) as [->|].
           ++ by simplify_eq.
           ++ eapply Hlt; [|done]. lia.
        -- right. split; [|done]. intros k h Hk Hh.
           destruct (decide (k = i)) as [->|].
           ++ by simplify_eq.
           ++ eapply Hno; [|done]. lia.
    + exists st. split; [done|]. right. split; [|done].
      intros k g Hk Hg. apply lookup_ge_None in Hf.
      apply lookup_lt_Some in Hg. lia.
Qed.

(** The inner loop over the whole list, in terms of [first_index]. *)
Lemma scan_first_index a r line st :
  (∀ j f, functions st !! j = Some f → has_span f) →
  ∃ st', scan a r line (length (functions st)) 0 st = Ok st' ∧
    match first_index (functions st) line with
    | Some j =>
        ∃ f, functions st !! j = Some f ∧
          st' = {| functions :=
                     <[j := record_line a r line f]> (functions st);
                   modified_functions :=
                     set_add (<[j := record_line a r line f]>
                                (functions st)) j
                             (modified_functions st) |}
    | None => st' = st
    end.
Proof.
  intros Hsp.
  destruct (scan_full a r line (length (functions st)) 0 st Hsp)
    as (st' & Hscan & Hcases).
  exists st'. split; [done|].
  destruct Hcases as [(j & f & Hj & Hf & Hs & Hlt & ->)|[Hno ->]].
  - assert (first_index (functions st) line = Some j) as ->.
    { apply first_index_spec. split; [by exists f|].
      intros k g Hk. apply Hlt. lia. }
    by exists f.
  - destruct (first_index (functions st) line) as [j|] eqn:Hfi; [|done].
    apply first_index_spec in Hfi as [(f & Hf & Hs) _].
    destruct (Hno j f); [|done..]. apply lookup_lt_Some in Hf. lia.
Qed.

Lemma attributed_lookup a r lines fs k :
  attributed a r lines fs !! k =
  with_lines (flat_map (added_for a r fs k) lines)
             (flat_map (removed_for a r fs k) lines) <$> fs !! k.
Proof. unfold attributed. by rewrite list_lookup_imap. Qed.

Lemma attributed_length a r lines fs :
  length (attributed a r lines fs) = length fs.
Proof. unfold attributed. by rewrite length_imap. Qed.

Lemma attributed_same_spans a r lines fs :
  same_spans fs (attributed a r lines fs).
Proof.
  split; [by rewrite attributed_length|].
  intros j f f' Hf. rewrite attributed_lookup, Hf. by intros [= <-].
Qed.

Lemma insert_same_spans fs j f g :
  fs !! j = Some f → start_line g = start_line f →
  end_line g = end_line f → same_spans fs (<[j := g]> fs).
Proof.
  intros Hf Hs He. split; [by rewrite length_insert|].
  intros k h h' Hh Hh'. destruct (decide (j = k)) as [->|Hne].
  - rewrite list_lookup_insert_eq in Hh' by (by eapply lookup_lt_Some).
    by simplify_eq.
  - rewrite list_lookup_insert_ne in Hh' by done. by simplify_eq.
Qed.

Lemma added_for_same a r fs fs' k line :
  same_spans fs fs' → added_for a r fs' k line = added_for a r fs k line.
Proof.
  intros H. unfold added_for. by rewrite (first_index_same fs fs' line H).
Qed.

Lemma removed_for_same a r fs fs' k line :
  same_spans fs fs' → removed_for a r fs' k line = removed_for a r fs k line.
Proof.
  intros H. unfold removed_for. by rewrite (first_index_same fs fs' line H).
Qed.

(** One changed line number: the list and the set after the inner loop. *)
Lemma scan_step a r line fs M :
  (∀ j f, fs !! j = Some f → has_span f) →
  ∃ fs1 M1,
    scan a r line (length fs) 0 {| functions := fs; modified_functions := M |}
      = Ok {| functions := fs1; modified_functions := M1 |} ∧
    same_spans fs fs1 ∧ same_identity fs fs1 ∧
    (∀ k, fs1 !! k =
          with_lines (added_for a r fs k line)
                     (removed_for a r fs k line) <$> fs !! k) ∧
    M1 = match first_index fs line with
         | Some j => set_add fs1 j M
         | None => M
         end.
Proof.
  intros Hsp.
  destruct (scan_first_index a r line
              {| functions := fs; modified_functions := M |} Hsp)
    as (st1 & Hscan & Hst1).
  cbn [functions modified_functions] in Hscan, Hst1. rewrite Hscan.
  assert (∀ fs1, (∀ k, fs1 !! k =
                    with_lines (added_for a r fs k line)
                               (removed_for a r fs k line) <$> fs !! k) →
            same_identity fs fs1) as Hid.
  { intros fs1 Hfs1 k f f' Hf. rewrite Hfs1, Hf. by intros [= <-]. }
  destruct (first_index fs line) as [j|] eqn:Hfi.
  - destruct Hst1 as (f & Hf & ->). eexists _, _. split; [done|].
    destruct (record_line_spec a r line f) as (Hs & He & _).
    assert (∀ k, <[j := record_line a r line f]> fs !! k =
                 with_lines (added_for a r fs k line)
                            (removed_for a r fs k line) <$> fs !! k) as Hk.
    { intros k. unfold added_for, removed_for. rewrite Hfi.
      destruct (decide (j = k)) as [->|Hne].
      + rewrite list_lookup_insert_eq by (by eapply lookup_lt_Some).
        rewrite Hf. cbn. rewrite record_line_exact.
        rewrite (bool_decide_ext (Some k = Some k ∧ line ∈ (line_num <$> a))
                   (line ∈ (line_num <$> a))) by naive_solver.
        rewrite (bool_decide_ext
                   (Some k = Some k ∧ line ∉ (line_num <$> a) ∧
                    line ∈ (line_num <$> r))
                   (line ∉ (line_num <$> a) ∧ line ∈ (line_num <$> r)))
          by naive_solver.
        done.
      + rewrite list_lookup_insert_ne by done.
        rewrite !bool_decide_eq_false_2 by naive_solver.
        destruct (fs !! k); cbn; [|done]. by rewrite with_lines_nil. }
    split_and!; [by eapply insert_same_spans|by apply Hid|done|done].
  - subst st1. exists fs, M. split; [done|].
    assert (∀ k, fs !! k =
                 with_lines (added_for a r fs k line)
                            (removed_for a r fs k line) <$> fs !! k) as Hk.
    { intros k. unfold added_for, removed_for. rewrite Hfi.
      rewrite !bool_decide_eq_false_2 by naive_solver.
      destruct (fs !! k); cbn; [|done]. by rewrite with_lines_nil. }
    split_and!; [|by apply Hid|done|done].
    split; [done|]. intros ? ? ? ? ?. by simplify_eq.
Qed.

Lemma same_spans_has_span fs fs1 :
  same_spans fs fs1 →
  (∀ j f, fs !! j = Some f → has_span f) →
  ∀ j f, fs1 !! j = Some f → has_span f.
Proof.
  intros [Hlen Hsame] Hsp j f Hf.
  destruct (lookup_lt_is_Some_2 fs j) as [f0 Hf0].
  { rewrite Hlen. eapply lookup_lt_Some; eauto. }
  destruct (Hsame _ _ _ Hf0 Hf) as [Hs He].
  destruct (Hsp _ _ Hf0). unfold has_span. by rewrite <- Hs, <- He.
Qed.

(** The outer loop, exactly: the list of functions it leaves. *)
Lemma for_lines_exact a r lines fs M :
  (∀ j f, fs !! j = Some f → has_span f) →
  ∃ st, for_lines a r lines {| functions := fs; modified_functions := M |}
        = Ok st ∧
        functions st = attributed a r lines fs.
Proof.
  revert fs M. induction lines as [|line lines IH]; intros fs M Hsp.
  - eexists. split; [done|]. cbn. apply list_eq. intros k.
    rewrite attributed_lookup. cbn.
    destruct (fs !! k) as [f|]; [|done]. cbn. by rewrite with_lines_nil.
  - cbn [for_lines functions modified_functions].
    destruct (scan_step a r line fs M Hsp)
      as (fs1 & M1 & -> & Hsame & _ & Hfs1 & _). cbn.
    destruct (IH fs1 M1 (same_spans_has_span _ _ Hsame Hsp))
      as (st & Hfor & Hfs).
    exists st. split; [done|]. rewrite Hfs. apply list_eq. intros k.
    rewrite !attributed_lookup, Hfs1. cbn [flat_map].
    destruct (fs !! k) as [f|]; [|done]. cbn.
    rewrite with_lines_with_lines. f_equal.
    f_equal; f_equal; apply flat_map_ext; intros L;
      [by apply added_for_same|by apply removed_for_same].
Qed.

(** *** The set of modified functions *)

Lemma Function_eq_refl f : Function_eq f f = true.
Proof. unfold Function_eq. by rewrite !String.eqb_refl. Qed.

Lemma Function_eq_identity f g f' g' :
  func_name f = func_name f' → func_code f = func_code f' →
  func_name g = func_name g' → func_code g = func_code g' →
  Function_eq f g = Function_eq f' g'.
Proof. unfold Function_eq. by intros -> -> -> ->. Qed.

Lemma set_add_cases fs i f M :
  fs !! i = Some f →
  (∃ j g, j ∈ M ∧ fs !! j = Some g ∧ Function_eq g f = true ∧
          set_add fs i M = M) ∨
  ((∀ j g, j ∈ M → fs !! j = Some g → Function_eq g f = false) ∧
   set_add fs i M = (M ++ [i])%list).
Proof.
  intros Hf. unfold set_add. rewrite Hf.
  destruct (existsb _ M) eqn:Hex.
  - left. apply existsb_exists in Hex as (j & Hj & Hp).
    destruct (fs !! j) as [g|] eqn:Hg; [|done].
    exists j, g. split_and!; try done. by apply list_elem_of_In.
  - right. split; [|done]. intros j g Hj Hg.
    destruct (Function_eq g f) eqn:Heq; [|done].
    assert (existsb (λ j, match fs !! j with
                          | Some g => Function_eq g f
                          | None => false
                          end) M = true) as Hex'; [|congruence].
    apply existsb_exists. exists j. split; [by apply list_elem_of_In|].
    by rewrite Hg.
Qed.

Lemma distinct_members_same fs fs' M :
  length fs = length fs' → same_identity fs fs' →
  distinct_members fs M → distinct_members fs' M.
Proof.
  intros Hlen Hid Hd p q i j f' g' Hpq Hp Hq Hf' Hg'.
  destruct (lookup_lt_is_Some_2 fs i) as [f Hf].
  { rewrite Hlen. by eapply lookup_lt_Some. }
  destruct (lookup_lt_is_Some_2 fs j) as [g Hg].
  { rewrite Hlen. by eapply lookup_lt_Some. }
  destruct (Hid _ _ _ Hf Hf'), (Hid _ _ _ Hg Hg').
  rewrite <- (Function_eq_identity f g f' g') by done.
  exact (Hd p q i j f g Hpq Hp Hq Hf Hg).
Qed.

Lemma same_identity_sym fs fs' :
  length fs = length fs' → same_identity fs fs' → same_identity fs' fs.
Proof. intros _ H j f f' Hf Hf'. destruct (H _ _ _ Hf' Hf). done. Qed.

(** The set after the outer loop: its members were picked for a line
    number of the loop (or were there before); every function picked is
    in it, or a Function equal to it is; and its members stay distinct. *)
Lemma for_lines_modified a r lines :
  ∀ fs M st,
  (∀ j f, fs !! j = Some f → has_span f) →
  for_lines a r lines {| functions := fs; modified_functions := M |}
    = Ok st →
  (∀ i, i ∈ modified_functions st →
        i ∈ M ∨ ∃ L, L ∈ lines ∧ first_index fs L = Some i) ∧
  (∀ i, i ∈ M → i ∈ modified_functions st) ∧
  (∀ L j g, L ∈ lines → first_index fs L = Some j → fs !! j = Some g →
     ∃ i f, i ∈ modified_functions st ∧ fs !! i = Some f ∧
            Function_eq f g = true) ∧
  (distinct_members fs M → distinct_members fs (modified_functions st)).
Proof.
  induction lines as [|line lines IH]; intros fs M st Hsp.
  - cbn. intros [= <-]. cbn. split_and!; try done; [naive_solver|].
    by intros L j g ?%elem_of_nil.
  - cbn [for_lines functions modified_functions].
    destruct (scan_step a r line fs M Hsp)
      as (fs1 & M1 & -> & Hsame & Hid & Hfs1 & HM1). cbn.
    intros Hfor.
    destruct (IH fs1 M1 st (same_spans_has_span _ _ Hsame Hsp) Hfor)
      as (Hmem & Hmono & Hcover & Hdist).
    pose proof (proj1 Hsame) as Hlen.
    assert (∀ i g, fs !! i = Some g →
              ∃ g1, fs1 !! i = Some g1 ∧ func_name g = func_name g1 ∧
                    func_code g = func_code g1) as Hto.
    { intros i g Hg. destruct (lookup_lt_is_Some_2 fs1 i) as [g1 Hg1].
      { rewrite <- Hlen. by eapply lookup_lt_Some. }
      exists g1. split; [done|]. by apply (Hid _ _ _ Hg Hg1). }
    assert (∀ i g1, fs1 !! i = Some g1 →
              ∃ g, fs !! i = Some g ∧ func_name g = func_name g1 ∧
                   func_code g = func_code g1) as Hfrom.
    { intros i g1 Hg1. destruct (lookup_lt_is_Some_2 fs i) as [g Hg].
      { rewrite Hlen. by eapply lookup_lt_Some. }
      exists g. split; [done|]. by apply (Hid _ _ _ Hg Hg1). }
    assert (∀ L, first_index fs1 L = first_index fs L) as Hfi.
    { intros L. symmetry. by apply first_index_same. }
    (* what the step did to the set *)
    assert ((∀ i, i ∈ M1 → i ∈ M ∨ first_index fs line = Some i) ∧
            (∀ i, i ∈ M → i ∈ M1) ∧
            (∀ j g, first_index fs line = Some j → fs !! j = Some g →
               ∃ i f, i ∈ M1 ∧ fs !! i = Some f ∧ Function_eq f g = true) ∧
            (distinct_members fs M → distinct_members fs M1))
      as (Hmem1 & Hmono1 & Hcover1 & Hdist1).
    { destruct (first_index fs line) as [j|] eqn:Hj; [|subst M1; naive_solver].
      pose proof (proj1 (first_index_spec fs line j) Hj) as [(g & Hg & _) _].
      destruct (Hto _ _ Hg) as (g1 & Hg1 & Hn & Hc).
      destruct (set_add_cases fs1 j g1 M Hg1)
        as [(k & h1 & Hk & Hh1 & Heq & HM)|[Hnone HM]];
        rewrite HM in HM1; subst M1.
      - split_and!; try done; [by auto|].
        intros j' g' [= <-] Hg'. simplify_eq.
        destruct (Hfrom _ _ Hh1) as (h & Hh & Hn' & Hc').
        exists k, h. split_and!; try done.
        by rewrite (Function_eq_identity h g h1 g1).
      - split_and!.
        + intros i [Hi| ->%list_elem_of_singleton]%elem_of_app; auto.
        + intros i Hi. apply elem_of_app. by left.
        + intros j' g' [= <-] Hg'. simplify_eq.
          exists j, g. split_and!; [|done|apply Function_eq_refl].
          apply elem_of_app. right. by apply list_elem_of_singleton.
        + intros Hd p q i i' f f' Hpq Hp Hq Hf Hf'.
          destruct (decide (q < length M)%nat) as [Hq'|Hq'].
          * rewrite lookup_app_l in Hq by done.
            rewrite lookup_app_l in Hp by lia.
            exact (Hd p q i i' f f' Hpq Hp Hq Hf Hf').
          * rewrite lookup_app_r in Hq by lia.
            apply list_lookup_singleton_Some in Hq as [Hq ->].
            rewrite lookup_app_l in Hp by lia.
            destruct (Hto _ _ Hf) as (f1 & Hf1 & ? & ?). simplify_eq.
            rewrite (Function_eq_identity f g f1 g1) by done.
            eapply Hnone; [|done]. by eapply list_elem_of_lookup_2. }
    split_and!.
    + intros i Hi. destruct (Hmem i Hi) as [Hi1|(L & HL & HLi)].
      * destruct (Hmem1 i Hi1) as [?|?]; [by left|].
        right. exists line. split; [by left|done].
      * right. exists L. split; [by right|]. by rewrite <- Hfi.
    + intros i Hi. auto.
    + intros L j g [->|HL]%elem_of_cons HLj Hg.
      * destruct (Hcover1 j g HLj Hg) as (i & f & Hi & Hf & Heq).
        exists i, f. split_and!; auto.
      * destruct (Hto _ _ Hg) as (g1 & Hg1 & ? & ?).
        rewrite <- Hfi in HLj.
        destruct (Hcover L j g1 HL HLj Hg1) as (i & f1 & Hi & Hf1 & Heq).
        destruct (Hfrom _ _ Hf1) as (f & Hf & ? & ?).
        exists i, f. split_and!; try done.
        by rewrite (Function_eq_identity f g f1 g1).
    + intros Hd.
      apply (distinct_members_same fs1 fs); [done| |].
      { by apply same_identity_sym. }
      apply Hdist. apply (distinct_members_same fs fs1); auto.
Qed.

Lemma Forall_has_span fs :
  Forall has_span fs → ∀ j f, fs !! j = Some f → has_span f.
Proof. intros H j f Hf. rewrite Forall_lookup in H. eauto. Qed.

(** *** The recorded Lines, whatever the order of the set *)

Lemma filter_none {A} (P : A → Prop) `{!∀ x, Decision (P x)} (l : list A) :
  (∀ x, x ∈ l → ¬ P x) → filter P l = [].
Proof.
  induction l as [|x l IH]; intros Hno; [done|].
  rewrite filter_cons, decide_False by (apply Hno; by left).
  apply IH. intros y Hy. apply Hno. by right.
Qed.

Lemma filter_ext_elem {A} (P Q : A → Prop) `{!∀ x, Decision (P x)}
    `{!∀ x, Decision (Q x)} (l : list A) :
  (∀ x, x ∈ l → (P x ↔ Q x)) → filter P l = filter Q l.
Proof.
  induction l as [|x l IH]; intros Heq; [done|].
  rewrite !filter_cons, IH by (intros y Hy; apply Heq; by right).
  pose proof (Heq x (list_elem_of_here _ _)) as Hx.
  destruct (decide (P x)) as [HP|HP], (decide (Q x)) as [HQ|HQ];
    try done; exfalso; tauto.
Qed.

(** The Lines of one more number, set beside those already counted. *)
Lemma filter_split_head (P : Z → Prop) `{!∀ L, Decision (P L)}
    (L : Z) (lines : list Z) (ls : list Line) :
  L ∉ lines →
  filter (λ l, P (line_num l) ∧ line_num l ∈ L :: lines) ls ≡ₚ
  ((if decide (P L) then lines_numbered ls L else []) ++
   filter (λ l, P (line_num l) ∧ line_num l ∈ lines) ls)%list.
Proof.
  intros HL. unfold lines_numbered.
  destruct (decide (P L)) as [HPL|HPL];
    (induction ls as [|l ls IH]; [done|]); rewrite !filter_cons.
  - destruct (decide (line_num l = L)) as [Hl|Hl].
    + rewrite decide_True by (rewrite Hl; split; [done|by left]).
      rewrite decide_False by (rewrite Hl; by intros [_ ?]).
      cbn. by f_equiv.
    + destruct (decide (P (line_num l) ∧ line_num l ∈ lines)) as [H2|H2].
      * rewrite decide_True by (split; [|right]; apply H2).
        rewrite <- Permutation_middle. by f_equiv.
      * rewrite decide_False; [done|].
        intros [? [?|?]%elem_of_cons]; [done|]. by apply H2.
  - cbn [app] in *.
    destruct (decide (P (line_num l) ∧ line_num l ∈ lines)) as [H2|H2].
    + rewrite decide_True by (split; [|right]; apply H2). by f_equiv.
    + rewrite decide_False; [done|].
      intros [? [Heq|?]%elem_of_cons]; [by rewrite Heq in *|]. by apply H2.
Qed.

Lemma flat_map_numbered (P : Z → Prop) `{!∀ L, Decision (P L)}
    (ls : list Line) (lines : list Z) :
  NoDup lines →
  flat_map (λ L, if decide (P L) then lines_numbered ls L else []) lines ≡ₚ
  filter (λ l, P (line_num l) ∧ line_num l ∈ lines) ls.
Proof.
  induction 1 as [|L lines HL _ IH].
  - cbn. rewrite filter_none; [done|].
    by intros l _ [_ ?%elem_of_nil].
  - cbn [flat_map]. rewrite IH. symmetry. by apply filter_split_head.
Qed.

Lemma lines_numbered_none ls L :
  L ∉ (line_num <$> ls) → lines_numbered ls L = [].
Proof.
  intros HL. apply filter_none. intros l Hl Heq. apply HL.
  apply list_elem_of_fmap. by exists l.
Qed.

Lemma added_for_decide a r fs j L :
  added_for a r fs j L =
  if decide (first_index fs L = Some j) then lines_numbered a L else [].
Proof.
  unfold added_for.
  destruct (decide (first_index fs L = Some j)) as [Hj|Hj].
  - destruct (decide (L ∈ (line_num <$> a))) as [Ha|Ha].
    + by rewrite bool_decide_eq_true_2.
    + rewrite bool_decide_eq_false_2 by (by intros [_ ?]).
      by rewrite lines_numbered_none.
  - by rewrite bool_decide_eq_false_2 by (by intros [? _]).
Qed.

Lemma removed_for_decide a r fs j L :
  removed_for a r fs j L =
  if decide (first_index fs L = Some j ∧ L ∉ (line_num <$> a))
  then lines_numbered r L else [].
Proof.
  unfold removed_for.
  destruct (decide (first_index fs L = Some j ∧ L ∉ (line_num <$> a)))
    as [[Hj Ha]|Hn].
  - destruct (decide (L ∈ (line_num <$> r))) as [Hr|Hr].
    + by rewrite bool_decide_eq_true_2.
    + rewrite bool_decide_eq_false_2 by (by intros (_ & _ & ?)).
      by rewrite lines_numbered_none.
  - rewrite bool_decide_eq_false_2; [done|].
    intros (? & ? & _). by apply Hn.
Qed.

Lemma NoDup_modified_lines a r : NoDup (modified_lines a r).
Proof. unfold modified_lines. apply NoDup_elements. Qed.

(** Whatever order the changed line numbers are gone through in, a
    function gets the same Lines. *)
Lemma attributed_lines a r lines fs j :
  lines ≡ₚ modified_lines a r →
  flat_map (added_for a r fs j) lines ≡ₚ added_of a fs j ∧
  flat_map (removed_for a r fs j) lines ≡ₚ removed_of a r fs j.
Proof.
  intros Hperm.
  assert (NoDup lines) as Hnd.
  { rewrite Hperm. apply NoDup_modified_lines. }
  assert (∀ L, L ∈ lines ↔
               L ∈ ((line_num <$> a) ++ (line_num <$> r))%list) as Hin.
  { intros L. rewrite Hperm. apply elem_of_modified_lines. }
  split.
  - rewrite (flat_map_ext _ _ (added_for_decide a r fs j)).
    rewrite (flat_map_numbered (λ L, first_index fs L = Some j) a lines Hnd).
    unfold added_of. erewrite filter_ext_elem; [done|].
    intros l Hl. cbn. split; [by intros [? _]|]. intros ?. split; [done|].
    apply Hin, elem_of_app. left. apply list_elem_of_fmap. by exists l.
  - rewrite (flat_map_ext _ _ (removed_for_decide a r fs j)).
    rewrite (flat_map_numbered
               (λ L, first_index fs L = Some j ∧ L ∉ (line_num <$> a))
               r lines Hnd).
    unfold removed_of. erewrite filter_ext_elem; [done|].
    intros l Hl. cbn. split; [by intros [? _]|]. intros ?. split; [done|].
    apply Hin, elem_of_app. right. apply list_elem_of_fmap. by exists l.
Qed.

(** X1. The outcome of [analyse_diff], exactly, whatever order the set of
    changed line numbers is gone through in. For functions that all have
    line numbers nothing is raised, and each function comes out as it went
    in with Lines appended to its two lists and nothing else changed: for
    every changed line number whose first spanning function it is, taken
    in the order of the loop, all the added Lines with that number, or,
    when the number is not among the added ones, all the removed Lines
    with that number. Up to their order these are the added Lines of the
    diff that belong to the function, and the removed ones. *)
Theorem analyse_diff_exact a r lines fs :
  Forall has_span fs →
  lines ≡ₚ modified_lines a r →
  ∃ st,
    for_lines a r lines {| functions := fs; modified_functions := [] |}
      = Ok st ∧
    functions st = attributed a r lines fs ∧
    ∀ j f, fs !! j = Some f →
      ∃ A R, functions st !! j = Some (with_lines A R f) ∧
             A ≡ₚ added_of a fs j ∧ R ≡ₚ removed_of a r fs j.
Proof.
  intros Hsp Hperm.
  destruct (for_lines_exact a r lines fs [] (Forall_has_span fs Hsp))
    as (st & Hst & Hfs).
  exists st. split_and!; [done..|].
  intros j f Hf. rewrite Hfs, attributed_lookup, Hf. cbn.
  eexists _, _. split; [done|]. by apply attributed_lines.
Qed.

Lemma analyse_diff_exact_witness :
  ∃ st,
    for_lines Samples.sample_added Samples.sample_removed [11; 4; 13]
      {| functions := Samples.sample_functions; modified_functions := [] |}
      = Ok st ∧
    functions st =
      attributed Samples.sample_added Samples.sample_removed [11; 4; 13]
        Samples.sample_functions ∧
    ∀ j f, Samples.sample_functions !! j = Some f →
      ∃ A R, functions st !! j = Some (with_lines A R f) ∧
             A ≡ₚ added_of Samples.sample_added Samples.sample_functions j ∧
             R ≡ₚ removed_of Samples.sample_added Samples.sample_removed
                    Samples.sample_functions j.
Proof.
  apply (analyse_diff_exact Samples.sample_added Samples.sample_removed
           [11; 4; 13] Samples.sample_functions).
  - unfold Samples.sample_functions. repeat constructor; cbn; by eexists.
  - apply (bool_decide_unpack _). vm_compute. exact I.
Defined.

(** X2. Running [analyse_diff] again on the list it has mutated records
    every Line a second time: what the first run appended to the two lists
    of a function is appended once more. *)
Theorem analyse_diff_twice a r fs :
  Forall has_span fs →
  ∃ st1 st2,
    analyse_diff a r fs = Ok st1 ∧
    analyse_diff a r (functions st1) = Ok st2 ∧
    ∀ j f, fs !! j = Some f →
      ∃ A R, functions st1 !! j = Some (with_lines A R f) ∧
             functions st2 !! j = Some (with_lines (A ++ A) (R ++ R) f).
Proof.
  intros Hsp. pose proof (Forall_has_span fs Hsp) as Hsp'.
  unfold analyse_diff.
  destruct (for_lines_exact a r (modified_lines a r) fs [] Hsp')
    as (st1 & Hst1 & Hfs1).
  pose proof (attributed_same_spans a r (modified_lines a r) fs) as Hsame.
  rewrite <- Hfs1 in Hsame.
  destruct (for_lines_exact a r (modified_lines a r) (functions st1) []
              (same_spans_has_span _ _ Hsame Hsp'))
    as (st2 & Hst2 & Hfs2).
  exists st1, st2. split_and!; [done..|].
  intros j f Hf. eexists _, _. split.
  - by rewrite Hfs1, attributed_lookup, Hf.
  - rewrite Hfs2, attributed_lookup, Hfs1, attributed_lookup, Hf. cbn.
    rewrite with_lines_with_lines. rewrite <- Hfs1. do 2 f_equal.
    + f_equal. apply flat_map_ext. intros L. by apply added_for_same.
    + f_equal. apply flat_map_ext. intros L. by apply removed_for_same.
Qed.

Lemma analyse_diff_twice_witness :
  ∃ st1 st2,
    analyse_diff Samples.sample_added Samples.sample_removed
      Samples.sample_functions = Ok st1 ∧
    analyse_diff Samples.sample_added Samples.sample_removed
      (functions st1) = Ok st2 ∧
    ∀ j f, Samples.sample_functions !! j = Some f →
      ∃ A R, functions st1 !! j = Some (with_lines A R f) ∧
             functions st2 !! j = Some (with_lines (A ++ A) (R ++ R) f).
Proof.
  apply (analyse_diff_twice Samples.sample_added Samples.sample_removed
           Samples.sample_functions).
  unfold Samples.sample_functions. repeat constructor; cbn; by eexists.
Defined.

(** X3. The set stored in [modified_func_dict]. Every member is the first
    spanning function of some changed line number; every function that is
    the first to span a changed line number is in the set, or a Function
    equal to it by [__eq__] (same name and code) is; and no two members
    are equal by [__eq__]. *)
Theorem analyse_diff_modified_set a r fs :
  Forall has_span fs →
  ∃ st, analyse_diff a r fs = Ok st ∧
    (∀ i, i ∈ modified_functions st →
       ∃ L, L ∈ ((line_num <$> a) ++ (line_num <$> r))%list ∧
            first_spanning fs L i) ∧
    (∀ L j g, L ∈ ((line_num <$> a) ++ (line_num <$> r))%list →
       first_spanning fs L j → fs !! j = Some g →
       ∃ i f, i ∈ modified_functions st ∧ fs !! i = Some f ∧
              Function_eq f g = true) ∧
    distinct_members fs (modified_functions st).
Proof.
  intros Hsp. pose proof (Forall_has_span fs Hsp) as Hsp'.
  destruct (for_lines_exact a r (modified_lines a r) fs [] Hsp')
    as (st & Hst & _).
  exists st. split; [done|].
  destruct (for_lines_modified a r (modified_lines a r) fs [] st Hsp' Hst)
    as (Hmem & _ & Hcover & Hdist).
  split_and!.
  - intros i Hi. destruct (Hmem i Hi) as [?%elem_of_nil|(L & HL & HLi)];
      [done|].
    exists L. split; [by apply elem_of_modified_lines|].
    by apply first_index_spec.
  - intros L j g HL Hj Hg. apply (Hcover L j g); [|by apply first_index_spec|done].
    by apply elem_of_modified_lines.
  - apply Hdist. intros p q i j f g _ ?. done.
Qed.

Lemma analyse_diff_modified_set_witness :
  ∃ st, analyse_diff Samples.sample_added Samples.sample_removed
          Samples.sample_functions = Ok st ∧
    (∀ i, i ∈ modified_functions st →
       ∃ L, L ∈ ((line_num <$> Samples.sample_added) ++
                 (line_num <$> Samples.sample_removed))%list ∧
            first_spanning Samples.sample_functions L i) ∧
    (∀ L j g, L ∈ ((line_num <$> Samples.sample_added) ++
                   (line_num <$> Samples.sample_removed))%list →
       first_spanning Samples.sample_functions L j →
       Samples.sample_functions !! j = Some g →
       ∃ i f, i ∈ modified_functions st ∧
              Samples.sample_functions !! i = Some f ∧
              Function_eq f g = true) ∧
    distinct_members Samples.sample_functions (modified_functions st).
Proof.
  apply (analyse_diff_modified_set Samples.sample_added
           Samples.sample_removed Samples.sample_functions).
  unfold Samples.sample_functions. repeat constructor; cbn; by eexists.
Defined.

(** X4. A function without line numbers, such as those [get_dep_func] and
    [get_fixtures] build, cannot be compared with a line number: when the
    first function of the list has no [start_line] and there is a changed
    line, [analyse_diff] raises [TypeError]. *)
Theorem analyse_diff_no_span a r f fs L :
  start_line f = None →
  L ∈ ((line_num <$> a) ++ (line_num <$> r))%list →
  analyse_diff a r (f :: fs) = Raise TypeError.
Proof.
  intros Hs HL. unfold analyse_diff.
  apply elem_of_modified_lines in HL.
  destruct (modified_lines a r) as [|L0 lines]; [by apply elem_of_nil in HL|].
  cbn. unfold in_span. by rewrite Hs.
Qed.

Lemma analyse_diff_no_span_witness :
  analyse_diff Samples.sample_added Samples.sample_removed
    (bare_function "g" "def g(): pass" :: Samples.sample_functions)
  = Raise TypeError.
Proof.
  apply (analyse_diff_no_span Samples.sample_added Samples.sample_removed
           (bare_function "g" "def g(): pass") Samples.sample_functions 4).
  - reflexivity.
  - cbn. apply list_elem_of_here.
Defined.

End AttributionFacts.

(** ** More on extraction and lookup *)

Module LookupFacts.
Import Tree Extract Provider Lookup Attribution.
Import Py PyFacts ResultFacts ExtractFacts.

Lemma first_named_app code dep l1 l2 :
  first_named code dep (l1 ++ l2) =
  found ← first_named code dep l1;
  match found with
  | Some _ => Ok found
  | None => first_named code dep l2
  end.
Proof.
  induction l1 as [|n l1 IH]; [done|]. cbn [app first_named].
  destruct (is_type "function_definition" n); [|done].
  destruct (name_text n) as [name|e]; [|done]. cbn.
  destruct (String.eqb name dep); [|done].
  by destruct (_extract_code code n).
Qed.

Lemma dep_func_visit_eq code dep n :
  dep_func_visit code dep n =
  let search_children :=
    fold_left (λ r child,
                 found ← r;
                 match found with
                 | Some _ => Ok found
                 | None => dep_func_visit code dep child
                 end) (children n) (Ok None) in
  if is_type "function_definition" n then
    func_name ← name_text n;
    if String.eqb func_name dep then
      dep_code ← _extract_code code n;
      Ok (Some (Function_init func_name dep_code None None None None
                  None None None))
    else search_children
  else search_children.
Proof. by destruct n. Qed.

(** The search of [get_dep_func] is a search through the nodes of the
    tree in document order. *)
Lemma dep_func_visit_first code dep n :
  dep_func_visit code dep n = first_named code dep (subtree n).
Proof.
  induction n as [t b f s e x cs IH] using Node_ind'.
  rewrite dep_func_visit_eq, subtree_eq.
  set (n := mkNode t b f s e x cs). cbn [children first_named].
  assert (∀ r0,
            fold_left (λ r child,
                         found ← r;
                         match found with
                         | Some _ => Ok found
                         | None => dep_func_visit code dep child
                         end) cs r0 =
            found ← r0;
            match found with
            | Some _ => Ok found
            | None => first_named code dep (flat_map subtree cs)
            end) as Hfold.
  { induction IH as [|c cs Hc _ IHcs]; intros r0; cbn [fold_left flat_map].
    - destruct r0 as [[?|]|]; done.
    - rewrite IHcs, first_named_app, Hc.
      destruct r0 as [[F|]|e0]; cbn; [done| |done].
      by destruct (first_named code dep (subtree c)) as [[?|]|]. }
  cbn zeta. rewrite Hfold. cbn.
  destruct (is_type "function_definition" n); [|done].
  destruct (name_text n) as [name|]; [|done]. cbn.
  by destruct (String.eqb name dep).
Qed.

Lemma first_named_Some code dep nodes F :
  first_named code dep nodes = Ok (Some F) →
  ∃ n c, n ∈ nodes ∧ is_type "function_definition" n = true ∧
         name_text n = Ok dep ∧ _extract_code code n = Ok c ∧
         F = bare_function dep c.
Proof.
  induction nodes as [|n nodes IH]; cbn; [done|].
  destruct (is_type "function_definition" n) eqn:Hdef.
  - destruct (name_text n) as [name|] eqn:Hname; [|done]. cbn.
    destruct (String.eqb_spec name dep) as [->|Hne].
    + intros (c & Hc & [= <-])%bind_Ok. exists n, c.
      split_and!; try done. by left.
    + intros (m & c & Hm & H)%IH. exists m, c. split; [by right|done].
  - intros (m & c & Hm & H)%IH. exists m, c. split; [by right|done].
Qed.

(** X5. [get_dep_func] returns the first function definition named [dep]
    among all the nodes of the file in document order, definitions nested
    in other definitions included; a definition without a name met before
    it is an [AttributeError], and a file with no such definition gives
    no Function. *)
Theorem get_dep_func_first open_read parse path dep :
  get_dep_func open_read parse path dep =
  code ← open_read (if Py.contains ".py" path then path else path ++ ".py");
  first_named code dep (subtree (parse code)).
Proof.
  unfold get_dep_func.
  destruct (open_read _) as [code|]; [|done]. cbn.
  apply dep_func_visit_first.
Qed.

(** X6. A Function that [get_dep_func] returns carries the name asked
    for and the de-indented code of a definition of that name in the file
    read, and nothing else: no dependency list, no line numbers, no
    class. *)
Theorem get_dep_func_bare open_read parse path dep F :
  get_dep_func open_read parse path dep = Ok (Some F) →
  ∃ code n c,
    open_read (if Py.contains ".py" path then path else path ++ ".py")
      = Ok code ∧
    n ∈ subtree (parse code) ∧ is_type "function_definition" n = true ∧
    name_text n = Ok dep ∧ _extract_code code n = Ok c ∧
    is_dedented c = true ∧ F = bare_function dep c.
Proof.
  unfold get_dep_func.
  intros (code & Hopen & H)%bind_Ok. rewrite dep_func_visit_first in H.
  apply first_named_Some in H as (n & c & Hn & Hdef & Hname & Hc & ->).
  exists code, n, c. split_and!; try done.
  by eapply extract_code_dedented.
Qed.

Lemma get_dep_func_bare_witness :
  ∃ code n c,
    Samples.one_file "m.py" Samples.module_code
      (if Py.contains ".py" "m" then "m" else "m" ++ ".py") = Ok code ∧
    n ∈ subtree ((λ _, Samples.module_root) code) ∧
    is_type "function_definition" n = true ∧
    name_text n = Ok "inner" ∧ _extract_code code n = Ok c ∧
    is_dedented c = true ∧ inner_function = bare_function "inner" c.
Proof.
  apply (get_dep_func_bare (Samples.one_file "m.py" Samples.module_code)
           (λ _, Samples.module_root) "m" "inner" inner_function).
  vm_compute. reflexivity.
Defined.

(** *** Docstrings *)

Lemma docstring_in_block_passed code pre rest :
  Forall (λ c, passed_over c = true) pre →
  docstring_in_block code (pre ++ rest) = docstring_in_block code rest.
Proof.
  induction 1 as [|c pre Hc _ IH]; [done|]. cbn [app docstring_in_block].
  unfold passed_over in Hc.
  destruct (is_type "expression_statement" c); [|done].
  destruct (children c) as [|first ?]; [done|].
  by destruct (is_type "string" first).
Qed.

Lemma docstring_in_children_skip code before rest :
  Forall (λ c, is_type "block" c = false) before →
  docstring_in_children code (before ++ rest) =
  docstring_in_children code rest.
Proof.
  induction 1 as [|c before Hc _ IH]; [done|].
  cbn [app docstring_in_children]. by rewrite Hc.
Qed.

(** X7. The docstring of a definition is taken from the first expression
    statement of its body that starts with a string, wherever in the body
    that statement stands: statements of other kinds before it are passed
    over. Its line numbers are the rows of the string plus one, its
    content the de-indented lines of the string. *)
Theorem extract_docstring_first_string code node before block after
    pre s post d ds :
  children node = (before ++ block :: after)%list →
  Forall (λ c, is_type "block" c = false) before →
  is_type "block" block = true →
  children block = (pre ++ s :: post)%list →
  Forall (λ c, passed_over c = true) pre →
  is_type "expression_statement" s = true →
  children s = d :: ds →
  is_type "string" d = true →
  _extract_docstring code node =
    docstring_content ← _extract_code code d;
    Ok (Some {| doc_start_line := Z.of_nat (start_row d) + 1;
                doc_end_line := Z.of_nat (end_row d) + 1;
                doc_content := docstring_content |}).
Proof.
  intros Hnode Hbefore Hblock Hbody Hpre Hs Hd Hstr.
  unfold _extract_docstring.
  rewrite Hnode, docstring_in_children_skip by done.
  cbn [docstring_in_children]. rewrite Hblock, Hbody.
  rewrite docstring_in_block_passed by done.
  cbn [docstring_in_block]. rewrite Hs, Hd, Hstr.
  by destruct (_extract_code code d).
Qed.

Lemma extract_docstring_first_string_witness :
  _extract_docstring late_code late_def =
    docstring_content ← _extract_code late_code late_string;
    Ok (Some {| doc_start_line := Z.of_nat (start_row late_string) + 1;
                doc_end_line := Z.of_nat (end_row late_string) + 1;
                doc_content := docstring_content |}).
Proof.
  apply (extract_docstring_first_string late_code late_def
           [Samples.ident (Some "name") (0, 4)%nat (0, 5)%nat "f";
            Samples.node "parameters" (Some "parameters") (0, 5)%nat
              (0, 7)%nat []]
           late_block []
           [Samples.node "expression_statement" None (1, 4)%nat (1, 9)%nat
              [Samples.node "assignment" None (1, 4)%nat (1, 9)%nat
                 [Samples.ident (Some "left") (1, 4)%nat (1, 5)%nat "x";
                  Samples.node "integer" (Some "right") (1, 8)%nat
                    (1, 9)%nat []]]]
           (Samples.node "expression_statement" None (2, 4)%nat (2, 10)%nat
              [late_string])
           [] late_string []).
  - reflexivity.
  - repeat constructor.
  - reflexivity.
  - reflexivity.
  - repeat constructor.
  - reflexivity.
  - reflexivity.
  - reflexivity.
Defined.

(** X8. A definition in whose body every statement is passed over (no
    expression statement that starts with a string) has no docstring, and
    the search raises nothing. *)
Theorem extract_docstring_none code node :
  Forall (λ c, is_type "block" c = true →
               Forall (λ b, passed_over b = true) (children c))
         (children node) →
  _extract_docstring code node = Ok None.
Proof.
  unfold _extract_docstring. induction 1 as [|c cs Hc _ IH]; [done|].
  cbn [docstring_in_children].
  destruct (is_type "block" c); [|done].
  specialize (Hc eq_refl).
  pose proof (docstring_in_block_passed code (children c) [] Hc) as Hb.
  rewrite app_nil_r in Hb. by rewrite Hb.
Qed.

Lemma extract_docstring_none_witness :
  _extract_docstring Samples.sample_code Samples.sample_def = Ok None.
Proof.
  apply (extract_docstring_none Samples.sample_code Samples.sample_def).
  vm_compute. repeat constructor; intros; try discriminate;
    repeat constructor.
Defined.

(** *** Classes *)

Lemma no_class_children n :
  no_class n = true →
  is_type "class_definition" n = false ∧
  Forall (λ c, no_class c = true) (children n).
Proof.
  unfold no_class. rewrite subtree_eq. cbn [forallb].
  intros [Hn Hcs]%andb_true_iff. split; [by apply negb_true_iff|].
  apply Forall_forall. intros c Hc. apply forallb_forall. intros m Hm.
  rewrite forallb_forall in Hcs. apply Hcs, in_flat_map.
  exists c. split; [by apply list_elem_of_In|done].
Qed.

Lemma fold_visit_post code root cls (Q : Function → Prop) cs :
  Forall (λ c, ∀ acc fs, visit code root c cls acc = Ok fs →
            ∃ new, fs = (acc ++ new)%list ∧ Forall Q new) cs →
  ∀ acc fs,
    fold_left (λ r child, acc' ← r; visit code root child cls acc')
              cs (Ok acc) = Ok fs →
    ∃ new, fs = (acc ++ new)%list ∧ Forall Q new.
Proof.
  induction 1 as [|c cs Hc _ IH]; intros acc fs; cbn [fold_left].
  - intros [= <-]. exists []. by rewrite app_nil_r.
  - cbn. destruct (visit code root c cls acc) as [acc1|e] eqn:Hv.
    + intros Hfold. destruct (Hc _ _ Hv) as (new1 & -> & H1).
      destruct (IH _ _ Hfold) as (new2 & -> & H2).
      exists (new1 ++ new2)%list. rewrite app_assoc. split; [done|].
      by apply Forall_app.
    + assert (fold_left
                (λ r child, acc' ← r; visit code root child cls acc')
                cs (Raise e) = Raise e) as ->; [|done].
      apply (fold_bind_Raise (λ child acc', visit code root child cls acc')).
Qed.

(** Below a class every Function is a method. *)
Lemma visit_in_class code root n :
  ∀ c acc fs, visit code root n (Some c) acc = Ok fs →
    ∃ new, fs = (acc ++ new)%list ∧ Forall (λ F, is_method F = true) new.
Proof.
  induction n as [t b f s e x cs IH] using Node_ind'. intros c acc fs.
  rewrite visit_eq. set (n := mkNode t b f s e x cs). cbn [children].
  destruct (is_type "function_definition" n).
  - intros (F & HF & [= <-])%bind_Ok. exists [F]. split; [done|].
    apply make_function_spec in HF as (_ & _ & Hcls & _).
    repeat constructor. unfold is_method. by rewrite Hcls.
  - destruct (is_type "class_definition" n).
    + intros (cn & _ & Hfold)%bind_Ok.
      apply (fold_visit_post code root (Some cn) _ cs); [|done].
      eapply Forall_impl; [exact IH|]. intros m Hm. apply Hm.
    + apply (fold_visit_post code root (Some c) _ cs).
      eapply Forall_impl; [exact IH|]. intros m Hm. apply Hm.
Qed.

(** Where there is no class definition the class handed down is kept. *)
Lemma visit_no_class code root n :
  no_class n = true →
  ∀ cls acc fs, visit code root n cls acc = Ok fs →
    ∃ new, fs = (acc ++ new)%list ∧ Forall (λ F, class_name F = cls) new.
Proof.
  induction n as [t b f s e x cs IH] using Node_ind'.
  intros [Hn Hcs]%no_class_children cls acc fs.
  rewrite visit_eq. set (n := mkNode t b f s e x cs) in *.
  cbn [children] in *.
  destruct (is_type "function_definition" n).
  - intros (F & HF & [= <-])%bind_Ok. exists [F]. split; [done|].
    apply make_function_spec in HF as (_ & _ & Hcls & _).
    by repeat constructor.
  - rewrite Hn. apply (fold_visit_post code root cls _ cs).
    apply Forall_forall. intros m Hm.
    rewrite Forall_forall in IH. rewrite Forall_forall in Hcs.
    intros acc' fs'. by apply IH; [|apply Hcs].
Qed.

(** X9. The class of an extracted Function. Whatever the traversal
    appends below a class definition is a method; where the subtree has no
    class definition the Functions get the class handed down, so none at
    the top of a file without classes; and the Functions of a class
    without classes inside it carry the name of that class. *)
Theorem extracted_class code root n cls acc fs :
  visit code root n cls acc = Ok fs →
  ∃ new, fs = (acc ++ new)%list ∧
    (is_Some cls → Forall (λ F, is_method F = true) new) ∧
    (no_class n = true → Forall (λ F, class_name F = cls) new) ∧
    (∀ c, is_type "function_definition" n = false →
          is_type "class_definition" n = true →
          name_text n = Ok c →
          Forall (λ m, no_class m = true) (children n) →
          Forall (λ F, class_name F = Some c) new).
Proof.
  intros Hv. destruct (visit_spec code root n cls acc fs Hv) as (new & -> & _).
  exists new. split; [done|]. split_and!.
  - intros [c ->]. destruct (visit_in_class _ _ _ _ _ _ Hv) as (new' & H & ?).
    by apply app_inv_head in H as <-.
  - intros Hn. destruct (visit_no_class _ _ _ Hn _ _ _ Hv) as (new' & H & ?).
    by apply app_inv_head in H as <-.
  - intros c Hdef Hcls Hname Hcs. rewrite visit_eq, Hdef, Hcls, Hname in Hv.
    cbn in Hv.
    destruct (fold_visit_post code root (Some c)
                (λ F, class_name F = Some c) (children n)) with acc
                (acc ++ new)%list as (new' & H & ?); [|done|].
    + eapply Forall_impl; [exact Hcs|]. intros m Hm acc' fs'.
      by apply visit_no_class.
    + by apply app_inv_head in H as <-.
Qed.

Lemma extracted_class_witness :
  ∃ new, [Samples.method_function] = ([] ++ new)%list ∧
    (is_Some (None : option string) →
       Forall (λ F, is_method F = true) new) ∧
    (no_class class_def = true →
       Forall (λ F, class_name F = None) new) ∧
    (∀ c, is_type "function_definition" class_def = false →
          is_type "class_definition" class_def = true →
          name_text class_def = Ok c →
          Forall (λ m, no_class m = true) (children class_def) →
          Forall (λ F, class_name F = Some c) new).
Proof.
  apply (extracted_class Samples.module_code Samples.module_root
           class_def None [] [Samples.method_function]).
  vm_compute. reflexivity.
Defined.

(** *** Imports *)

Lemma make_function_imports code root n cls F :
  make_function code root n cls = Ok F →
  ∃ imps, _extract_imports code root = Ok imps ∧ imports F = Some imps.
Proof.
  unfold make_function.
  intros (name & _ & (c & _ & (imps & Himps & H)%bind_Ok)%bind_Ok)%bind_Ok.
  cbn in H. apply bind_Ok in H as (doc & _ & [= <-]). cbn. eauto.
Qed.

(** X10. Every Function extracted from a file carries the same import
    list: the de-indented lines of every import statement of the whole
    tree, in document order, whether or not the function uses them and
    wherever the statement stands. *)
Theorem extraction_shares_imports codebase_path root code d fs F :
  _extract_info codebase_path ∅ root code = Ok d →
  d !! codebase_path = Some fs →
  F ∈ fs →
  ∃ imps, imports F = Some imps ∧
    Forall2 (λ n c, _extract_code code n = Ok c ∧ is_dedented c = true)
            (import_nodes root) imps.
Proof.
  intros Hinfo Hd HF.
  pose proof (extract_info_fresh _ _ _ _ _ Hinfo Hd) as Hv.
  apply visit_all_spec in Hv as (new & -> & Hall). cbn in HF.
  apply list_elem_of_lookup in HF as [i Hi].
  destruct (Forall2_lookup_r _ _ _ _ _ Hall Hi) as (n & Hn & [cls Hmk]).
  apply make_function_imports in Hmk as (imps & Himps & HF).
  exists imps. split; [done|].
  unfold _extract_imports in Himps. apply mapM_res_Ok in Himps.
  eapply Forall2_impl; [exact Himps|]. intros m c Hc. cbn in Hc.
  split; [done|]. by apply (extract_code_dedented code m).
Qed.

Lemma extraction_shares_imports_witness :
  ∃ imps, imports imports_function = Some imps ∧
    Forall2 (λ n c, _extract_code imports_code n = Ok c ∧
                    is_dedented c = true)
            (import_nodes imports_root) imps.
Proof.
  apply (extraction_shares_imports "i.py" imports_root imports_code
           (<["i.py" := imports_functions]> ∅)
           imports_functions imports_function).
  - vm_compute. reflexivity.
  - vm_compute. reflexivity.
  - vm_compute. apply list_elem_of_here.
Defined.

(** In the sample the function carries the import at the top of the file
    and the one inside its own body, de-indented. *)
Example extraction_imports_sample :
  length (import_nodes imports_root) = 2%nat ∧
  imports imports_function = Some ["import os"; "import sys"].
Proof. split; vm_compute; reflexivity. Qed.

(** *** Rows outside the text *)

Lemma index_lines_seq lines s k :
  (s + k ≤ length lines)%nat →
  mapM_res (index_line lines) (seq s k) = Ok (take k (drop s lines)).
Proof.
  revert s. induction k as [|k IH]; intros s Hlen; [done|].
  cbn [seq mapM_res]. rewrite IH by lia. unfold index_line.
  destruct (lines !! s) as [l|] eqn:Hl.
  - cbn. by rewrite (drop_S lines l s Hl).
  - apply lookup_ge_None in Hl. lia.
Qed.

Lemma index_lines_seq_raise lines s k :
  (length lines < s + k)%nat → (0 < k)%nat →
  mapM_res (index_line lines) (seq s k) = Raise IndexError.
Proof.
  revert s. induction k as [|k IH]; intros s Hlen Hk; [lia|].
  cbn [seq mapM_res]. destruct (decide (k = 0%nat)) as [->|Hk0].
  - unfold index_line. rewrite (proj2 (lookup_ge_None lines s)) by lia. done.
  - rewrite IH by lia. unfold index_line. by destruct (lines !! s).
Qed.

(** X11. [_extract_code] reads the rows of the node one by one. When the
    last row lies within the text, the result is the de-indented join of
    the lines from the first row to the last; when it lies beyond the last
    line of the text (a tree that does not belong to the text), the result
    is an [IndexError], not a shorter slice. *)
Theorem extract_code_bounds code n :
  (start_row n ≤ end_row n)%nat →
  if decide (end_row n < length (splitlines code))%nat
  then _extract_code code n =
       Ok (dedent (join_nl (take (S (end_row n) - start_row n)
                              (drop (start_row n) (splitlines code)))))
  else _extract_code code n = Raise IndexError.
Proof.
  intros Hrows. unfold _extract_code. cbn zeta.
  replace (end_row n + 1 - start_row n)%nat
    with (S (end_row n) - start_row n)%nat by lia.
  destruct (decide _) as [Hin|Hout].
  - by rewrite index_lines_seq by lia.
  - by rewrite index_lines_seq_raise by lia.
Qed.

Lemma extract_code_bounds_witness :
  if decide (end_row Samples.sample_def
             < length (splitlines "def f():"))%nat
  then _extract_code "def f():" Samples.sample_def =
       Ok (dedent (join_nl (take (S (end_row Samples.sample_def)
                                  - start_row Samples.sample_def)
                              (drop (start_row Samples.sample_def)
                                 (splitlines "def f():")))))
  else _extract_code "def f():" Samples.sample_def = Raise IndexError.
Proof.
  apply (extract_code_bounds "def f():" Samples.sample_def).
  vm_compute. lia.
Defined.

End LookupFacts.
(** ** Callers: the diff of one file, and the test cases of a function *)

Module TestsFacts.
Import Tree Extract Provider Diff Attribution Tests.
Import Py PyFacts ResultFacts ExtractFacts DiffFacts AttributionFacts.

(** What [get_functions_in_file] returns was built by the extraction. *)
Lemma get_functions_in_file_made open_read parse temp_path fs :
  get_functions_in_file open_read parse temp_path = Ok fs →
  fs = [] ∨
  ∃ code, open_read temp_path = Ok code ∧
    Forall2 (made_from code (parse code))
            (flat_map outer_definitions (children (parse code))) fs.
Proof.
  unfold get_functions_in_file, build_context.
  destruct (open_read temp_path) as [code|e] eqn:Hopen; cbn.
  - unfold _extract_info. rewrite lookup_empty. cbn.
    destruct (visit_all code (parse code) (children (parse code)) [])
      as [fs'|e] eqn:Hv; cbn.
    + rewrite lookup_insert_eq. cbn. intros [= <-]. right.
      exists code. split; [done|].
      by apply visit_all_spec in Hv as (new & -> & Hall).
    + destruct e; cbn; intros; simplify_eq. left.
      by rewrite lookup_empty.
  - destruct e; cbn; intros; simplify_eq. left. by rewrite lookup_empty.
Qed.

Lemma get_functions_in_file_fresh open_read parse temp_path fs :
  get_functions_in_file open_read parse temp_path = Ok fs →
  Forall fresh fs.
Proof.
  intros [->|(code & _ & Hall)]%get_functions_in_file_made; [done|].
  apply Forall_forall. intros F HF.
  apply list_elem_of_lookup in HF as [i Hi].
  destruct (Forall2_lookup_r _ _ _ _ _ Hall Hi) as (n & _ & [cls Hmk]).
  apply make_function_spec in Hmk as (_ & _ & _ & _ & Hs & He & Ha & Hr).
  unfold fresh. rewrite Hs, He. eauto.
Qed.

(** X12. Extraction followed by attribution, as [get_modified_functions]
    does for each file of the diff. What the extraction returns always has
    line numbers, so the attribution raises nothing on it; and since the
    two lists of an extracted Function start empty, each Function ends
    with exactly the Lines that belong to it, in some order: the added
    Lines whose number has it as first spanning function, and such
    removed Lines whose number is not among the added ones. *)
Theorem attribute_file_exact open_read parse temp_path a r fs :
  get_functions_in_file open_read parse temp_path = Ok fs →
  ∃ st, attribute_file open_read parse temp_path a r = Ok st ∧
    length (functions st) = length fs ∧
    ∀ j f, fs !! j = Some f →
      ∃ f', functions st !! j = Some f' ∧
        (∃ A R, f' = with_lines A R f) ∧
        added_lines f' ≡ₚ added_of a fs j ∧
        removed_lines f' ≡ₚ removed_of a r fs j.
Proof.
  intros Hfs. pose proof (get_functions_in_file_fresh _ _ _ _ Hfs) as Hfresh.
  unfold attribute_file. rewrite Hfs. cbn. unfold analyse_diff.
  destruct (for_lines_exact a r (modified_lines a r) fs []) as (st & Hst & H).
  { intros j f Hf. rewrite Forall_lookup in Hfresh.
    destruct (Hfresh j f Hf) as (? & ? & _). by split. }
  exists st. split_and!; [done|by rewrite H, attributed_length|].
  intros j f Hf. rewrite H, attributed_lookup, Hf. cbn.
  eexists. split; [done|]. split; [by eexists _, _|]. cbn.
  rewrite Forall_lookup in Hfresh.
  destruct (Hfresh j f Hf) as (_ & _ & -> & ->). cbn.
  by apply attributed_lines.
Qed.

Lemma attribute_file_exact_witness :
  ∃ st, attribute_file (Samples.one_file "m.py" Samples.module_code)
          (λ _, Samples.module_root) "m.py"
          Samples.sample_added Samples.sample_removed = Ok st ∧
    length (functions st) = length Samples.module_functions ∧
    ∀ j f, Samples.module_functions !! j = Some f →
      ∃ f', functions st !! j = Some f' ∧
        (∃ A R, f' = with_lines A R f) ∧
        added_lines f' ≡ₚ
          added_of Samples.sample_added Samples.module_functions j ∧
        removed_lines f' ≡ₚ
          removed_of Samples.sample_added Samples.sample_removed
            Samples.module_functions j.
Proof.
  apply (attribute_file_exact (Samples.one_file "m.py" Samples.module_code)
           (λ _, Samples.module_root) "m.py"
           Samples.sample_added Samples.sample_removed
           Samples.module_functions).
  vm_compute. reflexivity.
Defined.

(** In the sample the added Line 4 goes to the method of lines 2 to 5,
    and nothing to the function of lines 7 and 8. *)
Example attribute_file_sample :
  added_of Samples.sample_added Samples.module_functions 0
    = [{| line_num := 4; line_text := "x = 1" |}] ∧
  added_of Samples.sample_added Samples.module_functions 1 = [] ∧
  removed_of Samples.sample_added Samples.sample_removed
    Samples.module_functions 0 = [].
Proof. split_and!; vm_compute; reflexivity. Qed.

Lemma for_lines_no_functions a r lines :
  for_lines a r lines {| functions := []; modified_functions := [] |}
  = Ok {| functions := []; modified_functions := [] |}.
Proof.
  destruct (for_lines_exact a r lines [] []) as (st & Hst & Hfs); [done|].
  destruct (for_lines_modified a r lines [] [] st) as (Hmem & _);
    [done|done|].
  rewrite Hst. f_equal. destruct st as [fs M]. cbn in *. f_equal.
  - by rewrite Hfs.
  - destruct M as [|i M]; [done|]. exfalso.
    destruct (Hmem i) as [?%elem_of_nil|(L & _ & HL)]; [by left|done|].
    done.
Qed.

(** X13. A file of the diff that is not on disk (deleted by the pull
    request, or never downloaded) has no functions: the attribution
    returns an empty list and an empty set whatever the changed lines
    are, and raises nothing. *)
Theorem attribute_file_absent open_read parse temp_path a r :
  open_read temp_path = Raise FileNotFoundError →
  attribute_file open_read parse temp_path a r =
  Ok {| functions := []; modified_functions := [] |}.
Proof.
  intros Hopen. unfold attribute_file, get_functions_in_file, build_context.
  rewrite Hopen. cbn. rewrite lookup_empty. cbn.
  apply for_lines_no_functions.
Qed.

Lemma attribute_file_absent_witness :
  attribute_file Samples.no_file Samples.parse_sample "gone.py"
    Samples.sample_added Samples.sample_removed =
  Ok {| functions := []; modified_functions := [] |}.
Proof.
  apply (attribute_file_absent Samples.no_file Samples.parse_sample
           "gone.py" Samples.sample_added Samples.sample_removed).
  reflexivity.
Defined.

(** *** Grouping the test functions *)

Lemma add_test_case_lookup func acc x d :
  add_test_case func acc x !! d =
  if bool_decide (x = d) && contains x (func_name func)
  then Some (default [] (acc !! d) ++ [func])%list
  else acc !! d.
Proof.
  unfold add_test_case.
  destruct (contains x (func_name func)); [|by rewrite andb_false_r].
  rewrite andb_true_r. destruct (bool_decide_reflect (x = d)) as [->|Hne].
  - destruct (acc !! d) as [l|] eqn:Hl; by rewrite lookup_insert_eq.
  - destruct (acc !! x); by rewrite lookup_insert_ne.
Qed.

Lemma fold_add_test_case func deps :
  NoDup deps →
  ∀ acc d,
    fold_left (add_test_case func) deps acc !! d =
    if bool_decide (d ∈ deps) && contains d (func_name func)
    then Some (default [] (acc !! d) ++ [func])%list
    else acc !! d.
Proof.
  induction 1 as [|x deps Hx _ IH]; intros acc d; [done|].
  cbn [fold_left]. rewrite IH, add_test_case_lookup.
  destruct (bool_decide_reflect (x = d)) as [->|Hne].
  - rewrite (bool_decide_eq_false_2 (d ∈ deps)) by done.
    rewrite (bool_decide_eq_true_2 (d ∈ d :: deps)) by apply list_elem_of_here.
    done.
  - rewrite (bool_decide_ext (d ∈ x :: deps) (d ∈ deps)); [done|].
    rewrite elem_of_cons. naive_solver.
Qed.

Lemma grown_step o f fl (t : bool) :
  grown (if t then Some (default [] o ++ [f])%list else o) fl =
  grown o (if t then f :: fl else fl).
Proof.
  destruct t; [|done]. destruct o as [l|]; cbn.
  - by rewrite <- app_assoc.
  - done.
Qed.

Lemma group_test_cases_spec l :
  Forall (λ f, ∃ deps, dependencies f = Some deps ∧ NoDup deps) l →
  ∀ acc, ∃ r,
    group_test_cases l acc = Ok r ∧
    ∀ d, r !! d = grown (acc !! d) (filter (λ f, tests d f = true) l).
Proof.
  induction 1 as [|f l (deps & Hdeps & Hnd) _ IH]; intros acc.
  - exists acc. split; [done|]. intros d. cbn.
    destruct (acc !! d); cbn; by rewrite ?app_nil_r.
  - cbn [group_test_cases]. rewrite Hdeps.
    destruct (IH (fold_left (add_test_case f) deps acc)) as (r & -> & Hr).
    exists r. split; [done|]. intros d.
    rewrite Hr, (fold_add_test_case f deps Hnd), grown_step. f_equal.
    rewrite filter_cons.
    assert (tests d f = bool_decide (d ∈ deps) && contains d (func_name f))
      as Ht by (unfold tests; by rewrite Hdeps).
    rewrite <- Ht. destruct (tests d f).
    + by rewrite decide_True.
    + by rewrite decide_False.
Qed.

(** X14. [get_test_cases] puts a test function under each of its
    dependencies whose name is part of the name of the test function, and
    under nothing else. For a file that extraction can read, no
    exception is raised; the list kept under a name holds exactly the
    test functions that call that name and have it in their own name, in
    the order of the file, each once; and a name with no such test
    function is not a key. *)
Theorem get_test_cases_groups open_read parse test_file fs :
  get_functions_in_file open_read parse test_file = Ok fs →
  ∃ r, get_test_cases open_read parse test_file = Ok r ∧
    ∀ d, r !! d = match filter (λ f, tests d f = true) fs with
                  | [] => None
                  | f :: fl => Some (f :: fl)
                  end.
Proof.
  intros Hfs.
  assert (Forall (λ f, ∃ deps, dependencies f = Some deps ∧ NoDup deps) fs)
    as Hdeps.
  { apply get_functions_in_file_made in Hfs as [->|(code & _ & Hall)];
      [done|].
    apply Forall_forall. intros F HF.
    apply list_elem_of_lookup in HF as [i Hi].
    destruct (Forall2_lookup_r _ _ _ _ _ Hall Hi) as (n & _ & [cls Hmk]).
    apply make_function_spec in Hmk as (_ & _ & _ & Hd & _).
    eexists. split; [done|]. unfold _extract_dependencies.
    apply NoDup_elements. }
  unfold get_functions_in_file in Hfs.
  apply bind_Ok in Hfs as (ctx & Hctx & [= <-]).
  unfold get_test_cases. rewrite Hctx. cbn.
  destruct (group_test_cases_spec _ Hdeps ∅) as (r & -> & Hr).
  exists r. split; [done|]. intros d. rewrite Hr, lookup_empty.
  by destruct (filter _ _).
Qed.

Lemma get_test_cases_groups_witness :
  ∃ r, get_test_cases (Samples.one_file "test_m.py" tests_code)
         (λ _, tests_root) "test_m.py" = Ok r ∧
    ∀ d, r !! d = match filter (λ f, tests d f = true) tests_functions with
                  | [] => None
                  | f :: fl => Some (f :: fl)
                  end.
Proof.
  apply (get_test_cases_groups (Samples.one_file "test_m.py" tests_code)
           (λ _, tests_root) "test_m.py" tests_functions).
  vm_compute. reflexivity.
Defined.

(** In the sample the two tests of [add] are kept under [add], in the
    order of the file; [helper] is called by [test_other] but is not part
    of its name, so it is no key. *)
Example get_test_cases_sample :
  ∃ r, get_test_cases (Samples.one_file "test_m.py" tests_code)
         (λ _, tests_root) "test_m.py" = Ok r ∧
    (map func_name <$> r !! "add") = Some ["test_add"; "test_add_zero"] ∧
    r !! "helper" = None ∧
    dom r = {[ "add" ]}.
Proof.
  eexists. split; [vm_compute; reflexivity|].
  split_and!; vm_compute; reflexivity.
Qed.

(** *** Merging the test cases of a function *)

Lemma join_blank_cons c c' rest :
  join_blank (c :: c' :: rest) =
  c ++ String nl (String nl (join_blank (c' :: rest))).
Proof. done. Qed.

Lemma join_blank_merged a b l :
  join_blank ((a ++ String nl (String nl b)) :: l) =
  join_blank (a :: b :: l).
Proof.
  destruct l as [|c l]; [done|].
  rewrite (join_blank_cons a b), !(join_blank_cons _ c).
  by rewrite app_str_assoc, !app_str_cons.
Qed.

Lemma mergeFunctions_step A B :
  is_Some (dependencies A) → is_Some (dependencies B) →
  is_dedented (func_code A) = true → is_dedented (func_code B) = true →
  ∃ A', mergeFunctions A B = Ok A' ∧
    func_name A' = func_name A ∧
    func_code A' = func_code A ++ String nl (String nl (func_code B)) ∧
    is_dedented (func_code A') = true ∧
    is_Some (dependencies A') ∧
    deps_set A' = deps_set A ∪ deps_set B.
Proof.
  intros [dA HdA] [dB HdB] HA HB. unfold mergeFunctions, deps_set.
  rewrite HdA, HdB. cbn. eexists. split; [done|]. cbn.
  pose proof (dedented_join _ _ HA HB) as Hj.
  rewrite (dedented_fix _ Hj). split_and!; try done.
  apply list_to_set_elements_L.
Qed.

Lemma merge_rest_spec rest :
  Forall (λ F, is_dedented (func_code F) = true ∧
               is_Some (dependencies F)) rest →
  ∀ m names,
    is_dedented (func_code m) = true → is_Some (dependencies m) →
    ∃ m', merge_rest m rest names
            = Ok (m', (names ++ (func_name <$> rest))%list) ∧
      func_name m' = func_name m ∧
      func_code m' = join_blank (func_code m :: (func_code <$> rest)) ∧
      deps_set m' = deps_set m ∪ ⋃ (deps_set <$> rest).
Proof.
  induction 1 as [|t rest [Ht Htd] _ IH]; intros m names Hm Hmd.
  - exists m. cbn. rewrite app_nil_r. split_and!; try done.
    rewrite union_empty_r_L. done.
  - cbn [merge_rest].
    destruct (mergeFunctions_step m t Hmd Htd Hm Ht)
      as (m1 & -> & Hn1 & Hc1 & Hd1 & Hs1 & Hu1). cbn.
    destruct (IH m1 (names ++ [func_name t])%list Hd1 Hs1)
      as (m' & -> & Hn & Hc & Hu).
    exists m'. rewrite <- app_assoc. split_and!; try done.
    + by rewrite Hn.
    + rewrite Hc, Hc1. cbn [fmap list_fmap]. apply join_blank_merged.
    + rewrite Hu, Hu1. cbn [fmap list_fmap union_list foldr].
      set_solver.
Qed.

(** X15. The loop of [review_tested_functions] that merges the test
    cases of one function, for test functions as extraction gives them
    (de-indented code, a dependency list). It raises nothing; the merged
    Function is the first test case, with the codes of all of them in
    order, one empty line between two, and with the dependencies of all of
    them; the names collected are the names of the test cases in order. *)
Theorem merge_test_cases_joined f0 rest :
  Forall (λ F, is_dedented (func_code F) = true ∧
               is_Some (dependencies F)) (f0 :: rest) →
  ∃ m, merge_test_cases (f0 :: rest)
         = Ok (Some (m, func_name <$> (f0 :: rest))) ∧
    func_name m = func_name f0 ∧
    func_code m = join_blank (func_code <$> (f0 :: rest)) ∧
    deps_set m = ⋃ (deps_set <$> (f0 :: rest)).
Proof.
  intros Hall. apply Forall_cons in Hall as [[H0 H0d] Hrest].
  unfold merge_test_cases.
  destruct (merge_rest_spec rest Hrest f0 [func_name f0] H0 H0d)
    as (m & -> & Hn & Hc & Hu).
  exists m. split_and!; done.
Qed.

Lemma merge_test_cases_joined_witness :
  ∃ m, merge_test_cases [Samples.test_one; Samples.test_two]
         = Ok (Some (m, func_name <$> [Samples.test_one; Samples.test_two])) ∧
    func_name m = func_name Samples.test_one ∧
    func_code m =
      join_blank (func_code <$> [Samples.test_one; Samples.test_two]) ∧
    deps_set m = ⋃ (deps_set <$> [Samples.test_one; Samples.test_two]).
Proof.
  apply (merge_test_cases_joined Samples.test_one [Samples.test_two]).
  repeat constructor; by eexists.
Defined.

(** *** Fixtures of a test function *)

Lemma first_fixture_spec p all :
  (first_fixture p all = [] ∧ ∀ fx, fx ∈ all → func_name fx ≠ p) ∨
  ∃ i fx, first_fixture p all = [fx] ∧ first_fixture_at all p i fx.
Proof.
  induction all as [|g all IH]; [left; split; [done|]; by intros ? ?%elem_of_nil|].
  cbn [first_fixture]. unfold Function_eq_str.
  destruct (String.eqb_spec p (func_name g)) as [->|Hne].
  - right. exists 0%nat, g. split; [done|]. split_and!; [done..|].
    intros j ? ?. lia.
  - destruct IH as [[-> Hno]|(i & fx & -> & Hi & Hn & Hfirst)].
    + left. split; [done|].
      intros fx [->|?]%elem_of_cons; [done|by apply Hno].
    + right. exists (S i), fx. split; [done|]. split_and!; [done..|].
      intros [|j] g' Hj Hg'; cbn in Hg'; [by simplify_eq|].
      apply (Hfirst j); [lia|done].
Qed.

Lemma first_fixture_names p all :
  func_name <$> first_fixture p all = [p] ∨ first_fixture p all = [].
Proof.
  destruct (first_fixture_spec p all) as [[-> _]|(i & fx & -> & _ & <- & _)];
    [by right|by left].
Qed.

(** X16. The fixtures [get_relevant_fixture] picks for a test function
    with a parameter list. A fixture is returned exactly when it is the
    first of the fixtures with the name of one of the parameters, so of
    two fixtures with one name the second is never returned; the names of
    the result follow the order of the parameters, parameters that name
    no fixture being left out. *)
Theorem relevant_fixtures_first test_func all_fixtures fixtures_params :
  params test_func = Some fixtures_params →
  (∀ fx, fx ∈ get_relevant_fixture test_func all_fixtures ↔
         ∃ p i, p ∈ fixtures_params ∧ first_fixture_at all_fixtures p i fx) ∧
  sublist (func_name <$> get_relevant_fixture test_func all_fixtures)
          fixtures_params.
Proof.
  intros Hps. unfold get_relevant_fixture. rewrite Hps. split.
  - intros fx. rewrite list_elem_of_In, in_flat_map. split.
    + intros (p & Hp%list_elem_of_In & Hfx%list_elem_of_In).
      destruct (first_fixture_spec p all_fixtures)
        as [[Hnil _]|(i & fx' & Heq & Hat)]; rewrite ?Hnil, ?Heq in Hfx.
      * by apply elem_of_nil in Hfx.
      * apply list_elem_of_singleton in Hfx as ->. eauto.
    + intros (p & i & Hp & Hi & Hn & Hfirst). exists p.
      split; [by apply list_elem_of_In|]. apply list_elem_of_In.
      destruct (first_fixture_spec p all_fixtures)
        as [[_ Hno]|(i' & fx' & -> & Hi' & Hn' & Hfirst')].
      * destruct (Hno fx); [by eapply list_elem_of_lookup_2|done].
      * apply list_elem_of_singleton.
        destruct (Nat.lt_trichotomy i i') as [Hlt|[->|Hlt]].
        -- by destruct (Hfirst' i fx Hlt Hi).
        -- by simplify_eq.
        -- by destruct (Hfirst i' fx' Hlt Hi').
  - clear Hps. induction fixtures_params as [|p ps IH]; [done|].
    cbn [flat_map]. rewrite fmap_app.
    destruct (first_fixture_names p all_fixtures) as [->| ->]; cbn.
    + by apply sublist_skip.
    + by apply sublist_cons.
Qed.

Lemma relevant_fixtures_first_witness :
  (∀ fx, fx ∈ get_relevant_fixture param_test sample_fixtures ↔
         ∃ p i, p ∈ ["db"; "tmp"] ∧
                first_fixture_at sample_fixtures p i fx) ∧
  sublist (func_name <$> get_relevant_fixture param_test sample_fixtures)
          ["db"; "tmp"].
Proof.
  apply (relevant_fixtures_first param_test sample_fixtures ["db"; "tmp"]).
  reflexivity.
Defined.

End TestsFacts.
(** ** Configuration files: pipelines, nodes and the reviewer's settings *)

Module ConfigFacts.
Import Yaml Provider Config.
Import ResultFacts YamlFacts.

(** *** Called pipelines *)

Lemma called_visit_list items acc :
  called_visit (YList items) acc =
  fold_left (λ acc item, called_visit item acc) items acc.
Proof. reflexivity. Qed.

Lemma called_visit_dict items acc :
  called_visit (YDict items) acc =
  fold_left
    (λ acc kv,
       match kv with
       | (key, value) =>
           match value with
           | YList l =>
               if bool_decide (key = SStr "pipelines")
               then acc ∪ list_to_set (str_items l)
               else called_visit value acc
           | _ => called_visit value acc
           end
       end) items acc.
Proof. reflexivity. Qed.

Lemma fold_called {C} (g : gset string → C → gset string)
    (E : C → string → Prop) items :
  Forall (λ c, ∀ acc x, x ∈ g acc c ↔ x ∈ acc ∨ E c x) items →
  ∀ acc x, x ∈ fold_left g items acc ↔
           x ∈ acc ∨ ∃ c, c ∈ items ∧ E c x.
Proof.
  induction 1 as [|c items Hc _ IH]; intros acc x; cbn [fold_left].
  - split; [by left|]. intros [?|(c & ?%elem_of_nil & _)]; done.
  - rewrite IH, Hc. split.
    + intros [[?|?]|(c' & ? & ?)]; [by left|right..].
      * exists c. split; [by left|done].
      * exists c'. split; [by right|done].
    + intros [?|(c' & [->|?]%elem_of_cons & ?)]; [by left; left|by left; right|].
      right. by exists c'.
Qed.

Lemma elem_of_str_items x l :
  x ∈ str_items l ↔ YScalar (SStr x) ∈ l.
Proof.
  unfold str_items. rewrite list_elem_of_omap. split.
  - intros (item & Hi & Hx).
    destruct item as [[| | | |s]| |]; simplify_eq. done.
  - intros Hx. by exists (YScalar (SStr x)).
Qed.

Lemma called_in_scalar s x :
  ¬ ∃ m, called_reached (YScalar s) m ∧ pipeline_call m x.
Proof.
  intros (m & Hr & items & l & -> & _). inversion Hr.
Qed.

Lemma called_in_list items x :
  (∃ m, called_reached (YList items) m ∧ pipeline_call m x) ↔
  ∃ item, item ∈ items ∧ ∃ m, called_reached item m ∧ pipeline_call m x.
Proof.
  split.
  - intros (m & Hr & Hp). inversion Hr; subst.
    + by destruct Hp as (? & ? & ? & _).
    + eauto.
  - intros (item & Hi & m & Hr & Hp). exists m. split; [|done].
    by eapply called_item.
Qed.

Lemma called_in_dict items x :
  (∃ m, called_reached (YDict items) m ∧ pipeline_call m x) ↔
  ∃ k v, (k, v) ∈ items ∧ entry_called k v x.
Proof.
  split.
  - intros (m & Hr & Hp). inversion Hr as [|?|? key value ? Hk Hne Hv]; subst.
    + destruct Hp as (items' & l & [= <-] & Hk & Hx).
      exists (SStr "pipelines"), (YList l). split; [done|]. cbn.
      by rewrite bool_decide_eq_true_2.
    + exists key, value. split; [done|].
      destruct value as [s|l|vitems]; cbn; eauto.
      rewrite bool_decide_eq_false_2 by eauto. eauto.
  - intros (k & v & Hk & Hv).
    assert ((∃ m, called_reached v m ∧ pipeline_call m x) →
            (∀ l, v = YList l → k ≠ SStr "pipelines") →
            ∃ m, called_reached (YDict items) m ∧ pipeline_call m x) as Hin.
    { intros (m & Hr & Hp) Hne. exists m. split; [|done].
      by eapply called_value. }
    destruct v as [s|l|vitems]; cbn in Hv.
    + by apply Hin.
    + destruct (bool_decide_reflect (k = SStr "pipelines")) as [->|Hne].
      * exists (YDict items). split; [constructor|]. by exists items, l.
      * apply Hin; [done|]. by intros.
    + by apply Hin.
Qed.

Lemma called_visit_spec doc :
  ∀ acc x, x ∈ called_visit doc acc ↔
           x ∈ acc ∨ ∃ m, called_reached doc m ∧ pipeline_call m x.
Proof.
  induction doc as [s|items IH|items IH] using yaml_ind'; intros acc x.
  - cbn. split; [by left|]. intros [?|H]; [done|].
    by apply called_in_scalar in H.
  - rewrite called_visit_list, called_in_list.
    apply (fold_called (λ acc item, called_visit item acc)
             (λ item x, ∃ m, called_reached item m ∧ pipeline_call m x)).
    exact IH.
  - rewrite called_visit_dict, called_in_dict.
    rewrite (fold_called _ (λ kv x, entry_called kv.1 kv.2 x)).
    + split; (intros [?|H]; [by left|right]).
      * destruct H as ([k v] & ? & ?). eauto.
      * destruct H as (k & v & ? & ?). by exists (k, v).
    + eapply Forall_impl; [exact IH|]. intros [k v] Hv acc' x'. cbn in *.
      destruct v as [s|l|vitems]; cbn [entry_called]; [apply Hv| |apply Hv].
      destruct (bool_decide (k = SStr "pipelines")); [|apply Hv].
      rewrite elem_of_union, elem_of_list_to_set, elem_of_str_items. done.
Qed.

(** X17. The pipelines [get_called_pipelines] returns for a document the
    loader can read: the string items of every list kept under the key
    [pipelines], in the document itself and in every mapping reached from
    it through list items and through mapping values other than such a
    list. Items that are not strings are left out, and the traversal does
    not go into a list kept under [pipelines]. *)
Theorem called_pipelines_found open_read safe_load path text doc :
  open_read path = Ok text → safe_load text = Ok doc →
  ∃ s, get_called_pipelines open_read safe_load path = Ok s ∧
    ∀ x, x ∈ s ↔ ∃ m, called_reached doc m ∧ pipeline_call m x.
Proof.
  intros Hopen Hload. unfold get_called_pipelines.
  rewrite Hopen. cbn. rewrite Hload. cbn.
  eexists. split; [done|]. intros x. rewrite called_visit_spec.
  set_solver.
Qed.

Lemma called_pipelines_found_witness :
  ∃ s, get_called_pipelines (Samples.one_file "pipelines.yml" "")
         (Samples.load_as calls_doc) "pipelines.yml" = Ok s ∧
    ∀ x, x ∈ s ↔ ∃ m, called_reached calls_doc m ∧ pipeline_call m x.
Proof.
  apply (called_pipelines_found (Samples.one_file "pipelines.yml" "")
           (Samples.load_as calls_doc) "pipelines.yml" "" calls_doc);
    reflexivity.
Defined.

(** The set for the sample: the number in the list is left out, and
    [pipelines: p9], which is no list, gives nothing. *)
Example called_pipelines_sample :
  get_called_pipelines (Samples.one_file "pipelines.yml" "")
    (Samples.load_as calls_doc) "pipelines.yml" = Ok {[ "p1"; "p2" ]}.
Proof. vm_compute. reflexivity. Qed.

(** *** Node entries *)

Lemma node_entry_ok_subscript values :
  node_entry_ok values = true →
  ∃ f i, subscript values "func" = Ok f ∧ subscript values "inputs" = Ok i.
Proof.
  destruct values as [s|l|items]; cbn; try done.
  destruct (dict_get items (SStr "func")) as [f|]; [|done].
  destruct (dict_get items (SStr "inputs")) as [i|]; [|done]. eauto.
Qed.

Lemma node_entry_bad values :
  node_entry_ok values = false →
  ∃ e, (func ← subscript values "func";
        inputs ← subscript values "inputs";
        Ok (func, inputs)) = Raise e.
Proof.
  destruct values as [s|l|items]; cbn; eauto.
  destruct (dict_get items (SStr "func")) as [f|]; cbn; eauto.
  destruct (dict_get items (SStr "inputs")) as [i|]; cbn; eauto. done.
Qed.

Lemma nodes_loop_ok p items :
  forallb (λ kv, node_entry_ok kv.2) items = true →
  ∀ acc, ∃ r,
    nodes_loop p items acc = Ok r ∧
    dom r = dom acc ∪ list_to_set (items.*1) ∧
    ∀ k info, r !! k = Some info →
      acc !! k = Some info ∨
      (file info = p ∧
       ∃ values, (k, values) ∈ items ∧
         subscript values "func" = Ok (func info) ∧
         subscript values "inputs" = Ok (inputs info)).
Proof.
  induction items as [|[k0 values] items IH]; intros Hall acc.
  - exists acc. split_and!; [done|set_solver|auto].
  - cbn in Hall. apply andb_true_iff in Hall as [Hv Hall].
    destruct (node_entry_ok_subscript _ Hv) as (f & i & Hf & Hi).
    cbn [nodes_loop]. rewrite Hf, Hi. cbn.
    destruct (IH Hall (<[k0 := {| file := p; func := f; inputs := i |}]> acc))
      as (r & -> & Hdom & Hval).
    exists r. split_and!; [done|rewrite Hdom, dom_insert_L; set_solver|].
    intros k info Hk. destruct (Hval k info Hk) as [H|(Hp & v & Hin & H)].
    + destruct (decide (k0 = k)) as [->|Hne].
      * rewrite lookup_insert_eq in H. simplify_eq. right. cbn.
        split; [done|]. exists values. split; [by left|done].
      * rewrite lookup_insert_ne in H by done. by left.
    + right. split; [done|]. exists v. split; [by right|done].
Qed.

Lemma nodes_loop_bad p items :
  forallb (λ kv, node_entry_ok kv.2) items = false →
  ∀ acc, ∃ e, nodes_loop p items acc = Raise e.
Proof.
  induction items as [|[k0 values] items IH]; intros Hall acc; [done|].
  cbn in Hall. cbn [nodes_loop].
  destruct (node_entry_ok values) eqn:Hv.
  - destruct (node_entry_ok_subscript _ Hv) as (f & i & -> & ->). cbn.
    by apply IH.
  - destruct (node_entry_bad _ Hv) as [e He].
    destruct (subscript values "func") as [f|e1]; cbn in *; [|eauto].
    destruct (subscript values "inputs") as [i|e2]; cbn in *; [done|eauto].
Qed.

(** X18. [get_defined_nodes] is all or nothing. For a document that is a
    mapping, when every value is a mapping with the keys [func] and
    [inputs], the result has exactly the keys of the document, and under
    each the repository path of the file with the [func] and the [inputs]
    of an entry of that name; when one value is anything else, the nodes
    of the whole file are lost: the result is the empty map. *)
Theorem defined_nodes_all_or_nothing open_read safe_load repo_path path
    text items :
  open_read path = Ok text → safe_load text = Ok (YDict items) →
  if forallb (λ kv, node_entry_ok kv.2) items then
    ∃ r, get_defined_nodes open_read safe_load repo_path path = Ok r ∧
      dom r = list_to_set (items.*1) ∧
      ∀ k info, r !! k = Some info →
        file info = repo_path path ∧
        ∃ values, (k, values) ∈ items ∧
          subscript values "func" = Ok (func info) ∧
          subscript values "inputs" = Ok (inputs info)
  else get_defined_nodes open_read safe_load repo_path path = Ok ∅.
Proof.
  intros Hopen Hload. unfold get_defined_nodes.
  rewrite Hopen. cbn. rewrite Hload. cbn.
  destruct (forallb _ items) eqn:Hall.
  - destruct items as [|kv items].
    + exists ∅. cbn. split_and!; [done|set_solver|].
      intros k info H. by rewrite lookup_empty in H.
    + cbn [truthy dict_items]. cbn -[nodes_loop].
      destruct (nodes_loop_ok (repo_path path) (kv :: items) Hall ∅)
        as (r & -> & Hdom & Hval).
      exists r. split_and!; [done|rewrite Hdom; set_solver|].
      intros k info Hk. destruct (Hval k info Hk) as [H|H]; [|done].
      by rewrite lookup_empty in H.
  - destruct items as [|kv items]; [done|].
    cbn [truthy dict_items]. cbn -[nodes_loop].
    destruct (nodes_loop_bad (repo_path path) (kv :: items) Hall ∅)
      as [e ->]. done.
Qed.

Lemma defined_nodes_all_or_nothing_witness :
  get_defined_nodes (Samples.one_file "c/nodes.yml" "")
    (Samples.load_as bad_nodes_doc) (λ p, p) "c/nodes.yml" = Ok ∅.
Proof.
  apply (defined_nodes_all_or_nothing (Samples.one_file "c/nodes.yml" "")
           (Samples.load_as bad_nodes_doc) (λ p, p) "c/nodes.yml" ""
           [(SStr "n1",
             YDict [(SStr "func", Samples.str "f");
                    (SStr "inputs", YList [Samples.str "a"])]);
            (SStr "n2", YDict [(SStr "func", Samples.str "g")])]);
    reflexivity.
Defined.

(** The nodes of the sample in which both entries can be read. *)
Example defined_nodes_sample :
  dom <$> (match get_defined_nodes (Samples.one_file "c/nodes.yml" "")
                   (Samples.load_as nodes_doc) (λ p, p) "c/nodes.yml" with
           | Ok r => Some r
           | Raise _ => None
           end) = Some ({[ SStr "n1"; SStr "n2" ]} : gset scalar).
Proof. vm_compute. reflexivity. Qed.

(** *** A pipeline whose nodes are no set *)

Lemma fold_raises {A C} (g : C → A → result A) items c :
  c ∈ items → (∀ acc, ∃ e, g c acc = Raise e) →
  ∀ r0, ∃ e, fold_left (λ r c, r ≫= g c) items r0 = Raise e.
Proof.
  intros Hc Hg. induction items as [|c' items IH]; intros r0.
  - by apply elem_of_nil in Hc.
  - cbn [fold_left]. apply elem_of_cons in Hc as [<-|Hc]; [|by apply IH].
    destruct r0 as [acc|e]; cbn.
    + destruct (Hg acc) as [e ->]. exists e. apply fold_bind_Raise.
    + exists e. apply fold_bind_Raise.
Qed.

Lemma defined_visit_raises doc :
  ∀ key, found_in not_a_set doc key →
  ∀ acc, ∃ e, defined_visit doc acc = Raise e.
Proof.
  induction doc as [s|items IH|items IH] using yaml_ind'; intros key Hf acc.
  - by apply found_in_scalar in Hf.
  - apply found_in_list in Hf as (item & Hi & Hf).
    rewrite defined_visit_list.
    apply (fold_raises (λ item acc, defined_visit item acc) items item Hi).
    rewrite Forall_forall in IH. intros acc'. by eapply IH.
  - apply found_in_dict in Hf as (k & v & Hkv & Hf).
    rewrite defined_visit_dict.
    apply (fold_raises
             (λ kv acc,
                match kv with
                | (key, value) =>
                    match value with
                    | YDict vitems =>
                        match dict_get vitems (SStr "nodes") with
                        | Some nodes =>
                            nodes_set ← set_of nodes;
                            defined_visit value (<[key := nodes_set]> acc)
                        | None => Ok acc
                        end
                    | _ => defined_visit value acc
                    end
                end) items (k, v) Hkv).
    rewrite Forall_forall in IH. specialize (IH (k, v) Hkv). cbn in IH.
    intros acc'. destruct v as [s|l|vitems]; cbn [entry_found] in Hf.
    + done.
    + by eapply IH.
    + destruct Hf as (nodes & -> & [[_ [e He]]|Hf]).
      * rewrite He. by exists e.
      * destruct (set_of nodes) as [ns|e]; cbn; [by eapply IH|by exists e].
Qed.

(** X19. One pipeline spoils the file. When the traversal of
    [get_defined_pipelines] reaches a pipeline entry whose [nodes] value
    cannot be made a set (a number, a boolean, nothing, or a list with an
    item that is a list or a mapping), the result is the empty map: the
    pipelines recorded before it are lost as well. *)
Theorem defined_pipelines_spoiled open_read safe_load path text doc key :
  open_read path = Ok text → safe_load text = Ok doc →
  found_in not_a_set doc key →
  get_defined_pipelines open_read safe_load path = Ok ∅.
Proof.
  intros Hopen Hload Hf. unfold get_defined_pipelines.
  rewrite Hopen. cbn. rewrite Hload. cbn.
  by destruct (defined_visit_raises doc key Hf ∅) as [e ->].
Qed.

Lemma defined_pipelines_spoiled_witness :
  get_defined_pipelines (Samples.one_file "pipelines.yml" "")
    (Samples.load_as bad_pipeline_doc) "pipelines.yml" = Ok ∅.
Proof.
  apply (defined_pipelines_spoiled (Samples.one_file "pipelines.yml" "")
           (Samples.load_as bad_pipeline_doc) "pipelines.yml" ""
           bad_pipeline_doc (SStr "p2")); [reflexivity..|].
  exists bad_pipeline_doc, (YScalar (SInt 5)). split_and!.
  - constructor.
  - eexists _, _. split_and!;
      [reflexivity|apply list_elem_of_lookup; by exists 1%nat|reflexivity].
  - by exists TypeError.
Defined.

(** *** The settings of the reviewer *)

(** X20. With no configuration file, with one that is not YAML, and with
    one that is empty, [process_config_file] returns the defaults: empty
    language, test folder and documentation folder, and both indexing and
    dead-code review off. *)
Theorem process_config_defaults open_read safe_load local_config_file :
  open_read local_config_file = Raise FileNotFoundError ∨
  (∃ text, open_read local_config_file = Ok text ∧
     (safe_load text = Raise YAMLError ∨
      ∃ doc, safe_load text = Ok doc ∧ truthy doc = false)) →
  process_config_file open_read safe_load local_config_file =
  Ok (YScalar (SStr ""), YScalar (SStr ""), false, false, YScalar (SStr "")).
Proof.
  unfold process_config_file, parse_yaml_file.
  intros [->|(text & -> & [->|(doc & -> & ->)])]; reflexivity.
Qed.

Lemma process_config_defaults_witness :
  process_config_file Samples.no_file (Samples.load_as (YDict []))
    "sentinel-config.yaml" =
  Ok (YScalar (SStr ""), YScalar (SStr ""), false, false, YScalar (SStr "")).
Proof.
  apply (process_config_defaults Samples.no_file
           (Samples.load_as (YDict [])) "sentinel-config.yaml").
  left. reflexivity.
Defined.

(** X21. The two switches of the configuration. For a configuration that
    is a mapping, [process_config_file] raises nothing, and indexing
    (likewise the dead-code review) is on exactly when the value of the
    key is the YAML boolean true: the string [true], the number 1 and a
    missing key all leave it off. The other three settings are returned
    as they stand in the file, whatever their type. *)
Theorem process_config_flags open_read safe_load local_config_file text
    kv items :
  open_read local_config_file = Ok text →
  safe_load text = Ok (YDict (kv :: items)) →
  ∃ language test_folder indexing deadcode doc_folder,
    process_config_file open_read safe_load local_config_file =
      Ok (language, test_folder, indexing, deadcode, doc_folder) ∧
    (indexing = true ↔
     dict_get (kv :: items) (SStr "indexing") = Some (YScalar (SBool true))) ∧
    (deadcode = true ↔
     dict_get (kv :: items) (SStr "deadcode") = Some (YScalar (SBool true))) ∧
    language = default (YScalar (SStr ""))
                 (dict_get (kv :: items) (SStr "language")) ∧
    test_folder = default (YScalar (SStr ""))
                    (dict_get (kv :: items) (SStr "test_folder")) ∧
    doc_folder = default (YScalar (SStr ""))
                   (dict_get (kv :: items) (SStr "doc_folder")).
Proof.
  intros Hopen Hload. unfold process_config_file, parse_yaml_file.
  rewrite Hopen, Hload. cbn [truthy]. cbn -[dict_get].
  eexists _, _, _, _, _. split; [done|]. split_and!; try done.
  - destruct (dict_get (kv :: items) (SStr "indexing"))
      as [[[| [|] | | |]| |]|]; cbn; naive_solver.
  - destruct (dict_get (kv :: items) (SStr "deadcode"))
      as [[[| [|] | | |]| |]|]; cbn; naive_solver.
Qed.

Lemma process_config_flags_witness :
  ∃ language test_folder indexing deadcode doc_folder,
    process_config_file (Samples.one_file "sentinel-config.yaml" "")
      (Samples.load_as (YDict config_items)) "sentinel-config.yaml" =
      Ok (language, test_folder, indexing, deadcode, doc_folder) ∧
    (indexing = true ↔
     dict_get config_items (SStr "indexing") = Some (YScalar (SBool true))) ∧
    (deadcode = true ↔
     dict_get config_items (SStr "deadcode") = Some (YScalar (SBool true))) ∧
    language = default (YScalar (SStr ""))
                 (dict_get config_items (SStr "language")) ∧
    test_folder = default (YScalar (SStr ""))
                    (dict_get config_items (SStr "test_folder")) ∧
    doc_folder = default (YScalar (SStr ""))
                   (dict_get config_items (SStr "doc_folder")).
Proof.
  apply (process_config_flags (Samples.one_file "sentinel-config.yaml" "")
           (Samples.load_as (YDict config_items)) "sentinel-config.yaml" ""
           (SStr "language", Samples.str "python")
           [(SStr "indexing", YScalar (SBool true));
            (SStr "deadcode", Samples.str "true")]); reflexivity.
Defined.

(** X22. A configuration file that holds a list, or a bare value that is
    not empty, is not a mapping: [process_config_file] does not fall back
    on the defaults, it raises [AttributeError]. *)
Theorem process_config_not_mapping open_read safe_load local_config_file
    text doc :
  open_read local_config_file = Ok text → safe_load text = Ok doc →
  truthy doc = true → (∀ items, doc ≠ YDict items) →
  process_config_file open_read safe_load local_config_file =
  Raise AttributeError.
Proof.
  intros Hopen Hload Ht Hnd. unfold process_config_file, parse_yaml_file.
  rewrite Hopen, Hload, Ht. destruct doc as [s|l|items]; [done..|].
  by destruct (Hnd items).
Qed.

Lemma process_config_not_mapping_witness :
  process_config_file (Samples.one_file "sentinel-config.yaml" "")
    (Samples.load_as (YList [Samples.str "python"])) "sentinel-config.yaml" =
  Raise AttributeError.
Proof.
  apply (process_config_not_mapping
           (Samples.one_file "sentinel-config.yaml" "")
           (Samples.load_as (YList [Samples.str "python"]))
           "sentinel-config.yaml" "" (YList [Samples.str "python"]));
    [reflexivity..|]. intros items. discriminate.
Defined.

End ConfigFacts.
